(** * node/heartbeat: the liveness monitor

    A shallow embedding of [node/heartbeat/monitor.go] and the properties
    of its operations: construction and recovery ([NewMonitor]), ingestion
    ([ProcessReceivedMessage], [addHeartbeatMessageToMap]), the aggregation
    pass ([computeAllHeartbeatMessages]), the snapshot ([GetHeartbeats]) and
    the persisted layout ([convertToExportedStruct],
    [convertFromExportedStruct]).

    Conventions.
    - Go's [int64], [time.Duration] and [uint32] are integers of [Z]; the
      operations that can leave the 64-bit range wrap or saturate as Go
      does ([wrap64], [Time_Sub]).
    - A [time.Time] is the instant it denotes, in nanoseconds relative to
      the Unix epoch.  Go's range of instants is far wider than what an
      [int64] of nanoseconds holds (years 1678 to 2262), so [Time] is all
      of [Z] and [UnixNano] wraps.  Monotonic readings and locations are
      not represented.
    - A Go [string] and a [[]byte] are both sequences of bytes: [string].
    - [map[string]*heartbeatMessageInfo]: every key owns one record object,
      so the map is a [gmap] from the key to the record's current value; a
      map of such pointers handed to another goroutine is the set of its
      keys, read through the monitor's map when that goroutine runs.
    - Ranging over a Go map visits its keys in an unspecified order: every
      function that ranges over a map takes the order as an argument.
    - Collaborators are interfaces; their methods are state transformers
      over one external state [Ext].  [nil] is [None].
    - [go f(x)] adds a task to the pool of the [World]; the scheduler
      ([step]) runs the tasks, one lock scope at a time. *)

From Stdlib Require Import ZArith Ascii SpecFloat.
From stdpp Require Import base numbers option list sorting gmap strings.

Local Open Scope Z_scope.

(** ** Machine integers *)

Definition int64_min : Z := - 2 ^ 63.
Definition int64_max : Z := 2 ^ 63 - 1.

Definition in_int64 (x : Z) : Prop := int64_min ≤ x ≤ int64_max.

(** Two's complement wrap-around of an [int64] result. *)
Definition wrap64 (x : Z) : Z := (x + 2 ^ 63) `mod` 2 ^ 64 - 2 ^ 63.

(** ** [time.Duration] and [time.Time] *)

Definition Duration := Z.
Definition Time := Z.

Definition Nanosecond : Duration := 1.
Definition Second : Duration := 1000000000.

Definition minDuration : Duration := int64_min.
Definition maxDuration_const : Duration := int64_max.

(** [d1 + d2] on [time.Duration]. *)
Definition Duration_add (d1 d2 : Duration) : Duration := wrap64 (d1 + d2).

(** [d.Nanoseconds()]: [int64(d)]. *)
Definition Nanoseconds (d : Duration) : Z := d.

(** [t.Sub(u)]: the difference, or the extreme [Duration] when it does not
    fit. *)
Definition Time_Sub (t u : Time) : Duration :=
  if t - u <? minDuration then minDuration
  else if maxDuration_const <? t - u then maxDuration_const
  else t - u.

(** [t.UnixNano()]: the seconds times [1e9] plus the nanoseconds, computed
    in [int64]. *)
Definition UnixNano (t : Time) : Z := wrap64 t.

(** [time.Unix(sec, nsec)]. *)
Definition time_Unix (sec nsec : Z) : Time := sec * 1000000000 + nsec.

(** The zero [time.Time{}]: January 1 of the year 1, 00:00:00 UTC. *)
Definition zeroTime : Time := time_Unix (-62135596800) 0.

(** Modelled from the spec: the helper [maxDuration(first, second)] of the
    package, not in this file; the greater of two durations ("clipped at
    0", "delta = max(0, now - lastUptimeDowntime)"). *)
Definition maxDuration (first second : Duration) : Duration :=
  if second <? first then first else second.

(** ** [float64], as far as [Duration.Seconds] needs it

    IEEE 754 binary64 with round to nearest even, from the Standard
    Library's executable specification. *)

Definition float64 := spec_float.

(** [float64(x)] of an integer. *)
Definition float64_of_int (x : Z) : float64 := binary_normalize 53 1024 x 0 false.
Definition float64_add : float64 → float64 → float64 := SFadd 53 1024.
Definition float64_div : float64 → float64 → float64 := SFdiv 53 1024.

(** [int64(f)] of a finite float in range: the fraction is discarded. *)
Definition int64_of_float64 (f : float64) : Z :=
  match f with
  | S754_finite s m e =>
      let v := if 0 <=? e then Z.shiftl (Z.pos m) e else Z.shiftr (Z.pos m) (- e) in
      if s then - v else v
  | _ => 0
  end.

(** [d.Seconds()]:
    [sec := d / Second; nsec := d % Second;
     return float64(sec) + float64(nsec)/1e9]. *)
Definition Seconds (d : Duration) : float64 :=
  let sec := d `quot` Second in
  let nsec := d `rem` Second in
  float64_add (float64_of_int sec)
              (float64_div (float64_of_int nsec) (float64_of_int 1000000000)).

(** ** [encoding/hex] and [strings.Compare] *)

Definition hexDigit (n : N) : ascii :=
  match n with
  | 0 => "0" | 1 => "1" | 2 => "2" | 3 => "3" | 4 => "4" | 5 => "5"
  | 6 => "6" | 7 => "7" | 8 => "8" | 9 => "9" | 10 => "a" | 11 => "b"
  | 12 => "c" | 13 => "d" | 14 => "e" | _ => "f"
  end%N%char.

(** [hex.EncodeToString]: two lower-case digits for every byte, the high
    nibble first. *)
Fixpoint hex_EncodeToString (src : string) : string :=
  match src with
  | EmptyString => EmptyString
  | String c rest =>
      let n := Ascii.N_of_ascii c in
      String (hexDigit (n / 16)%N) (String (hexDigit (n `mod` 16)%N) (hex_EncodeToString rest))
  end.

(** [strings.Compare(a, b)]: -1, 0 or +1 by the lexicographic order of the
    bytes. *)
Definition strings_Compare (a b : string) : Z :=
  match String.compare a b with
  | Lt => -1
  | Eq => 0
  | Gt => 1
  end.

(** ** Errors

    The sentinel errors of the package ([errors.go]) that this file
    returns, and the errors of the collaborators, which the monitor only
    passes on. *)

Inductive Error :=
  | ErrNilMessage
  | ErrNilDataToProcess
  | ErrNilMarshalizer
  | ErrNilPeerTypeProvider
  | ErrEmptyPublicKeysMap
  | ErrNilMessageHandler
  | ErrNilHeartbeatStorer
  | ErrNilTimer
  | ErrNilAntifloodHandler
  | ErrNilAppStatusHandler
  | ErrCollaborator (msg : string).

(** ** What lies outside this file

    [Ext] is the state of the world behind the collaborator interfaces
    (the storage engine, the clock, the flood accounting, the role
    assignment of the epoch).  The two other fields stand for code of the
    package that is not in this file and that the spec does not fix:
    which roles [GetIsValidator] counts as validators, and the argument
    validation of [newHeartbeatMessageInfo], whose error the callers here
    handle. *)

Class Outside := {
  Ext : Type;
  Marshalizer : Type;
  isValidatorPeerType : string → bool;
  checkNewHeartbeatMessageInfo : Duration → string → Time → option Error;
}.

(** Modelled from the spec: [core.ObserverList], the default "observer"
    role to which a failed role resolution degrades. *)
Definition ObserverList : string := "observer".

(** Modelled from the spec: [core.HeartbeatTopic], the topic the second
    gate check is scoped to. *)
Definition HeartbeatTopic : string := "heartbeat".

(** The two counters the aggregation pass publishes
    ([core.MetricLiveValidatorNodes], [core.MetricConnectedNodes]). *)
Inductive MetricKey := MetricLiveValidatorNodes | MetricConnectedNodes.

(** ** The persisted and the exported layouts *)

(** [HeartbeatDTO]: times are [int64] nanoseconds. *)
Record HeartbeatDTO := {
  dto_MaxInactiveTime : Z;
  dto_TotalUpTime : Z;
  dto_TotalDownTime : Z;
  dto_TimeStamp : Z;
  dto_IsActive : bool;
  dto_ReceivedShardID : Z;
  dto_ComputedShardID : Z;
  dto_VersionNumber : string;
  dto_NodeDisplayName : string;
  dto_PeerType : string;
  dto_LastUptimeDowntime : Z;
  dto_GenesisTime : Z;
}.

(** [PubKeyHeartbeat], one entry of a snapshot. *)
Record PubKeyHeartbeat := {
  HexPublicKey : string;
  pkh_TimeStamp : Time;
  pkh_MaxInactiveTime : Duration;
  pkh_IsActive : bool;
  pkh_ReceivedShardID : Z;
  pkh_ComputedShardID : Z;
  pkh_TotalUpTime : Z;
  pkh_TotalDownTime : Z;
  pkh_VersionNumber : string;
  pkh_NodeDisplayName : string;
  pkh_PeerType : string;
}.

(** The decoded heartbeat payload. *)
Record Heartbeat := {
  Pubkey : string;
  ShardID : Z;
  VersionNumber : string;
  NodeDisplayName : string;
}.

(** [p2p.MessageP2P]: [Data] is the payload, [nil] when absent. *)
Record MessageP2P := {
  From : string;
  Data : option string;
  Topics : list string;
}.

Definition PeerID := string.

Section Model.
Context `{Outside}.

(** [Timer], the clock source. *)
Record Timer := {
  Now : Ext → Time * Ext;
}.

(** ** The peer state record *)

Record heartbeatMessageInfo := {
  maxDurationPeerUnresponsive : Duration;
  maxInactiveTime : Duration;
  totalUpTime : Duration;
  totalDownTime : Duration;
  getTimeHandler : option (Ext → Time * Ext);
  timeStamp : Time;
  isActive : bool;
  receivedShardID : Z;
  computedShardID : Z;
  versionNumber : string;
  nodeDisplayName : string;
  peerType : string;
  lastUptimeDowntime : Time;
  genesisTime : Time;
}.

Definition set_totalUpTime (x : Duration) (v : heartbeatMessageInfo) :=
  {| maxDurationPeerUnresponsive := maxDurationPeerUnresponsive v;
     maxInactiveTime := maxInactiveTime v; totalUpTime := x;
     totalDownTime := totalDownTime v; getTimeHandler := getTimeHandler v;
     timeStamp := timeStamp v; isActive := isActive v;
     receivedShardID := receivedShardID v; computedShardID := computedShardID v;
     versionNumber := versionNumber v; nodeDisplayName := nodeDisplayName v;
     peerType := peerType v; lastUptimeDowntime := lastUptimeDowntime v;
     genesisTime := genesisTime v |}.

Definition set_totalDownTime (x : Duration) (v : heartbeatMessageInfo) :=
  {| maxDurationPeerUnresponsive := maxDurationPeerUnresponsive v;
     maxInactiveTime := maxInactiveTime v; totalUpTime := totalUpTime v;
     totalDownTime := x; getTimeHandler := getTimeHandler v;
     timeStamp := timeStamp v; isActive := isActive v;
     receivedShardID := receivedShardID v; computedShardID := computedShardID v;
     versionNumber := versionNumber v; nodeDisplayName := nodeDisplayName v;
     peerType := peerType v; lastUptimeDowntime := lastUptimeDowntime v;
     genesisTime := genesisTime v |}.

Definition set_getTimeHandler (x : option (Ext → Time * Ext)) (v : heartbeatMessageInfo) :=
  {| maxDurationPeerUnresponsive := maxDurationPeerUnresponsive v;
     maxInactiveTime := maxInactiveTime v; totalUpTime := totalUpTime v;
     totalDownTime := totalDownTime v; getTimeHandler := x;
     timeStamp := timeStamp v; isActive := isActive v;
     receivedShardID := receivedShardID v; computedShardID := computedShardID v;
     versionNumber := versionNumber v; nodeDisplayName := nodeDisplayName v;
     peerType := peerType v; lastUptimeDowntime := lastUptimeDowntime v;
     genesisTime := genesisTime v |}.

Definition set_timeStamp (x : Time) (v : heartbeatMessageInfo) :=
  {| maxDurationPeerUnresponsive := maxDurationPeerUnresponsive v;
     maxInactiveTime := maxInactiveTime v; totalUpTime := totalUpTime v;
     totalDownTime := totalDownTime v; getTimeHandler := getTimeHandler v;
     timeStamp := x; isActive := isActive v;
     receivedShardID := receivedShardID v; computedShardID := computedShardID v;
     versionNumber := versionNumber v; nodeDisplayName := nodeDisplayName v;
     peerType := peerType v; lastUptimeDowntime := lastUptimeDowntime v;
     genesisTime := genesisTime v |}.

Definition set_isActive (x : bool) (v : heartbeatMessageInfo) :=
  {| maxDurationPeerUnresponsive := maxDurationPeerUnresponsive v;
     maxInactiveTime := maxInactiveTime v; totalUpTime := totalUpTime v;
     totalDownTime := totalDownTime v; getTimeHandler := getTimeHandler v;
     timeStamp := timeStamp v; isActive := x;
     receivedShardID := receivedShardID v; computedShardID := computedShardID v;
     versionNumber := versionNumber v; nodeDisplayName := nodeDisplayName v;
     peerType := peerType v; lastUptimeDowntime := lastUptimeDowntime v;
     genesisTime := genesisTime v |}.

Definition set_computedShardID (x : Z) (v : heartbeatMessageInfo) :=
  {| maxDurationPeerUnresponsive := maxDurationPeerUnresponsive v;
     maxInactiveTime := maxInactiveTime v; totalUpTime := totalUpTime v;
     totalDownTime := totalDownTime v; getTimeHandler := getTimeHandler v;
     timeStamp := timeStamp v; isActive := isActive v;
     receivedShardID := receivedShardID v; computedShardID := x;
     versionNumber := versionNumber v; nodeDisplayName := nodeDisplayName v;
     peerType := peerType v; lastUptimeDowntime := lastUptimeDowntime v;
     genesisTime := genesisTime v |}.

Definition set_peerType (x : string) (v : heartbeatMessageInfo) :=
  {| maxDurationPeerUnresponsive := maxDurationPeerUnresponsive v;
     maxInactiveTime := maxInactiveTime v; totalUpTime := totalUpTime v;
     totalDownTime := totalDownTime v; getTimeHandler := getTimeHandler v;
     timeStamp := timeStamp v; isActive := isActive v;
     receivedShardID := receivedShardID v; computedShardID := computedShardID v;
     versionNumber := versionNumber v; nodeDisplayName := nodeDisplayName v;
     peerType := x; lastUptimeDowntime := lastUptimeDowntime v;
     genesisTime := genesisTime v |}.

Definition set_lastUptimeDowntime (x : Time) (v : heartbeatMessageInfo) :=
  {| maxDurationPeerUnresponsive := maxDurationPeerUnresponsive v;
     maxInactiveTime := maxInactiveTime v; totalUpTime := totalUpTime v;
     totalDownTime := totalDownTime v; getTimeHandler := getTimeHandler v;
     timeStamp := timeStamp v; isActive := isActive v;
     receivedShardID := receivedShardID v; computedShardID := computedShardID v;
     versionNumber := versionNumber v; nodeDisplayName := nodeDisplayName v;
     peerType := peerType v; lastUptimeDowntime := x;
     genesisTime := genesisTime v |}.

Definition set_genesisTime (x : Time) (v : heartbeatMessageInfo) :=
  {| maxDurationPeerUnresponsive := maxDurationPeerUnresponsive v;
     maxInactiveTime := maxInactiveTime v; totalUpTime := totalUpTime v;
     totalDownTime := totalDownTime v; getTimeHandler := getTimeHandler v;
     timeStamp := timeStamp v; isActive := isActive v;
     receivedShardID := receivedShardID v; computedShardID := computedShardID v;
     versionNumber := versionNumber v; nodeDisplayName := nodeDisplayName v;
     peerType := peerType v; lastUptimeDowntime := lastUptimeDowntime v;
     genesisTime := x |}.

(** Modelled from the spec: [newHeartbeatMessageInfo], the constructor of
    a fresh record ([heartbeatMessageInfo.go] is not in this file).  "Initial
    state on fresh creation: Inactive", up and down time empty, the time of
    the last heartbeat and the accounting watermark back-filled from the
    genesis time, the configured threshold as [maxInactiveTime].  The
    callers handle an error of the constructor: what it rejects is
    [checkNewHeartbeatMessageInfo]. *)
Definition newHeartbeatMessageInfo
    (maxDurationPeerUnresponsive : Duration) (peerType : string)
    (genesisTime : Time) (timer : Timer) :
    Error + heartbeatMessageInfo :=
  match checkNewHeartbeatMessageInfo maxDurationPeerUnresponsive peerType genesisTime with
  | Some err => inl err
  | None =>
      inr {| maxDurationPeerUnresponsive := maxDurationPeerUnresponsive;
             maxInactiveTime := maxDurationPeerUnresponsive;
             totalUpTime := 0;
             totalDownTime := 0;
             getTimeHandler := Some (Now timer);
             timeStamp := genesisTime;
             isActive := false;
             receivedShardID := 0;
             computedShardID := 0;
             versionNumber := "";
             nodeDisplayName := "";
             peerType := peerType;
             lastUptimeDowntime := genesisTime;
             genesisTime := genesisTime |}
  end.

(** Modelled from the spec: [HeartbeatReceived], transition 1 of the
    record's state machine, at the instant [now] its clock shows:
    "unconditional transition to Active; sets timeStamp = now, overwrites
    receivedShardID, computedShardID, versionNumber, nodeDisplayName,
    peerType.  Does not itself touch totalUpTime/totalDownTime". *)
Definition HeartbeatReceived (now : Time)
    (computedShardID receivedShardID : Z) (version nodeDisplayName peerType : string)
    (v : heartbeatMessageInfo) : heartbeatMessageInfo :=
  {| maxDurationPeerUnresponsive := v.(maxDurationPeerUnresponsive);
     maxInactiveTime := v.(maxInactiveTime);
     totalUpTime := v.(totalUpTime);
     totalDownTime := v.(totalDownTime);
     getTimeHandler := v.(getTimeHandler);
     timeStamp := now;
     isActive := true;
     receivedShardID := receivedShardID;
     computedShardID := computedShardID;
     versionNumber := version;
     nodeDisplayName := nodeDisplayName;
     peerType := peerType;
     lastUptimeDowntime := v.(lastUptimeDowntime);
     genesisTime := v.(genesisTime) |}.

(** Modelled from the spec: [ComputeActive], transition 2 ("Evaluate"):
    "elapsedSinceLastHeartbeat = now - timeStamp; new isActive' =
    elapsedSinceLastHeartbeat < maxInactiveTime; delta = max(0, now -
    lastUptimeDowntime); if the previous isActive was true, credit delta to
    totalUpTime, else to totalDownTime; set isActive = isActive'; set
    lastUptimeDowntime = now". *)
Definition ComputeActive (now : Time) (v : heartbeatMessageInfo) : heartbeatMessageInfo :=
  let elapsedSinceLastHeartbeat := Time_Sub now v.(timeStamp) in
  let isActive' := bool_decide (elapsedSinceLastHeartbeat < v.(maxInactiveTime)) in
  let delta := maxDuration 0 (Time_Sub now v.(lastUptimeDowntime)) in
  let v :=
    if v.(isActive) then set_totalUpTime (Duration_add v.(totalUpTime) delta) v
    else set_totalDownTime (Duration_add v.(totalDownTime) delta) v in
  set_lastUptimeDowntime now (set_isActive isActive' v).

(** Modelled from the spec: [GetIsActive], the record's [isActive] flag. *)
Definition GetIsActive (v : heartbeatMessageInfo) : bool := v.(isActive).

(** Modelled from the spec: [GetIsValidator], whether the record's "role
    marks [it] a validator". *)
Definition GetIsValidator (v : heartbeatMessageInfo) : bool :=
  isValidatorPeerType v.(peerType).

(** ** The collaborators *)

(** [PeerTypeProviderHandler]: the file calls [ComputeForPubKey] with the
    key alone, for the role and the shard, and with the key and a shard,
    for the role. *)
Record PeerTypeProviderHandler := {
  ComputeForPubKey : string → Ext → (Error + string * Z) * Ext;
  ComputeForPubKeyInShard : string → Z → Ext → (Error + string) * Ext;
}.

(** [HeartbeatStorageHandler] *)
Record HeartbeatStorageHandler := {
  UpdateGenesisTime : Time → Ext → option Error * Ext;
  LoadHbmiDTO : string → Ext → (Error + HeartbeatDTO) * Ext;
  SavePubkeyData : string → HeartbeatDTO → Ext → option Error * Ext;
  LoadKeys : Ext → (Error + list string) * Ext;
  SaveKeys : list string → Ext → option Error * Ext;
}.

(** [P2PAntifloodHandler] *)
Record P2PAntifloodHandler := {
  CanProcessMessage : MessageP2P → PeerID → Ext → option Error * Ext;
  CanProcessMessageOnTopic : PeerID → string → Ext → option Error * Ext;
}.

(** [MessageHandler] *)
Record MessageHandler := {
  CreateHeartbeatFromP2PMessage : MessageP2P → Ext → (Error + Heartbeat) * Ext;
}.

(** [core.AppStatusHandler] *)
Record AppStatusHandler := {
  SetUInt64Value : MetricKey → Z → Ext → Ext;
}.

(** [statusHandler.NilStatusHandler]: every method does nothing. *)
Definition NilStatusHandler : AppStatusHandler :=
  {| SetUInt64Value := λ _ _ e, e |}.

(** ** The monitor *)

Record Monitor := {
  mon_maxDurationPeerUnresponsive : Duration;
  marshalizer : Marshalizer;
  peerTypeProvider : PeerTypeProviderHandler;
  heartbeatMessages : gmap string heartbeatMessageInfo;
  pubKeysMap : gmap Z (list string);
  fullPeersSlice : list string;
  appStatusHandler : AppStatusHandler;
  mon_genesisTime : Time;
  messageHandler : MessageHandler;
  storer : HeartbeatStorageHandler;
  timer : Timer;
  antifloodHandler : P2PAntifloodHandler;
}.

Definition set_heartbeatMessages (x : gmap string heartbeatMessageInfo) (m : Monitor) :=
  {| mon_maxDurationPeerUnresponsive := m.(mon_maxDurationPeerUnresponsive);
     marshalizer := m.(marshalizer); peerTypeProvider := m.(peerTypeProvider);
     heartbeatMessages := x; pubKeysMap := m.(pubKeysMap);
     fullPeersSlice := m.(fullPeersSlice); appStatusHandler := m.(appStatusHandler);
     mon_genesisTime := m.(mon_genesisTime); messageHandler := m.(messageHandler);
     storer := m.(storer); timer := m.(timer); antifloodHandler := m.(antifloodHandler) |}.

Definition set_pubKeysMap (x : gmap Z (list string)) (m : Monitor) :=
  {| mon_maxDurationPeerUnresponsive := m.(mon_maxDurationPeerUnresponsive);
     marshalizer := m.(marshalizer); peerTypeProvider := m.(peerTypeProvider);
     heartbeatMessages := m.(heartbeatMessages); pubKeysMap := x;
     fullPeersSlice := m.(fullPeersSlice); appStatusHandler := m.(appStatusHandler);
     mon_genesisTime := m.(mon_genesisTime); messageHandler := m.(messageHandler);
     storer := m.(storer); timer := m.(timer); antifloodHandler := m.(antifloodHandler) |}.

Definition set_fullPeersSlice (x : list string) (m : Monitor) :=
  {| mon_maxDurationPeerUnresponsive := m.(mon_maxDurationPeerUnresponsive);
     marshalizer := m.(marshalizer); peerTypeProvider := m.(peerTypeProvider);
     heartbeatMessages := m.(heartbeatMessages); pubKeysMap := m.(pubKeysMap);
     fullPeersSlice := x; appStatusHandler := m.(appStatusHandler);
     mon_genesisTime := m.(mon_genesisTime); messageHandler := m.(messageHandler);
     storer := m.(storer); timer := m.(timer); antifloodHandler := m.(antifloodHandler) |}.

Definition set_appStatusHandler (x : AppStatusHandler) (m : Monitor) :=
  {| mon_maxDurationPeerUnresponsive := m.(mon_maxDurationPeerUnresponsive);
     marshalizer := m.(marshalizer); peerTypeProvider := m.(peerTypeProvider);
     heartbeatMessages := m.(heartbeatMessages); pubKeysMap := m.(pubKeysMap);
     fullPeersSlice := m.(fullPeersSlice); appStatusHandler := x;
     mon_genesisTime := m.(mon_genesisTime); messageHandler := m.(messageHandler);
     storer := m.(storer); timer := m.(timer); antifloodHandler := m.(antifloodHandler) |}.

(** ** The world the monitor runs in *)

(** What a goroutine still has to do.  [addHeartbeatMessageToMap] holds the
    map lock for the lookup or insertion only, then updates the record, then
    takes the lock of the peers slice: three steps that other goroutines
    can interleave with. *)
Inductive Task :=
  | GoAddHeartbeatMessageToMap (hb : Heartbeat)
  | GoAddHeartbeatUpdateRecord (hb : Heartbeat)
  | GoAddPeerToFullPeersSlice (pubKey : string)
  | GoComputeAllHeartbeatMessages
  | GoSaveMultipleHeartbeatMessageInfos (pubKeysToSave : gset string).

(** The calls that leave the monitor, in the order they were made, and the
    heartbeats whose asynchronous update has begun. *)
Inductive Event :=
  | EvUpdateGenesisTime (genesisTime : Time)
  | EvLoadHbmiDTO (pubKey : string) (found : bool)
  | EvLoadKeys (keys : option (list string))
  | EvSavePubkeyData (pubKey : string) (hbDTO : HeartbeatDTO)
  | EvSaveKeys (peersSlice : list string)
  | EvSetUInt64Value (key : MetricKey) (value : Z)
  | EvHeartbeat (pubKey : string).

Record World := {
  mon : Monitor;
  ext : Ext;
  trace : list Event;
  pool : list Task;
}.

Definition set_mon (x : Monitor) (w : World) : World :=
  {| mon := x; ext := w.(ext); trace := w.(trace); pool := w.(pool) |}.
Definition set_ext (x : Ext) (w : World) : World :=
  {| mon := w.(mon); ext := x; trace := w.(trace); pool := w.(pool) |}.
Definition set_trace (x : list Event) (w : World) : World :=
  {| mon := w.(mon); ext := w.(ext); trace := x; pool := w.(pool) |}.
Definition set_pool (x : list Task) (w : World) : World :=
  {| mon := w.(mon); ext := w.(ext); trace := w.(trace); pool := x |}.

(** A method of [*Monitor]: a computation that reads and changes the
    world. *)
Definition M (A : Type) : Type := World → A * World.

Definition ret {A} (a : A) : M A := λ w, (a, w).

Definition bind {A B} (c : M A) (k : A → M B) : M B :=
  λ w, let '(a, w') := c w in k a w'.

Definition getMon : M Monitor := λ w, (w.(mon), w).

Definition updMon (f : Monitor → Monitor) : M unit :=
  λ w, (tt, set_mon (f w.(mon)) w).

(** A call of a collaborator's method. *)
Definition call {A} (f : Ext → A * Ext) : M A :=
  λ w, let '(a, e) := f w.(ext) in (a, set_ext e w).

Definition emit (ev : Event) : M unit :=
  λ w, (tt, set_trace (w.(trace) ++ [ev]) w).

(** [go f(x)] *)
Definition go (t : Task) : M unit :=
  λ w, (tt, set_pool (w.(pool) ++ [t]) w).

End Model.

Notation "x <- c ;; k" := (bind c (λ x, k))
  (at level 100, c at next level, right associativity).
Notation "c ;; k" := (bind c (λ _, k))
  (at level 100, right associativity).

Section Operations.
Context `{Outside}.

(** [range] over a map: the entries of [m] at the keys of [order]. *)
Definition range {K V} `{Countable K} (m : gmap K V) (order : list K) : list (K * V) :=
  omap (λ k, (k,.) <$> m !! k) order.

(** [order] is an order in which a [range] may visit [m]: every key
    once. *)
Definition iteration_order {K V} `{Countable K} (m : gmap K V) (order : list K) : Prop :=
  order ≡ₚ (map_to_list m).*1.

(** [for _, x := range l { body }] over a slice. *)
Fixpoint forEach {A} (l : list A) (body : A → M unit) : M unit :=
  match l with
  | [] => ret tt
  | x :: l => body x ;; forEach l body
  end.

(** ** [convertToExportedStruct], [convertFromExportedStruct] *)

Definition convertToExportedStruct (v : heartbeatMessageInfo) : HeartbeatDTO :=
  {| dto_IsActive := v.(isActive);
     dto_ReceivedShardID := v.(receivedShardID);
     dto_ComputedShardID := v.(computedShardID);
     dto_VersionNumber := v.(versionNumber);
     dto_NodeDisplayName := v.(nodeDisplayName);
     dto_PeerType := v.(peerType);
     dto_TimeStamp := UnixNano v.(timeStamp);
     dto_MaxInactiveTime := Nanoseconds v.(maxInactiveTime);
     dto_TotalUpTime := Nanoseconds v.(totalUpTime);
     dto_TotalDownTime := Nanoseconds v.(totalDownTime);
     dto_LastUptimeDowntime := UnixNano v.(lastUptimeDowntime);
     dto_GenesisTime := UnixNano v.(genesisTime) |}.

Definition convertFromExportedStruct (hbDTO : HeartbeatDTO) (maxDuration : Duration) :
    heartbeatMessageInfo :=
  {| maxDurationPeerUnresponsive := maxDuration;
     isActive := hbDTO.(dto_IsActive);
     receivedShardID := hbDTO.(dto_ReceivedShardID);
     computedShardID := hbDTO.(dto_ComputedShardID);
     versionNumber := hbDTO.(dto_VersionNumber);
     nodeDisplayName := hbDTO.(dto_NodeDisplayName);
     peerType := hbDTO.(dto_PeerType);
     getTimeHandler := None;
     maxInactiveTime := hbDTO.(dto_MaxInactiveTime);
     timeStamp := time_Unix 0 hbDTO.(dto_TimeStamp);
     totalUpTime := hbDTO.(dto_TotalUpTime);
     totalDownTime := hbDTO.(dto_TotalDownTime);
     lastUptimeDowntime := time_Unix 0 hbDTO.(dto_LastUptimeDowntime);
     genesisTime := time_Unix 0 hbDTO.(dto_GenesisTime) |}.

(** [v'] has the value of [v] in every persisted field. *)
Definition samePersistedFields (v v' : heartbeatMessageInfo) : Prop :=
  v'.(isActive) = v.(isActive) ∧
  v'.(receivedShardID) = v.(receivedShardID) ∧
  v'.(computedShardID) = v.(computedShardID) ∧
  v'.(versionNumber) = v.(versionNumber) ∧
  v'.(nodeDisplayName) = v.(nodeDisplayName) ∧
  v'.(peerType) = v.(peerType) ∧
  v'.(timeStamp) = v.(timeStamp) ∧
  v'.(maxInactiveTime) = v.(maxInactiveTime) ∧
  v'.(totalUpTime) = v.(totalUpTime) ∧
  v'.(totalDownTime) = v.(totalDownTime) ∧
  v'.(lastUptimeDowntime) = v.(lastUptimeDowntime) ∧
  v'.(genesisTime) = v.(genesisTime).

(** ** [computePeerTypeAndShardID], [computePeerType] *)

Definition computePeerTypeAndShardID (pubkey : string) : M (string * Z) :=
  m <- getMon ;;
  r <- call (m.(peerTypeProvider).(ComputeForPubKey) pubkey) ;;
  match r with
  | inl _ => ret (ObserverList, 0)
  | inr (peerType, shardID) => ret (peerType, shardID)
  end.

Definition computePeerType (pubkey : string) (shardID : Z) : M string :=
  m <- getMon ;;
  r <- call (m.(peerTypeProvider).(ComputeForPubKeyInShard) pubkey shardID) ;;
  match r with
  | inl _ => ret ObserverList
  | inr peerType => ret peerType
  end.

(** ** [loadHbmiFromStorer] *)

Definition is_inr {A B} (r : A + B) : Prop := match r with inl _ => False | inr _ => True end.

Global Instance is_inr_dec {A B} (r : A + B) : Decision (is_inr r).
Proof. destruct r; apply _. Defined.

Definition loadHbmiFromStorer (pubKey : string) : M (Error + heartbeatMessageInfo) :=
  m <- getMon ;;
  r <- call (m.(storer).(LoadHbmiDTO) pubKey) ;;
  emit (EvLoadHbmiDTO pubKey (bool_decide (is_inr r))) ;;
  match r with
  | inl err => ret (inl err)
  | inr hbmiDTO =>
      let receivedHbmi := convertFromExportedStruct hbmiDTO m.(mon_maxDurationPeerUnresponsive) in
      let receivedHbmi := set_getTimeHandler (Some m.(timer).(Now)) receivedHbmi in
      crtTime <- call m.(timer).(Now) ;;
      let crtDuration := Time_Sub crtTime receivedHbmi.(lastUptimeDowntime) in
      let crtDuration := maxDuration 0 crtDuration in
      let receivedHbmi :=
        if receivedHbmi.(isActive) then
          set_timeStamp crtTime
            (set_totalUpTime (Duration_add receivedHbmi.(totalUpTime) crtDuration) receivedHbmi)
        else
          set_totalDownTime (Duration_add receivedHbmi.(totalDownTime) crtDuration) receivedHbmi in
      let receivedHbmi := set_lastUptimeDowntime crtTime receivedHbmi in
      let receivedHbmi := set_genesisTime m.(mon_genesisTime) receivedHbmi in
      peerType <- computePeerType pubKey receivedHbmi.(computedShardID) ;;
      ret (inr (set_peerType peerType receivedHbmi))
  end.

(** ** [initializeHeartBeatForPK], [initializeHeartbeatMessagesInfo]

    The two maps the caller passes are local to
    [initializeHeartbeatMessagesInfo]; the function returns them as it
    leaves them. *)

Definition initializeHeartBeatForPK (pubkey : string) (shardId : Z)
    (pubKeysToSave : gset string) (pubKeysMapCopy : gmap Z (list string)) :
    M (option Error * gset string * gmap Z (list string)) :=
  let store (hbmi : heartbeatMessageInfo) (pubKeysToSave : gset string) :=
    updMon (λ m, set_heartbeatMessages (<[pubkey := hbmi]> m.(heartbeatMessages)) m) ;;
    ret (None, pubKeysToSave,
         <[shardId := default [] (pubKeysMapCopy !! shardId) ++ [pubkey]]> pubKeysMapCopy) in
  r <- loadHbmiFromStorer pubkey ;;
  match r with
  | inl _ =>
      ps <- computePeerTypeAndShardID pubkey ;;
      m <- getMon ;;
      match newHeartbeatMessageInfo m.(mon_maxDurationPeerUnresponsive) ps.1
              m.(mon_genesisTime) m.(timer) with
      | inl err => ret (Some err, pubKeysToSave, pubKeysMapCopy)
      | inr hbmi =>
          let hbmi := set_genesisTime m.(mon_genesisTime) hbmi in
          let hbmi := set_computedShardID ps.2 hbmi in
          store hbmi (pubKeysToSave ∪ {[pubkey]})
      end
  | inr hbmi => store hbmi pubKeysToSave
  end.

(** The two nested loops, over the pairs of a shard and one of its keys in
    the order they are visited, left at the first error. *)
Fixpoint initializeLoop (l : list (Z * string))
    (pubKeysToSave : gset string) (pubKeysMapCopy : gmap Z (list string)) :
    M (option Error * gset string * gmap Z (list string)) :=
  match l with
  | [] => ret (None, pubKeysToSave, pubKeysMapCopy)
  | (shardId, pubkey) :: l =>
      r <- initializeHeartBeatForPK pubkey shardId pubKeysToSave pubKeysMapCopy ;;
      match r with
      | (Some e, _, _) => ret r
      | (None, pubKeysToSave, pubKeysMapCopy) => initializeLoop l pubKeysToSave pubKeysMapCopy
      end
  end.

Definition shardKeyPairs (pubKeysMap : gmap Z (list string)) (order : list Z) : list (Z * string) :=
  '(shardId, pubKeys) ← range pubKeysMap order; (shardId,.) <$> pubKeys.

Definition initializeHeartbeatMessagesInfo (pubKeysMap : gmap Z (list string))
    (order : list Z) : M (option Error) :=
  r <- initializeLoop (shardKeyPairs pubKeysMap order) ∅ ∅ ;;
  match r with
  | (Some e, _, _) => ret (Some e)
  | (None, pubKeysToSave, pubKeysMapCopy) =>
      go (GoSaveMultipleHeartbeatMessageInfos pubKeysToSave) ;;
      updMon (set_pubKeysMap pubKeysMapCopy) ;;
      ret None
  end.

(** ** [SaveMultipleHeartbeatMessageInfos]

    [order]: the keys of [pubKeysToSave] as the range visits them. *)
Definition SaveMultipleHeartbeatMessageInfos (order : list string) : M unit :=
  forEach order (λ key,
    m <- getMon ;;
    match m.(heartbeatMessages) !! key with
    | Some hmbi =>
        let hbDTO := convertToExportedStruct hmbi in
        emit (EvSavePubkeyData key hbDTO) ;;
        _ <- call (m.(storer).(SavePubkeyData) key hbDTO) ;;
        ret tt
    | None => ret tt
    end).

(** ** [loadRestOfPubKeysFromStorage] *)

Definition loadRestOfPubKeysFromStorage : M (option Error) :=
  m <- getMon ;;
  r <- call m.(storer).(LoadKeys) ;;
  emit (EvLoadKeys (match r with inl _ => None | inr peersSlice => Some peersSlice end)) ;;
  match r with
  | inl err => ret (Some err)
  | inr peersSlice =>
      forEach peersSlice (λ pubKey,
        m <- getMon ;;
        match m.(heartbeatMessages) !! pubKey with
        | Some _ => ret tt
        | None =>
            r <- loadHbmiFromStorer pubKey ;;
            match r with
            | inl _ => ret tt
            | inr hbmi =>
                updMon (λ m, set_heartbeatMessages (<[pubKey := hbmi]> m.(heartbeatMessages)) m)
            end
        end) ;;
      ret None
  end.

(** ** [NewMonitor]

    The two results of the Go function, and what the call leaves behind:
    the external state, the calls made and the goroutine started.
    [order] is the order in which the range visits [pubKeysMap]. *)
Definition NewMonitor
    (marshalizer : option Marshalizer)
    (maxDurationPeerUnresponsive : Duration)
    (pubKeysMap : gmap Z (list string))
    (genesisTime : Time)
    (messageHandler : option MessageHandler)
    (storer : option HeartbeatStorageHandler)
    (peerTypeProvider : option PeerTypeProviderHandler)
    (timer : option Timer)
    (antifloodHandler : option P2PAntifloodHandler)
    (order : list Z) (e : Ext) :
    option Monitor * option Error * (Ext * list Event * list Task) :=
  match marshalizer with None => (None, Some ErrNilMarshalizer, (e, [], [])) | Some marshalizer =>
  match peerTypeProvider with None => (None, Some ErrNilPeerTypeProvider, (e, [], [])) | Some peerTypeProvider =>
  if bool_decide (size pubKeysMap = 0%nat) then (None, Some ErrEmptyPublicKeysMap, (e, [], [])) else
  match messageHandler with None => (None, Some ErrNilMessageHandler, (e, [], [])) | Some messageHandler =>
  match storer with None => (None, Some ErrNilHeartbeatStorer, (e, [], [])) | Some storer =>
  match timer with None => (None, Some ErrNilTimer, (e, [], [])) | Some timer =>
  match antifloodHandler with None => (None, Some ErrNilAntifloodHandler, (e, [], [])) | Some antifloodHandler =>
    let mon' :=
      {| marshalizer := marshalizer;
         heartbeatMessages := ∅;
         peerTypeProvider := peerTypeProvider;
         mon_maxDurationPeerUnresponsive := maxDurationPeerUnresponsive;
         appStatusHandler := NilStatusHandler;
         mon_genesisTime := genesisTime;
         messageHandler := messageHandler;
         storer := storer;
         timer := timer;
         antifloodHandler := antifloodHandler;
         pubKeysMap := ∅;
         fullPeersSlice := [] |} in
    let body : M (option Error) :=
      emit (EvUpdateGenesisTime genesisTime) ;;
      err <- call (storer.(UpdateGenesisTime) genesisTime) ;;
      match err with
      | Some err => ret (Some err)
      | None =>
          err <- initializeHeartbeatMessagesInfo pubKeysMap order ;;
          match err with
          | Some err => ret (Some err)
          | None =>
              _ <- loadRestOfPubKeysFromStorage ;;
              ret None
          end
      end in
    let '(err, w) := body {| mon := mon'; ext := e; trace := []; pool := [] |} in
    match err with
    | Some err => (None, Some err, (w.(ext), w.(trace), w.(pool)))
    | None => (Some w.(mon), None, (w.(ext), w.(trace), w.(pool)))
    end
  end end end end end end.

(** ** [SetAppStatusHandler] *)

Definition SetAppStatusHandler (ash : option AppStatusHandler) : M (option Error) :=
  match ash with
  | None => ret (Some ErrNilAppStatusHandler)
  | Some ash => updMon (set_appStatusHandler ash) ;; ret None
  end.

(** ** [ProcessReceivedMessage] *)

Definition ProcessReceivedMessage (message : option MessageP2P)
    (fromConnectedPeer : PeerID) : M (option Error) :=
  match message with
  | None => ret (Some ErrNilMessage)
  | Some message =>
      match message.(Data) with
      | None => ret (Some ErrNilDataToProcess)
      | Some _ =>
          m <- getMon ;;
          err <- call (m.(antifloodHandler).(CanProcessMessage) message fromConnectedPeer) ;;
          match err with
          | Some err => ret (Some err)
          | None =>
              err <- call (m.(antifloodHandler).(CanProcessMessageOnTopic)
                             fromConnectedPeer HeartbeatTopic) ;;
              match err with
              | Some err => ret (Some err)
              | None =>
                  r <- call (m.(messageHandler).(CreateHeartbeatFromP2PMessage) message) ;;
                  match r with
                  | inl err => ret (Some err)
                  | inr hbRecv =>
                      go (GoAddHeartbeatMessageToMap hbRecv) ;;
                      go GoComputeAllHeartbeatMessages ;;
                      ret None
                  end
              end
          end
      end
  end.

(** ** [addHeartbeatMessageToMap]

    The function in the three lock scopes it runs through. *)

(** Under [mutHeartbeatMessages]: find the record of the sender or create
    it.  [false]: the constructor failed and the function returned. *)
Definition addHeartbeatMessageToMap_lookup (hb : Heartbeat) : M bool :=
  let pubKeyStr := hb.(Pubkey) in
  emit (EvHeartbeat pubKeyStr) ;;
  m <- getMon ;;
  match m.(heartbeatMessages) !! pubKeyStr with
  | Some _ => ret true
  | None =>
      ps <- computePeerTypeAndShardID hb.(Pubkey) ;;
      match newHeartbeatMessageInfo m.(mon_maxDurationPeerUnresponsive) ps.1
              m.(mon_genesisTime) m.(timer) with
      | inl _ => ret false
      | inr hbmi =>
          updMon (λ m, set_heartbeatMessages (<[pubKeyStr := hbmi]> m.(heartbeatMessages)) m) ;;
          ret true
      end
  end.

(** [hbmi.HeartbeatReceived(...)] on the record of [pubKeyStr], which reads
    the instant from its clock, [getTimeHandler] (the monitor's timer on
    every record of the map). *)
Definition callHeartbeatReceived (pubKeyStr : string)
    (computedShardID receivedShardID : Z) (version nodeDisplayName peerType : string) :
    M unit :=
  m <- getMon ;;
  match m.(heartbeatMessages) !! pubKeyStr with
  | Some hbmi =>
      now <- call (default m.(timer).(Now) hbmi.(getTimeHandler)) ;;
      let hbmi := HeartbeatReceived now computedShardID receivedShardID
                    version nodeDisplayName peerType hbmi in
      updMon (λ m, set_heartbeatMessages (<[pubKeyStr := hbmi]> m.(heartbeatMessages)) m)
  | None => ret tt
  end.

(** Outside the map lock: resolve the role, update the record, persist
    its exported form. *)
Definition addHeartbeatMessageToMap_update (hb : Heartbeat) : M unit :=
  let pubKeyStr := hb.(Pubkey) in
  ps <- computePeerTypeAndShardID hb.(Pubkey) ;;
  callHeartbeatReceived pubKeyStr ps.2 hb.(ShardID) hb.(VersionNumber)
    hb.(NodeDisplayName) ps.1 ;;
  m <- getMon ;;
  match m.(heartbeatMessages) !! pubKeyStr with
  | Some hbmi =>
      let hbDTO := convertToExportedStruct hbmi in
      emit (EvSavePubkeyData hb.(Pubkey) hbDTO) ;;
      _ <- call (m.(storer).(SavePubkeyData) hb.(Pubkey) hbDTO) ;;
      ret tt
  | None => ret tt
  end.

(** [isPeerInFullPeersSlice] *)
Fixpoint isPeerInSlice (peers : list string) (pubKey : string) : bool :=
  match peers with
  | [] => false
  | peer :: peers => if bool_decide (peer = pubKey) then true else isPeerInSlice peers pubKey
  end.

Definition isPeerInFullPeersSlice (m : Monitor) (pubKey : string) : bool :=
  isPeerInSlice m.(fullPeersSlice) pubKey.

(** [addPeerToFullPeersSlice], under [mutFullPeersSlice]. *)
Definition addPeerToFullPeersSlice (pubKey : string) : M unit :=
  m <- getMon ;;
  if negb (isPeerInFullPeersSlice m pubKey) then
    updMon (λ m, set_fullPeersSlice (m.(fullPeersSlice) ++ [pubKey]) m) ;;
    m <- getMon ;;
    emit (EvSaveKeys m.(fullPeersSlice)) ;;
    _ <- call (m.(storer).(SaveKeys) m.(fullPeersSlice)) ;;
    ret tt
  else ret tt.

(** The function as one goroutine runs it, uninterrupted. *)
Definition addHeartbeatMessageToMap (hb : Heartbeat) : M unit :=
  found <- addHeartbeatMessageToMap_lookup hb ;;
  if found : bool then
    addHeartbeatMessageToMap_update hb ;;
    addPeerToFullPeersSlice hb.(Pubkey)
  else ret tt.

(** ** [computeAllHeartbeatMessages]

    The counters are Go [int]s that count entries of a map, whose length is
    an [int]: neither they nor their conversion to [uint64] can overflow. *)

Record passTally := {
  counterActiveValidators : Z;
  counterConnectedNodes : Z;
  hbChangedStateToInactiveMap : gset string;
}.

(** The body of the range loop, for the keys in the order visited. *)
Fixpoint computeAllLoop (order : list string) (acc : passTally) : M passTally :=
  match order with
  | [] => ret acc
  | key :: order =>
      m <- getMon ;;
      match m.(heartbeatMessages) !! key with
      | None => computeAllLoop order acc
      | Some v =>
          let previousActive := GetIsActive v in
          now <- call m.(timer).(Now) ;;
          let v := ComputeActive now v in
          updMon (λ m, set_heartbeatMessages (<[key := v]> m.(heartbeatMessages)) m) ;;
          let isActive := GetIsActive v in
          let counterConnectedNodes :=
            if isActive then acc.(counterConnectedNodes) + 1
            else acc.(counterConnectedNodes) in
          let counterActiveValidators :=
            if isActive && GetIsValidator v then acc.(counterActiveValidators) + 1
            else acc.(counterActiveValidators) in
          let changedStateToInactive := previousActive && negb isActive in
          let changed :=
            if changedStateToInactive then acc.(hbChangedStateToInactiveMap) ∪ {[key]}
            else acc.(hbChangedStateToInactiveMap) in
          computeAllLoop order
            {| counterActiveValidators := counterActiveValidators;
               counterConnectedNodes := counterConnectedNodes;
               hbChangedStateToInactiveMap := changed |}
      end
  end.

Definition publish (key : MetricKey) (value : Z) : M unit :=
  m <- getMon ;;
  emit (EvSetUInt64Value key value) ;;
  call (λ e, (tt, m.(appStatusHandler).(SetUInt64Value) key value e)).

Definition computeAllHeartbeatMessages (order : list string) : M unit :=
  acc <- computeAllLoop order
           {| counterActiveValidators := 0; counterConnectedNodes := 0;
              hbChangedStateToInactiveMap := ∅ |} ;;
  go (GoSaveMultipleHeartbeatMessageInfos acc.(hbChangedStateToInactiveMap)) ;;
  publish MetricLiveValidatorNodes acc.(counterActiveValidators) ;;
  publish MetricConnectedNodes acc.(counterConnectedNodes).

(** The number of records of the map that satisfy [P]. *)
Definition countRecords (P : heartbeatMessageInfo → bool)
    (m : gmap string heartbeatMessageInfo) : Z :=
  Z.of_nat (length (filter (λ kv, P kv.2 = true) (map_to_list m))).

(** The keys of the [SavePubkeyData] calls of a trace, in order. *)
Definition savedPubKeys (tr : list Event) : list string :=
  omap (λ ev, match ev with EvSavePubkeyData pubKey _ => Some pubKey | _ => None end) tr.

(** ** [GetHeartbeats] *)

(** [sort.Slice(x, less)].  The library's algorithm is not reproduced: any
    algorithm that sorts returns the same slice when no two elements are
    equivalent under [less], as the entries of a snapshot are. *)
Definition notAfter {A} (less : A → A → bool) : relation A :=
  λ a b, less b a = false.

Global Instance notAfter_dec {A} (less : A → A → bool) a b : Decision (notAfter less a b).
Proof. unfold notAfter. apply _. Defined.

Definition sort_Slice {A} (less : A → A → bool) (x : list A) : list A :=
  merge_sort (notAfter less) x.

Definition lessHexPublicKey (a b : PubKeyHeartbeat) : bool :=
  bool_decide (strings_Compare a.(HexPublicKey) b.(HexPublicKey) < 0).

(** [a] comes before [b] in the ascending order of the hex-encoded keys. *)
Definition ascendingHex (a b : PubKeyHeartbeat) : Prop :=
  strings_Compare a.(HexPublicKey) b.(HexPublicKey) < 0.

(** The entry of a snapshot for the record [v] of key [k]. *)
Definition toPubKeyHeartbeat (k : string) (v : heartbeatMessageInfo) : PubKeyHeartbeat :=
  {| HexPublicKey := hex_EncodeToString k;
     pkh_TimeStamp := v.(timeStamp);
     pkh_MaxInactiveTime := v.(maxInactiveTime);
     pkh_IsActive := v.(isActive);
     pkh_ReceivedShardID := v.(receivedShardID);
     pkh_ComputedShardID := v.(computedShardID);
     pkh_TotalUpTime := int64_of_float64 (Seconds v.(totalUpTime));
     pkh_TotalDownTime := int64_of_float64 (Seconds v.(totalDownTime));
     pkh_VersionNumber := v.(versionNumber);
     pkh_NodeDisplayName := v.(nodeDisplayName);
     pkh_PeerType := v.(peerType) |}.

(** [order1] is the order of the range in [computeAllHeartbeatMessages],
    [order2] the order of the range that fills [status]. *)
Definition GetHeartbeats (order1 order2 : list string) : M (list PubKeyHeartbeat) :=
  computeAllHeartbeatMessages order1 ;;
  m <- getMon ;;
  let status := (λ kv, toPubKeyHeartbeat kv.1 kv.2) <$> range m.(heartbeatMessages) order2 in
  ret (sort_Slice lessHexPublicKey status).

(** ** Where the records come from *)

(** The key is in the role assignment given to [NewMonitor]. *)
Definition inInitialAssignment (pubKeysMap : gmap Z (list string)) (pubKey : string) : Prop :=
  ∃ shardId pubKeys, pubKeysMap !! shardId = Some pubKeys ∧ pubKey ∈ pubKeys.

(** The asynchronous update for a heartbeat of the key has begun. *)
Definition heartbeatReceived (tr : list Event) (pubKey : string) : Prop :=
  EvHeartbeat pubKey ∈ tr.

(** The key is in the list of known peers that was loaded from storage,
    and so is its record. *)
Definition foundInStorage (tr : list Event) (pubKey : string) : Prop :=
  EvLoadHbmiDTO pubKey true ∈ tr ∧
  ∃ peersSlice, EvLoadKeys (Some peersSlice) ∈ tr ∧ pubKey ∈ peersSlice.

(** The event records a load from storage. *)
Definition isLoad (ev : Event) : Prop :=
  match ev with
  | EvLoadHbmiDTO _ _ | EvLoadKeys _ => True
  | _ => False
  end.

(** What [NewMonitor] sets once and for all. *)
Definition sameConfiguration (m m' : Monitor) : Prop :=
  m'.(mon_maxDurationPeerUnresponsive) = m.(mon_maxDurationPeerUnresponsive) ∧
  m'.(mon_genesisTime) = m.(mon_genesisTime) ∧
  m'.(pubKeysMap) = m.(pubKeysMap) ∧
  m'.(marshalizer) = m.(marshalizer) ∧
  m'.(peerTypeProvider) = m.(peerTypeProvider) ∧
  m'.(messageHandler) = m.(messageHandler) ∧
  m'.(storer) = m.(storer) ∧
  m'.(timer) = m.(timer) ∧
  m'.(antifloodHandler) = m.(antifloodHandler).

(** [newHeartbeatMessageInfo] accepts the configuration of the monitor,
    whatever the role. *)
Definition constructorAccepts (m : Monitor) : Prop :=
  ∀ peerType,
    checkNewHeartbeatMessageInfo m.(mon_maxDurationPeerUnresponsive) peerType
      m.(mon_genesisTime) = None.

(** What a step from [w] to [w'] does to the records, to the slice of
    known peers and to the trace: [evs] are the events it adds. *)
Definition stepEffect (w w' : World) (evs : list Event) : Prop :=
  let m := w.(mon).(heartbeatMessages) in
  let m' := w'.(mon).(heartbeatMessages) in
  let peers := w.(mon).(fullPeersSlice) in
  let peers' := w'.(mon).(fullPeersSlice) in
  sameConfiguration w.(mon) w'.(mon) ∧
  w'.(trace) = w.(trace) ++ evs ∧
  Forall (λ ev, ¬ isLoad ev) evs ∧
  (∀ k, is_Some (m !! k) → is_Some (m' !! k)) ∧
  (∀ k, is_Some (m' !! k) → is_Some (m !! k) ∨ EvHeartbeat k ∈ evs) ∧
  (constructorAccepts w.(mon) → ∀ k, EvHeartbeat k ∈ evs → is_Some (m' !! k)) ∧
  ((peers' = peers ∧ ∀ peersSlice, EvSaveKeys peersSlice ∉ evs) ∨
   (∃ pubKey, (pubKey ∉ peers) ∧ peers' = peers ++ [pubKey] ∧
              ∃ evs0, evs = evs0 ++ [EvSaveKeys peers'] ∧
                      ∀ peersSlice, EvSaveKeys peersSlice ∉ evs0)).

(** ** The scheduler *)

(** One step of a goroutine: a lock scope of [addHeartbeatMessageToMap], or
    one of the two other functions as a whole. *)
Definition runTask (t : Task) (order : list string) : M unit :=
  match t with
  | GoAddHeartbeatMessageToMap hb =>
      found <- addHeartbeatMessageToMap_lookup hb ;;
      if found : bool then go (GoAddHeartbeatUpdateRecord hb) else ret tt
  | GoAddHeartbeatUpdateRecord hb =>
      addHeartbeatMessageToMap_update hb ;;
      go (GoAddPeerToFullPeersSlice hb.(Pubkey))
  | GoAddPeerToFullPeersSlice pubKey => addPeerToFullPeersSlice pubKey
  | GoComputeAllHeartbeatMessages => computeAllHeartbeatMessages order
  | GoSaveMultipleHeartbeatMessageInfos _ => SaveMultipleHeartbeatMessageInfos order
  end.

(** The orders in which a task may range over its map. *)
Definition task_order (w : World) (t : Task) (order : list string) : Prop :=
  match t with
  | GoComputeAllHeartbeatMessages => iteration_order w.(mon).(heartbeatMessages) order
  | GoSaveMultipleHeartbeatMessageInfos pubKeysToSave => order ≡ₚ elements pubKeysToSave
  | _ => True
  end.

(** What can happen to a constructed monitor: a call of one of its
    exported methods, a step of one of its goroutines, or a change of the
    world outside. *)
Inductive step : World → World → Prop :=
  | step_ProcessReceivedMessage w message fromConnectedPeer :
      step w (ProcessReceivedMessage message fromConnectedPeer w).2
  | step_GetHeartbeats w order1 order2 :
      iteration_order w.(mon).(heartbeatMessages) order1 →
      iteration_order (computeAllHeartbeatMessages order1 w).2.(mon).(heartbeatMessages) order2 →
      step w (GetHeartbeats order1 order2 w).2
  | step_SetAppStatusHandler w ash :
      step w (SetAppStatusHandler ash w).2
  | step_goroutine w i t order :
      w.(pool) !! i = Some t →
      task_order w t order →
      step w (runTask t order (set_pool (delete i w.(pool)) w)).2
  | step_outside w e :
      step w (set_ext e w).

(** The worlds a monitor goes through after [NewMonitor] returned it in
    the world [w0]. *)
Definition reachable (w0 w : World) : Prop := rtc step w0 w.

(** ** The copy of the role assignment

    [pubKeysMapCopy[shardId] = append(pubKeysMapCopy[shardId], pubkey)]:
    what [initializeHeartBeatForPK] does to the copy for one key. *)
Definition appendKey (pubKeysMapCopy : gmap Z (list string)) (sk : Z * string) :
    gmap Z (list string) :=
  <[sk.1 := default [] (pubKeysMapCopy !! sk.1) ++ [sk.2]]> pubKeysMapCopy.

(** ** The order of a snapshot

    [a] comes before [b] in the ascending order of the public keys
    themselves, as [strings.Compare] orders them. *)
Definition ascendingKey (a b : string * heartbeatMessageInfo) : Prop :=
  strings_Compare a.1 b.1 < 0.

(** ** The known peers and the heartbeats

    What a goroutine of the pool still has to do for a heartbeat is for a
    key whose heartbeat has been taken in. *)
Definition heardBy (tr : list Event) (t : Task) : Prop :=
  match t with
  | GoAddHeartbeatUpdateRecord hb => heartbeatReceived tr hb.(Pubkey)
  | GoAddPeerToFullPeersSlice pubKey => heartbeatReceived tr pubKey
  | _ => True
  end.

(** The known peers, those of the slice and those of every list that was
    saved, are keys whose heartbeat has been taken in. *)
Definition knownPeersHeard (w : World) : Prop :=
  Forall (heardBy w.(trace)) w.(pool) ∧
  (∀ k, k ∈ w.(mon).(fullPeersSlice) → heartbeatReceived w.(trace) k) ∧
  (∀ peersSlice k, EvSaveKeys peersSlice ∈ w.(trace) → k ∈ peersSlice →
                   heartbeatReceived w.(trace) k).

End Operations.

(** ** A small instance

    An in-memory store, a clock that the world outside sets, a gate that
    turns away two named peers and a decoder that rejects an empty payload:
    the collaborators of the package's own tests, used below to run the
    operations on concrete inputs. *)
Module Demo.

Record state := {
  clock : Time;
  db : gmap string HeartbeatDTO;
  dbKeys : option (list string);
}.

Definition outside : Outside :=
  {| Ext := state;
     Marshalizer := unit;
     isValidatorPeerType := λ peerType,
       bool_decide (peerType = "eligible") || bool_decide (peerType = "waiting");
     checkNewHeartbeatMessageInfo := λ maxDurationPeerUnresponsive _ _,
       if bool_decide (maxDurationPeerUnresponsive = 0)
       then Some (ErrCollaborator "invalid max duration") else None |}.

Definition demoTimer : @Timer outside :=
  @Build_Timer outside (λ e : state, (e.(clock), e)).

Definition demoStorer : @HeartbeatStorageHandler outside :=
  @Build_HeartbeatStorageHandler outside
    (* UpdateGenesisTime *)
    (λ _ (e : state), (None, e))
    (* LoadHbmiDTO *)
    (λ pubKey (e : state),
       (match e.(db) !! pubKey with
        | Some hbDTO => inr hbDTO
        | None => inl (ErrCollaborator "key not found")
        end, e))
    (* SavePubkeyData *)
    (λ pubKey hbDTO (e : state),
       (None, {| clock := e.(clock); db := <[pubKey := hbDTO]> e.(db);
                 dbKeys := e.(dbKeys) |}))
    (* LoadKeys *)
    (λ e : state,
       (match e.(dbKeys) with
        | Some keys => inr keys
        | None => inl (ErrCollaborator "no keys")
        end, e))
    (* SaveKeys *)
    (λ keys (e : state),
       (None, {| clock := e.(clock); db := e.(db); dbKeys := Some keys |})).

Definition demoPeerTypeProvider : @PeerTypeProviderHandler outside :=
  @Build_PeerTypeProviderHandler outside
    (λ pubKey (e : state),
       (if bool_decide (pubKey = "A") then inr ("eligible", 0)
        else inl (ErrCollaborator "unknown key"), e))
    (λ pubKey _ (e : state),
       (if bool_decide (pubKey = "A") then inr "eligible"
        else inl (ErrCollaborator "unknown key"), e)).

Definition demoAntiflood : @P2PAntifloodHandler outside :=
  @Build_P2PAntifloodHandler outside
    (λ _ peer (e : state),
       (if bool_decide (peer = "flooder")
        then Some (ErrCollaborator "system busy") else None, e))
    (λ peer _ (e : state),
       (if bool_decide (peer = "topic flooder")
        then Some (ErrCollaborator "topic busy") else None, e)).

Definition demoMessageHandler : @MessageHandler outside :=
  @Build_MessageHandler outside
    (λ message (e : state),
       (match message.(Data) with
        | Some (String c rest) =>
            inr {| Pubkey := String c rest; ShardID := 0;
                   VersionNumber := "v1"; NodeDisplayName := "node" |}
        | _ => inl (ErrCollaborator "cannot decode")
        end, e)).

Definition ext0 : state := {| clock := 100 * Second; db := ∅; dbKeys := None |}.

(** A record persisted by an earlier run: active, credited up to the
    instant 40 s. *)
Definition persistedA : HeartbeatDTO :=
  {| dto_MaxInactiveTime := 10 * Second;
     dto_TotalUpTime := 30 * Second;
     dto_TotalDownTime := 10 * Second;
     dto_TimeStamp := 39 * Second;
     dto_IsActive := true;
     dto_ReceivedShardID := 0;
     dto_ComputedShardID := 0;
     dto_VersionNumber := "v1";
     dto_NodeDisplayName := "node";
     dto_PeerType := "eligible";
     dto_LastUptimeDowntime := 40 * Second;
     dto_GenesisTime := 0 |}.

(** A record persisted by an earlier run for a peer that is no longer in
    the role assignment: inactive since the instant 40 s. *)
Definition persistedC : HeartbeatDTO :=
  {| dto_MaxInactiveTime := 10 * Second;
     dto_TotalUpTime := 5 * Second;
     dto_TotalDownTime := 35 * Second;
     dto_TimeStamp := 5 * Second;
     dto_IsActive := false;
     dto_ReceivedShardID := 1;
     dto_ComputedShardID := 1;
     dto_VersionNumber := "v1";
     dto_NodeDisplayName := "old node";
     dto_PeerType := "observer";
     dto_LastUptimeDowntime := 40 * Second;
     dto_GenesisTime := 0 |}.

Definition ext1 : state :=
  {| clock := 100 * Second;
     db := {[ "A" := persistedA; "C" := persistedC ]};
     dbKeys := Some ["A"; "C"; "D"] |}.

(** A record of a peer that was up for 16777216.999999999 seconds, a
    little over 194 days. *)
Definition persistedLongUp : HeartbeatDTO :=
  {| dto_MaxInactiveTime := 10 * Second;
     dto_TotalUpTime := 16777216 * Second + 999999999;
     dto_TotalDownTime := 0;
     dto_TimeStamp := 39 * Second;
     dto_IsActive := false;
     dto_ReceivedShardID := 0;
     dto_ComputedShardID := 0;
     dto_VersionNumber := "v1";
     dto_NodeDisplayName := "node";
     dto_PeerType := "eligible";
     dto_LastUptimeDowntime := 40 * Second;
     dto_GenesisTime := 0 |}.

Definition ext2 : state :=
  {| clock := 100 * Second; db := {[ "A" := persistedLongUp ]}; dbKeys := None |}.

(** [NewMonitor] with the role assignment [{shard 0: ["A"]}]. *)
Definition newDemo (e : state) :=
  @NewMonitor outside (Some tt) (10 * Second) {[ 0 := ["A"] ]} 0
    (Some demoMessageHandler) (Some demoStorer) (Some demoPeerTypeProvider)
    (Some demoTimer) (Some demoAntiflood) [0] e.

(** The monitor as [NewMonitor] builds it before it initializes it. *)
Definition monitor0 : @Monitor outside :=
  {| marshalizer := (tt : @Marshalizer outside);
     heartbeatMessages := ∅;
     peerTypeProvider := demoPeerTypeProvider;
     mon_maxDurationPeerUnresponsive := 10 * Second;
     appStatusHandler := NilStatusHandler;
     mon_genesisTime := 0;
     messageHandler := demoMessageHandler;
     storer := demoStorer;
     timer := demoTimer;
     antifloodHandler := demoAntiflood;
     pubKeysMap := ∅;
     fullPeersSlice := [] |}.

Definition world0 (e : state) : @World outside :=
  {| mon := monitor0; ext := e; trace := []; pool := [] |}.

Definition worldOf (r : option (@Monitor outside) * option Error *
                        (state * list Event * list Task)) : option (@World outside) :=
  match r with
  | (Some m, _, (e, tr, pl)) => Some {| mon := m; ext := e; trace := tr; pool := pl |}
  | _ => None
  end.

(** A record created fresh by a monitor whose genesis time is the zero
    [time.Time]. *)
Definition recordAtZeroTime : @heartbeatMessageInfo outside :=
  {| maxDurationPeerUnresponsive := 10 * Second;
     maxInactiveTime := 10 * Second;
     totalUpTime := 0;
     totalDownTime := 0;
     getTimeHandler := Some demoTimer.(Now);
     timeStamp := zeroTime;
     isActive := false;
     receivedShardID := 0;
     computedShardID := 0;
     versionNumber := "";
     nodeDisplayName := "";
     peerType := "observer";
     lastUptimeDowntime := zeroTime;
     genesisTime := zeroTime |}.

(** The world in which [NewMonitor] leaves the monitor it returns, when
    it starts from the external state [e]. *)
Definition constructed (e : state) : @World outside :=
  default (world0 e) (worldOf (newDemo e)).

(** The monitor constructed from [ext1], 100 s later. *)
Definition later : @World outside :=
  @set_ext outside
    ({| clock := 200 * Second; db := ext1.(db); dbKeys := ext1.(dbKeys) |} : state)
    (constructed ext1).

Definition message (data : string) : MessageP2P :=
  {| From := "peer"; Data := Some data; Topics := [HeartbeatTopic] |}.

(** The heartbeat that [demoMessageHandler] decodes from [message "B"]. *)
Definition heartbeatB : Heartbeat :=
  {| Pubkey := "B"; ShardID := 0; VersionNumber := "v1"; NodeDisplayName := "node" |}.

(** A run: the monitor constructed from [ext1] receives a heartbeat of
    the unseen key "B", and the goroutine that adds it goes through its
    three lock scopes. *)
Definition received : @World outside :=
  (ProcessReceivedMessage (Some (message "B")) "peer" (constructed ext1)).2.

Definition afterLookup : @World outside :=
  (runTask (GoAddHeartbeatMessageToMap heartbeatB) []
     (set_pool (delete 1%nat received.(pool)) received)).2.

Definition afterUpdate : @World outside :=
  (runTask (GoAddHeartbeatUpdateRecord heartbeatB) []
     (set_pool (delete 2%nat afterLookup.(pool)) afterLookup)).2.

Definition afterRegister : @World outside :=
  (runTask (GoAddPeerToFullPeersSlice "B") []
     (set_pool (delete 2%nat afterUpdate.(pool)) afterUpdate)).2.

(** [NewMonitor] with a threshold of zero, which the
    [checkNewHeartbeatMessageInfo] of this instance refuses. *)
Definition newStrict (e : state) :=
  @NewMonitor outside (Some tt) 0 {[ 0 := ["A"] ]} 0
    (Some demoMessageHandler) (Some demoStorer) (Some demoPeerTypeProvider)
    (Some demoTimer) (Some demoAntiflood) [0] e.

(** The monitor with the threshold of zero, constructed from [ext1], where
    storage has the record of "A". *)
Definition strict : @World outside :=
  default (world0 ext1) (worldOf (newStrict ext1)).

End Demo.

(** * Properties *)

Section Properties.
Context `{Outside}.

Ltac unfold_M :=
  unfold bind, ret, getMon, updMon, call, emit, go in *; simpl in *.

(** ** Arithmetic of the machine types *)

Lemma wrap64_in_int64 x : in_int64 x → wrap64 x = x.
Proof.
  unfold in_int64, wrap64, int64_min, int64_max. intros Hx.
  rewrite Z.mod_small; lia.
Qed.

Lemma time_Unix_0 nsec : time_Unix 0 nsec = nsec.
Proof. unfold time_Unix. lia. Qed.




(** ** The persisted layout *)

Lemma UnixNano_round_trip t : in_int64 t → time_Unix 0 (UnixNano t) = t.
Proof. intros Ht. unfold UnixNano. by rewrite time_Unix_0, wrap64_in_int64. Qed.

(** C6 (as amended).  For every record whose three instants (the time of
    the last heartbeat, the accounting watermark and the genesis time) lie
    in the range that [UnixNano] represents, [convertToExportedStruct]
    followed by [convertFromExportedStruct] with the same threshold gives a
    record with the same value in every persisted field: isActive,
    receivedShardID, computedShardID, versionNumber, nodeDisplayName,
    peerType, timeStamp, maxInactiveTime, totalUpTime, totalDownTime,
    lastUptimeDowntime, genesisTime. *)
Theorem C6_round_trip_in_UnixNano_range (v : heartbeatMessageInfo) :
  in_int64 v.(timeStamp) →
  in_int64 v.(lastUptimeDowntime) →
  in_int64 v.(genesisTime) →
  samePersistedFields v
    (convertFromExportedStruct (convertToExportedStruct v) v.(maxDurationPeerUnresponsive)).
Proof.
  intros Hts Hlast Hgen. unfold samePersistedFields; simpl.
  rewrite !UnixNano_round_trip by done. unfold Nanoseconds. by repeat split.
Qed.

(** ** [loadHbmiFromStorer] *)

Lemma loadHbmiFromStorer_found w pubKey hbmiDTO e1 t1 e2 :
  w.(mon).(storer).(LoadHbmiDTO) pubKey w.(ext) = (inr hbmiDTO, e1) →
  w.(mon).(timer).(Now) e1 = (t1, e2) →
  let delta := maxDuration 0 (Time_Sub t1 (time_Unix 0 hbmiDTO.(dto_LastUptimeDowntime))) in
  ∃ r, (loadHbmiFromStorer pubKey w).1 = inr r ∧
    r.(isActive) = hbmiDTO.(dto_IsActive) ∧
    r.(maxInactiveTime) = hbmiDTO.(dto_MaxInactiveTime) ∧
    r.(lastUptimeDowntime) = t1 ∧
    r.(genesisTime) = w.(mon).(mon_genesisTime) ∧
    r.(timeStamp) =
      (if hbmiDTO.(dto_IsActive) then t1 else time_Unix 0 hbmiDTO.(dto_TimeStamp)) ∧
    r.(totalUpTime) =
      (if hbmiDTO.(dto_IsActive) then Duration_add hbmiDTO.(dto_TotalUpTime) delta
       else hbmiDTO.(dto_TotalUpTime)) ∧
    r.(totalDownTime) =
      (if hbmiDTO.(dto_IsActive) then hbmiDTO.(dto_TotalDownTime)
       else Duration_add hbmiDTO.(dto_TotalDownTime) delta).
Proof.
  intros Hload Hnow. unfold loadHbmiFromStorer, computePeerType. unfold_M.
  rewrite Hload; simpl. rewrite Hnow; simpl.
  match goal with |- context [ComputeForPubKeyInShard ?p ?k ?s ?e] =>
    destruct (ComputeForPubKeyInShard p k s e) as [[err|peerType] e3] end; simpl;
    (eexists; split; [reflexivity|]);
    destruct (dto_IsActive hbmiDTO) eqn:Ha; simpl; rewrite ?Ha; done.
Qed.

Lemma loadHbmiFromStorer_frame pubKey w :
  let r := loadHbmiFromStorer pubKey w in
  r.2.(mon) = w.(mon) ∧ r.2.(pool) = w.(pool) ∧
  r.2.(trace) = w.(trace) ++ [EvLoadHbmiDTO pubKey (bool_decide (is_inr r.1))].
Proof.
  unfold loadHbmiFromStorer, computePeerType. unfold_M.
  destruct (LoadHbmiDTO _ _ _) as [[err|hbmiDTO] e1]; simpl; [done|].
  destruct (Now _ _) as [t1 e2]; simpl.
  match goal with |- context [ComputeForPubKeyInShard ?p ?k ?s ?e] =>
    destruct (ComputeForPubKeyInShard p k s e) as [[err|peerType] e3] end; simpl; done.
Qed.


(** C10.  A persisted record whose isActive flag is true comes back from a
    reload at [t1] with its timeStamp at [t1], so that an evaluation at any
    instant less than maxInactiveTime after [t1] finds it active; a record
    whose flag is false comes back with its persisted timeStamp. *)
Theorem C10_reload_resets_timeStamp_of_active w pubKey hbmiDTO e1 t1 e2 :
  w.(mon).(storer).(LoadHbmiDTO) pubKey w.(ext) = (inr hbmiDTO, e1) →
  w.(mon).(timer).(Now) e1 = (t1, e2) →
  ∃ r, (loadHbmiFromStorer pubKey w).1 = inr r ∧
    (hbmiDTO.(dto_IsActive) = true →
       r.(timeStamp) = t1 ∧
       ∀ now, Time_Sub now t1 < r.(maxInactiveTime) →
              GetIsActive (ComputeActive now r) = true) ∧
    (hbmiDTO.(dto_IsActive) = false →
       r.(timeStamp) = time_Unix 0 hbmiDTO.(dto_TimeStamp)).
Proof.
  intros Hload Hnow.
  destruct (loadHbmiFromStorer_found _ _ _ _ _ _ Hload Hnow)
    as (r & Hr & Hact & _ & _ & _ & Hts & _).
  exists r. split; [done|]. split; intros Ha; rewrite Ha in Hts.
  - split; [done|]. intros now Hnow'.
    unfold GetIsActive, ComputeActive. rewrite Hts.
    destruct (isActive r); simpl; by apply bool_decide_eq_true.
  - done.
Qed.

(** ** [ProcessReceivedMessage] *)

(** C1.  [ProcessReceivedMessage] returns [ErrNilMessage] for a nil
    message and [ErrNilDataToProcess] for a nil payload; the error of the
    first gate check that rejects (the one per peer, then the one scoped to
    the heartbeat topic), as the gate gave it; the error of the decoder, as
    the decoder gave it.  In each of these cases the monitor, its records
    included, is as it was, no goroutine was started and nothing was
    persisted or published: at most the state behind the collaborators
    that were called has changed.  In the remaining case it returns nil,
    having started the update of the sender's record and an aggregation
    pass. *)
Theorem C1_ProcessReceivedMessage_outcomes w message fromConnectedPeer :
  let r := ProcessReceivedMessage message fromConnectedPeer w in
  let gate := w.(mon).(antifloodHandler) in
  let decoder := w.(mon).(messageHandler) in
  (message = None → r = (Some ErrNilMessage, w)) ∧
  (∀ msg, message = Some msg → msg.(Data) = None →
     r = (Some ErrNilDataToProcess, w)) ∧
  (∀ msg, message = Some msg → is_Some msg.(Data) →
     (∀ err e1,
        gate.(CanProcessMessage) msg fromConnectedPeer w.(ext) = (Some err, e1) →
        r = (Some err, set_ext e1 w) ∧ r.2.(mon) = w.(mon) ∧
        r.2.(pool) = w.(pool) ∧ r.2.(trace) = w.(trace)) ∧
     (∀ err e1 e2,
        gate.(CanProcessMessage) msg fromConnectedPeer w.(ext) = (None, e1) →
        gate.(CanProcessMessageOnTopic) fromConnectedPeer HeartbeatTopic e1 = (Some err, e2) →
        r = (Some err, set_ext e2 w) ∧ r.2.(mon) = w.(mon) ∧
        r.2.(pool) = w.(pool) ∧ r.2.(trace) = w.(trace)) ∧
     (∀ err e1 e2 e3,
        gate.(CanProcessMessage) msg fromConnectedPeer w.(ext) = (None, e1) →
        gate.(CanProcessMessageOnTopic) fromConnectedPeer HeartbeatTopic e1 = (None, e2) →
        decoder.(CreateHeartbeatFromP2PMessage) msg e2 = (inl err, e3) →
        r = (Some err, set_ext e3 w) ∧ r.2.(mon) = w.(mon) ∧
        r.2.(pool) = w.(pool) ∧ r.2.(trace) = w.(trace)) ∧
     (∀ hbRecv e1 e2 e3,
        gate.(CanProcessMessage) msg fromConnectedPeer w.(ext) = (None, e1) →
        gate.(CanProcessMessageOnTopic) fromConnectedPeer HeartbeatTopic e1 = (None, e2) →
        decoder.(CreateHeartbeatFromP2PMessage) msg e2 = (inr hbRecv, e3) →
        r.1 = None ∧ r.2.(mon) = w.(mon) ∧ r.2.(trace) = w.(trace) ∧
        r.2.(pool) =
          w.(pool) ++ [GoAddHeartbeatMessageToMap hbRecv; GoComputeAllHeartbeatMessages])).
Proof.
  intros r gate decoder. subst r gate decoder. split_and!.
  - by intros ->.
  - intros msg -> Hdata. simpl. by rewrite Hdata.
  - intros msg -> [data Hdata]. simpl. rewrite Hdata. split_and!.
    + intros err e1 Hg1. unfold_M. by rewrite Hg1.
    + intros err e1 e2 Hg1 Hg2. unfold_M. rewrite Hg1; simpl. by rewrite Hg2.
    + intros err e1 e2 e3 Hg1 Hg2 Hd. unfold_M.
      rewrite Hg1; simpl. rewrite Hg2; simpl. by rewrite Hd.
    + intros hbRecv e1 e2 e3 Hg1 Hg2 Hd. unfold_M.
      rewrite Hg1; simpl. rewrite Hg2; simpl. rewrite Hd; simpl.
      by rewrite <-app_assoc.
Qed.

(** ** [NewMonitor] *)

(** C3.  [NewMonitor] returns an error and no monitor when the
    marshalizer, the peer type provider, the message handler, the storer,
    the timer or the antiflood handler is nil, or when the map of public
    keys is empty; it returns a monitor only when none of these is the
    case, and then no error.  It never returns both or neither. *)
Theorem C3_NewMonitor_checks_its_arguments
    marshalizer maxDurationPeerUnresponsive pubKeysMap genesisTime
    messageHandler storer peerTypeProvider timer antifloodHandler order e :
  let r := NewMonitor marshalizer maxDurationPeerUnresponsive pubKeysMap genesisTime
             messageHandler storer peerTypeProvider timer antifloodHandler order e in
  (marshalizer = None ∨ peerTypeProvider = None ∨ pubKeysMap = ∅ ∨
   messageHandler = None ∨ storer = None ∨ timer = None ∨ antifloodHandler = None →
     r.1.1 = None ∧ is_Some r.1.2) ∧
  (is_Some r.1.1 →
     is_Some marshalizer ∧ is_Some peerTypeProvider ∧ pubKeysMap ≠ ∅ ∧
     is_Some messageHandler ∧ is_Some storer ∧ is_Some timer ∧
     is_Some antifloodHandler ∧ r.1.2 = None) ∧
  (r.1.1 = None ↔ is_Some r.1.2).
Proof.
  intros r. subst r. unfold NewMonitor.
  assert (Hfail : ∀ (P Q : Prop) (err : Error) (x : Ext * list Event * list Task),
            let r := (@None Monitor, Some err, x) in
            (P → r.1.1 = None ∧ is_Some r.1.2) ∧
            (is_Some r.1.1 → Q) ∧
            (r.1.1 = None ↔ is_Some r.1.2)).
  { intros P Q err x. simpl. split_and!; [by eauto|by intros [? [=]]|by eauto]. }
  destruct marshalizer as [marshalizer|]; [|apply Hfail].
  destruct peerTypeProvider as [peerTypeProvider|]; [|apply Hfail].
  case_bool_decide as Hsize; [apply Hfail|].
  rewrite map_size_empty_iff in Hsize.
  destruct messageHandler as [messageHandler|]; [|apply Hfail].
  destruct storer as [storer|]; [|apply Hfail].
  destruct timer as [timer|]; [|apply Hfail].
  destruct antifloodHandler as [antifloodHandler|]; [|apply Hfail].
  match goal with |- context [let '(err, w) := ?b in _] => destruct b as [[err|] w'] end;
    [apply Hfail|].
  simpl. split_and!.
  - by intros [?|[?|[?|[?|[?|[?|?]]]]]].
  - intros _. by split_and!.
  - split; [done|by intros [? [=]]].
Qed.

(** ** Ranging over a map *)

Lemma elem_of_map_keys {K V} `{Countable K} (m : gmap K V) k :
  k ∈ (map_to_list m).*1 ↔ is_Some (m !! k).
Proof.
  rewrite list_elem_of_fmap. split.
  - intros ([k' v] & -> & Hin). apply elem_of_map_to_list in Hin. by eexists.
  - intros [v Hv]. exists (k, v). split; [done|]. by apply elem_of_map_to_list.
Qed.

Lemma iteration_order_NoDup {K V} `{Countable K} (m : gmap K V) order :
  iteration_order m order → NoDup order.
Proof. intros ->. apply NoDup_fst_map_to_list. Qed.

Lemma iteration_order_elem_of {K V} `{Countable K} (m : gmap K V) order k :
  iteration_order m order → k ∈ order ↔ is_Some (m !! k).
Proof. intros ->. apply elem_of_map_keys. Qed.

Lemma iteration_order_same_keys {K V} `{Countable K} (m m' : gmap K V) order :
  (∀ k, is_Some (m' !! k) ↔ is_Some (m !! k)) →
  iteration_order m order → iteration_order m' order.
Proof.
  intros Hdom Horder. unfold iteration_order in *. rewrite Horder.
  apply NoDup_Permutation; [apply NoDup_fst_map_to_list..|].
  intros k. by rewrite !elem_of_map_keys.
Qed.

Lemma range_map_to_list {K V} `{Countable K} (m : gmap K V) (l : list (K * V)) :
  (∀ k v, (k, v) ∈ l → m !! k = Some v) →
  range m l.*1 = l.
Proof.
  unfold range. induction l as [|[k v] l IH]; intros Hl; [done|]. simpl.
  rewrite (Hl k v) by left. simpl. f_equal. apply IH.
  intros k' v' Hin. apply Hl. by right.
Qed.

Lemma range_iteration_order {K V} `{Countable K} (m : gmap K V) order :
  iteration_order m order → range m order ≡ₚ map_to_list m.
Proof.
  intros Horder. unfold range. rewrite Horder.
  fold (range m (map_to_list m).*1). rewrite range_map_to_list; [done|].
  intros k v. apply elem_of_map_to_list.
Qed.

(** ** The aggregation pass *)

(** What one turn of the range loop of [computeAllHeartbeatMessages] does
    to the tally. *)
Lemma computeAllLoop_cons key order acc w :
  computeAllLoop (key :: order) acc w =
  match w.(mon).(heartbeatMessages) !! key with
  | None => computeAllLoop order acc w
  | Some v =>
      let now := (w.(mon).(timer).(Now) w.(ext)).1 in
      let e := (w.(mon).(timer).(Now) w.(ext)).2 in
      let v' := ComputeActive now v in
      computeAllLoop order
        {| counterActiveValidators :=
             if GetIsActive v' && GetIsValidator v' then acc.(counterActiveValidators) + 1
             else acc.(counterActiveValidators);
           counterConnectedNodes :=
             if GetIsActive v' then acc.(counterConnectedNodes) + 1
             else acc.(counterConnectedNodes);
           hbChangedStateToInactiveMap :=
             if GetIsActive v && negb (GetIsActive v')
             then acc.(hbChangedStateToInactiveMap) ∪ {[key]}
             else acc.(hbChangedStateToInactiveMap) |}
        (set_mon (set_heartbeatMessages (<[key := v']> w.(mon).(heartbeatMessages)) w.(mon))
           (set_ext e w))
  end.
Proof.
  simpl. unfold_M. destruct (heartbeatMessages (mon w) !! key) as [v|]; [|done].
  by destruct (Now (timer (mon w)) (ext w)) as [now e].
Qed.

Lemma World_eta (w : World) :
  w = set_ext w.(ext) (set_mon (set_heartbeatMessages w.(mon).(heartbeatMessages) w.(mon)) w).
Proof. by destruct w as [[] ? ? ?]. Qed.

(** The loop changes the records and the world outside, nothing else. *)
Lemma computeAllLoop_frame order acc w :
  let r := computeAllLoop order acc w in
  r.2 = set_ext r.2.(ext)
          (set_mon (set_heartbeatMessages r.2.(mon).(heartbeatMessages) w.(mon)) w).
Proof.
  revert acc w. induction order as [|key order IH]; intros acc w.
  - simpl. apply World_eta.
  - rewrite computeAllLoop_cons.
    destruct (heartbeatMessages (mon w) !! key) as [v|]; [|apply IH].
    simpl. match goal with |- context [computeAllLoop order ?a ?w'] =>
      specialize (IH a w'); destruct (computeAllLoop order a w') as [acc' w''] end.
    simpl in *. by rewrite IH at 1.
Qed.

(** The records after the loop: those of the keys visited have gone
    through [ComputeActive] once, the others are untouched. *)
Lemma computeAllLoop_records order acc w :
  NoDup order →
  let m0 := w.(mon).(heartbeatMessages) in
  let m1 := (computeAllLoop order acc w).2.(mon).(heartbeatMessages) in
  ∀ k,
    (k ∉ order → m1 !! k = m0 !! k) ∧
    (k ∈ order → ∃ now, m1 !! k = ComputeActive now <$> m0 !! k).
Proof.
  intros Hnodup. revert acc w.
  induction Hnodup as [|key order Hkey Hnodup IH]; intros acc w m0 m1 k.
  - split; [done|]. by intros ?%elem_of_nil.
  - subst m0 m1. rewrite computeAllLoop_cons.
    destruct (heartbeatMessages (mon w) !! key) as [v|] eqn:Hv.
    + simpl. match goal with |- context [computeAllLoop order ?a ?w'] =>
        specialize (IH a w'); simpl in IH end.
      destruct (decide (k = key)) as [->|Hne].
      * split; [intros Hnot; contradict Hnot; left|]. intros _.
        destruct (IH key) as [IH1 _]. rewrite IH1 by done.
        rewrite lookup_insert_eq, Hv. by eexists.
      * destruct (IH k) as [IH1 IH2]. rewrite lookup_insert_ne in IH1, IH2 by done.
        split.
        -- intros Hnot. apply IH1. contradict Hnot. by right.
        -- intros [?|Hin]%elem_of_cons; [done|]. by apply IH2.
    + destruct (IH acc w k) as [IH1 IH2]. destruct (decide (k = key)) as [->|Hne].
      * split; [intros Hnot; contradict Hnot; left|]. intros _.
        rewrite IH1, Hv by done. by exists 0.
      * split.
        -- intros Hnot. apply IH1. contradict Hnot. by right.
        -- intros [?|Hin]%elem_of_cons; [done|]. by apply IH2.
Qed.

#[local] Arguments ComputeActive : simpl never.
#[local] Arguments GetIsActive : simpl never.
#[local] Arguments GetIsValidator : simpl never.
#[local] Arguments range : simpl never.

Lemma range_cons {K V} `{Countable K} (m : gmap K V) k order :
  range m (k :: order) =
  match m !! k with Some v => (k, v) :: range m order | None => range m order end.
Proof. unfold range. simpl. by destruct (m !! k). Qed.

(** The tally after the loop, in terms of the records before and after
    it. *)
Lemma computeAllLoop_tally order acc w :
  NoDup order →
  let r := computeAllLoop order acc w in
  let m0 := w.(mon).(heartbeatMessages) in
  let m1 := r.2.(mon).(heartbeatMessages) in
  (∀ k, k ∈ r.1.(hbChangedStateToInactiveMap) ↔
        k ∈ acc.(hbChangedStateToInactiveMap) ∨
        k ∈ order ∧ ∃ v v', m0 !! k = Some v ∧ m1 !! k = Some v' ∧
                            GetIsActive v = true ∧ GetIsActive v' = false) ∧
  r.1.(counterConnectedNodes) =
    acc.(counterConnectedNodes) +
    Z.of_nat (length (filter (λ kv, GetIsActive kv.2 = true) (range m1 order))) ∧
  r.1.(counterActiveValidators) =
    acc.(counterActiveValidators) +
    Z.of_nat (length (filter (λ kv, GetIsActive kv.2 && GetIsValidator kv.2 = true)
                       (range m1 order))).
Proof.
  intros Hnodup. revert acc w.
  induction Hnodup as [|key order Hkey Hnodup IH]; intros acc w r m0 m1.
  - subst r m0 m1. simpl. split_and!; [|lia..].
    intros k. split; [by left|]. intros [?|[[]%elem_of_nil _]]; done.
  - subst r m0 m1. rewrite computeAllLoop_cons.
    destruct (heartbeatMessages (mon w) !! key) as [v|] eqn:Hv.
    + simpl. set (v' := ComputeActive _ v).
      match goal with |- context [computeAllLoop order ?a ?w'] =>
        specialize (IH a w'); simpl in IH;
        pose proof (computeAllLoop_records order a w' Hnodup key) as [Hrec _];
        pose proof (λ k, proj1 (computeAllLoop_records order a w' Hnodup k)) as Hother;
        simpl in Hrec, Hother;
        destruct (computeAllLoop order a w') as [acc' w''] end.
      simpl in *. specialize (Hrec Hkey). rewrite lookup_insert_eq in Hrec.
      destruct IH as (IHch & IHcn & IHcv). split_and!.
      * intros k. rewrite IHch. destruct (decide (k = key)) as [->|Hne].
        -- rewrite Hrec, Hv. split.
           ++ intros [Hin|[Hin _]]; [|done].
              destruct (GetIsActive v) eqn:Hprev, (GetIsActive v') eqn:Hact;
                simpl in Hin; try (by left).
              right. split; [left|]. by exists v, v'.
           ++ intros [Hin|[_ (v1 & v2 & [= <-] & [= <-] & Hprev & Hact)]].
              ** left. destruct (GetIsActive v && negb (GetIsActive v')); [|done].
                 apply elem_of_union. by left.
              ** left. rewrite Hprev, Hact. simpl.
                 apply elem_of_union. right. by apply elem_of_singleton.
        -- rewrite lookup_insert_ne by done.
           assert (k ∈ (if GetIsActive v && negb (GetIsActive v')
                        then hbChangedStateToInactiveMap acc ∪ {[key]}
                        else hbChangedStateToInactiveMap acc)
                   ↔ k ∈ hbChangedStateToInactiveMap acc) as ->
             by (destruct (GetIsActive v && negb (GetIsActive v')); [|done];
                 rewrite elem_of_union, elem_of_singleton;
                 split; [by intros [?|?]|by left]).
           rewrite elem_of_cons. split.
           ++ intros [?|[? ?]]; [by left|]. right. split; [by right|done].
           ++ intros [?|[[?|?] ?]]; [by left|done|]. by right.
      * rewrite IHcn, range_cons, Hrec, filter_cons. simpl.
        destruct (GetIsActive v') eqn:Hact.
        -- rewrite decide_True by done. simpl. lia.
        -- rewrite decide_False by done. lia.
      * rewrite IHcv, range_cons, Hrec, filter_cons. simpl.
        destruct (GetIsActive v' && GetIsValidator v') eqn:Hact.
        -- rewrite decide_True by done. simpl. lia.
        -- rewrite decide_False by done. lia.
    + specialize (IH acc w). simpl in IH.
      pose proof (computeAllLoop_records order acc w Hnodup key) as [Hrec _].
      simpl in Hrec. specialize (Hrec Hkey). rewrite Hv in Hrec.
      destruct IH as (IHch & IHcn & IHcv). split_and!.
      * intros k. rewrite IHch, elem_of_cons. split.
        -- intros [?|[? ?]]; [by left|]. right. split; [by right|done].
        -- intros [?|[[->|?] (v1 & v2 & Hv1 & Hrest)]]; [by left|congruence|].
           right. split; [done|]. by exists v1, v2.
      * by rewrite IHcn, range_cons, Hrec.
      * by rewrite IHcv, range_cons, Hrec.
Qed.

(** The pass as a whole: the loop, then the goroutine that persists, then
    the two counters. *)
Lemma computeAllHeartbeatMessages_unfold order w :
  let r := computeAllLoop order
             {| counterActiveValidators := 0; counterConnectedNodes := 0;
                hbChangedStateToInactiveMap := ∅ |} w in
  let w' := (computeAllHeartbeatMessages order w).2 in
  let sink := w.(mon).(appStatusHandler) in
  w'.(mon) = r.2.(mon) ∧
  w'.(mon) = set_heartbeatMessages w'.(mon).(heartbeatMessages) w.(mon) ∧
  w'.(pool) = w.(pool) ++
    [GoSaveMultipleHeartbeatMessageInfos r.1.(hbChangedStateToInactiveMap)] ∧
  w'.(trace) = w.(trace) ++
    [EvSetUInt64Value MetricLiveValidatorNodes r.1.(counterActiveValidators);
     EvSetUInt64Value MetricConnectedNodes r.1.(counterConnectedNodes)] ∧
  w'.(ext) =
    sink.(SetUInt64Value) MetricConnectedNodes r.1.(counterConnectedNodes)
      (sink.(SetUInt64Value) MetricLiveValidatorNodes r.1.(counterActiveValidators)
         r.2.(ext)).
Proof.
  intros r w' sink. subst r w' sink. unfold computeAllHeartbeatMessages, publish. unfold_M.
  match goal with |- context [computeAllLoop order ?a w] =>
    pose proof (computeAllLoop_frame order a w) as Hframe; simpl in Hframe;
    destruct (computeAllLoop order a w) as [acc' w1] end.
  simpl in *. rewrite Hframe. simpl. by rewrite <-app_assoc.
Qed.

Lemma filter_all {A} (P : A → Prop) `{∀ x, Decision (P x)} (l : list A) :
  (∀ x, x ∈ l → P x) → filter P l = l.
Proof.
  induction l as [|x l IH]; intros Hall; [done|].
  rewrite filter_cons_True by (apply Hall; left). f_equal. apply IH.
  intros y Hy. apply Hall. by right.
Qed.

Lemma savedPubKeys_app tr1 tr2 :
  savedPubKeys (tr1 ++ tr2) = savedPubKeys tr1 ++ savedPubKeys tr2.
Proof. apply omap_app. Qed.

(** [SaveMultipleHeartbeatMessageInfos] calls [SavePubkeyData] once for
    every key it ranges over that has a record, and leaves the monitor as
    it is. *)
Lemma SaveMultipleHeartbeatMessageInfos_saves order w :
  let w' := (SaveMultipleHeartbeatMessageInfos order w).2 in
  w'.(mon) = w.(mon) ∧ w'.(pool) = w.(pool) ∧
  ∃ evs, w'.(trace) = w.(trace) ++ evs ∧
    Forall (λ ev, match ev with EvSavePubkeyData _ _ => True | _ => False end) evs ∧
    savedPubKeys evs = filter (λ k, is_Some (w.(mon).(heartbeatMessages) !! k)) order.
Proof.
  unfold SaveMultipleHeartbeatMessageInfos. revert w.
  induction order as [|key order IH]; intros w.
  - simpl. split_and!; [done..|]. exists []. by rewrite app_nil_r.
  - simpl. unfold_M. destruct (heartbeatMessages (mon w) !! key) as [hbmi|] eqn:Hkey.
    + destruct (SavePubkeyData _ _ _ _) as [err e] eqn:Hsave. simpl.
      match goal with |- context [forEach order ?b ?w1] =>
        specialize (IH w1); simpl in IH; destruct (forEach order b w1) as [u w2] end.
      simpl in *. destruct IH as (-> & -> & evs & -> & Hevs & Hsaved).
      split_and!; [done..|]. eexists (_ :: evs). split_and!.
      * by rewrite <-app_assoc.
      * by constructor.
      * simpl. rewrite Hsaved, filter_cons, decide_True; [done|]. by rewrite Hkey.
    + specialize (IH w). simpl in IH.
      match goal with |- context [forEach order ?b w] =>
        destruct (forEach order b w) as [u w2] end.
      simpl in *. destruct IH as (-> & -> & evs & -> & Hevs & Hsaved).
      split_and!; [done..|]. exists evs. split_and!; [done..|].
      rewrite Hsaved, filter_cons, decide_False; [done|]. rewrite Hkey. by intros [? ?].
Qed.

(** C4.  An aggregation pass hands to persistence exactly the records
    whose isActive flag was true before the pass evaluated them and is
    false after: the goroutine it starts for [SaveMultipleHeartbeatMessageInfos]
    receives these records and no other, that goroutine saves each of them
    once and nothing else, and the pass itself saves nothing. *)
Theorem C4_pass_persists_the_transitioned_records w order :
  iteration_order w.(mon).(heartbeatMessages) order →
  let w' := (computeAllHeartbeatMessages order w).2 in
  let before := w.(mon).(heartbeatMessages) in
  let after := w'.(mon).(heartbeatMessages) in
  ∃ handed : gset string,
    w'.(pool) = w.(pool) ++ [GoSaveMultipleHeartbeatMessageInfos handed] ∧
    savedPubKeys w'.(trace) = savedPubKeys w.(trace) ∧
    (∀ k v, before !! k = Some v → ∃ now, after !! k = Some (ComputeActive now v)) ∧
    (∀ k, k ∈ handed ↔
          ∃ v v', before !! k = Some v ∧ after !! k = Some v' ∧
                  GetIsActive v = true ∧ GetIsActive v' = false) ∧
    (∀ saveOrder w2,
       saveOrder ≡ₚ elements handed →
       (∀ k, is_Some (after !! k) → is_Some (w2.(mon).(heartbeatMessages) !! k)) →
       savedPubKeys (runTask (GoSaveMultipleHeartbeatMessageInfos handed) saveOrder w2).2.(trace)
       = savedPubKeys w2.(trace) ++ saveOrder).
Proof.
  intros Horder w' before after. subst w' before after.
  pose proof (iteration_order_NoDup _ _ Horder) as Hnodup.
  destruct (computeAllHeartbeatMessages_unfold order w) as (Hmon & _ & Hpool & Htrace & _).
  match type of Hmon with context [computeAllLoop order ?a w] =>
    pose proof (computeAllLoop_tally order a w Hnodup) as (Hch & _ & _);
    pose proof (computeAllLoop_records order a w Hnodup) as Hrec end.
  simpl in *. rewrite <-Hmon in Hch, Hrec.
  eexists. split; [exact Hpool|]. split_and!.
  - rewrite Htrace, savedPubKeys_app. simpl. by rewrite app_nil_r.
  - intros k v Hk. destruct (Hrec k) as [_ [now Hnow]].
    { eapply iteration_order_elem_of; eauto. }
    exists now. by rewrite Hnow, Hk.
  - intros k. rewrite Hch. split.
    + intros [[]%elem_of_empty|[_ ?]]; done.
    + intros (v & v' & Hv & Hrest). right. split; [|by exists v, v'].
      eapply iteration_order_elem_of; eauto.
  - intros saveOrder w2 Hsave Hstill. simpl.
    destruct (SaveMultipleHeartbeatMessageInfos_saves saveOrder w2)
      as (_ & _ & evs & -> & _ & Hsaved).
    rewrite savedPubKeys_app, Hsaved. f_equal. apply filter_all. intros k Hk. apply Hstill.
    rewrite Hsave in Hk. apply elem_of_elements, Hch in Hk.
    destruct Hk as [[]%elem_of_empty|[_ (v & v' & _ & Hafter & _)]]. by eexists.
Qed.

Lemma computeAllHeartbeatMessages_same_keys order w :
  NoDup order →
  ∀ k, is_Some ((computeAllHeartbeatMessages order w).2.(mon).(heartbeatMessages) !! k)
       ↔ is_Some (w.(mon).(heartbeatMessages) !! k).
Proof.
  intros Hnodup k.
  destruct (computeAllHeartbeatMessages_unfold order w) as (-> & _).
  match goal with |- context [computeAllLoop order ?a w] =>
    pose proof (computeAllLoop_records order a w Hnodup k) as [Hout Hin] end.
  simpl in *. destruct (decide (k ∈ order)) as [Hk|Hk].
  - destruct (Hin Hk) as [now ->]. by rewrite fmap_is_Some.
  - by rewrite Hout.
Qed.

Lemma countRecords_range P (m : gmap string heartbeatMessageInfo) order :
  iteration_order m order →
  Z.of_nat (length (filter (λ kv, P kv.2 = true) (range m order))) = countRecords P m.
Proof. intros Horder. unfold countRecords. by rewrite (range_iteration_order m order). Qed.

(** C7.  An aggregation pass publishes, as the number of live validator
    nodes, the number of records that after the pass are active and whose
    role marks them a validator, and, as the number of connected nodes, the
    number of records that after the pass are active. *)
Theorem C7_pass_publishes_the_two_counts w order :
  iteration_order w.(mon).(heartbeatMessages) order →
  let w' := (computeAllHeartbeatMessages order w).2 in
  let after := w'.(mon).(heartbeatMessages) in
  let liveValidators := countRecords (λ v, GetIsActive v && GetIsValidator v) after in
  let connected := countRecords GetIsActive after in
  w'.(trace) = w.(trace) ++
    [EvSetUInt64Value MetricLiveValidatorNodes liveValidators;
     EvSetUInt64Value MetricConnectedNodes connected] ∧
  ∃ e, w'.(ext) =
    w.(mon).(appStatusHandler).(SetUInt64Value) MetricConnectedNodes connected
      (w.(mon).(appStatusHandler).(SetUInt64Value) MetricLiveValidatorNodes liveValidators e).
Proof.
  intros Horder w' after liveValidators connected.
  subst w' after liveValidators connected.
  pose proof (iteration_order_NoDup _ _ Horder) as Hnodup.
  pose proof (computeAllHeartbeatMessages_same_keys order w Hnodup) as Hkeys.
  pose proof (iteration_order_same_keys _ _ _ Hkeys Horder) as Horder'.
  destruct (computeAllHeartbeatMessages_unfold order w) as (Hmon & _ & _ & Htrace & Hext).
  match type of Hmon with context [computeAllLoop order ?a w] =>
    pose proof (computeAllLoop_tally order a w Hnodup) as (_ & Hcn & Hcv) end.
  simpl in *. rewrite <-Hmon in Hcn, Hcv.
  rewrite (countRecords_range GetIsActive) in Hcn by done.
  rewrite (countRecords_range (λ v, GetIsActive v && GetIsValidator v)) in Hcv by done.
  rewrite Z.add_0_l in Hcn, Hcv. rewrite Hcn, Hcv in Htrace, Hext.
  split; [exact Htrace|]. eexists. exact Hext.
Qed.

(** ** [Duration.Seconds] in binary64

    [int64(d.Seconds())] against the whole seconds of [d]: the quotient is
    exact in [float64], the fraction [nsec/1e9] rounds to a float below
    [1 - 2^-30], and the sum of the two rounds to a float below the next
    integer as long as the quotient is below [2^24]. *)

Lemma digits2_pos_size p : digits2_pos p = Pos.size p.
Proof. induction p as [p IH|p IH|]; simpl; by rewrite ?IH. Qed.

Lemma Zdigits2_bounds p :
  2 ^ (Zdigits2 (Z.pos p) - 1) ≤ Z.pos p < 2 ^ Zdigits2 (Z.pos p).
Proof.
  simpl. rewrite digits2_pos_size.
  pose proof (Pos.size_gt p) as Hgt. pose proof (Pos.size_le p) as Hle.
  apply Pos2Z.pos_lt_pos in Hgt. apply Pos2Z.pos_le_pos in Hle.
  rewrite Pos2Z.inj_pow in Hgt, Hle. rewrite (Pos2Z.inj_xO p) in Hle.
  assert (0 < Z.pos (Pos.size p)) by lia.
  replace (Z.pos (Pos.size p)) with (Z.succ (Z.pos (Pos.size p) - 1)) in Hle at 1 by lia.
  rewrite Z.pow_succ_r in Hle by lia. lia.
Qed.

Lemma Zdigits2_unique z d : 2 ^ (d - 1) ≤ z < 2 ^ d → 0 < z → Zdigits2 z = d.
Proof.
  intros Hd Hz. destruct z as [|p|p]; try lia.
  pose proof (Zdigits2_bounds p) as Hp.
  set (d' := Zdigits2 (Z.pos p)) in *.
  destruct (Z.lt_trichotomy d' d) as [Hlt|[Heq|Hgt]]; [|done|].
  - assert (2 ^ d' ≤ 2 ^ (d - 1)) by (apply Z.pow_le_mono_r; lia). lia.
  - assert (0 ≤ d).
    { destruct (Z.lt_ge_cases d 0) as [Hneg|?]; [|done].
      rewrite (Z.pow_neg_r 2 d) in Hd by done. lia. }
    assert (2 ^ d ≤ 2 ^ (d' - 1)) by (apply Z.pow_le_mono_r; lia). lia.
Qed.

Lemma iter_pos_nat {A} (f : A → A) p x :
  SpecFloat.iter_pos f p x = Nat.iter (Pos.to_nat p) f x.
Proof.
  revert x. induction p as [p IH|p IH|]; intros x; cbn [SpecFloat.iter_pos];
    [| |done].
  - rewrite !IH, Pos2Nat.inj_xI, <-Nat.iter_succ_r, <-Nat.iter_add.
    f_equal. lia.
  - rewrite !IH, Pos2Nat.inj_xO, <-Nat.iter_add. f_equal. lia.
Qed.

Lemma shr_1_m mrs : 0 ≤ shr_m mrs → shr_m (shr_1 mrs) = shr_m mrs / 2.
Proof.
  destruct mrs as [[|[p|p|]|p] r s]; simpl; intros ?; try lia; try done.
  - rewrite Pos2Z.inj_xI. apply (Z.div_unique _ _ _ 1); lia.
  - rewrite Pos2Z.inj_xO. apply (Z.div_unique _ _ _ 0); lia.
Qed.

Lemma shr_1_r mrs : 0 ≤ shr_m mrs → shr_r (shr_1 mrs) = Z.odd (shr_m mrs).
Proof. destruct mrs as [[|[p|p|]|p] r s]; simpl; intros ?; try lia; done. Qed.

Lemma shr_iter_m k mrs :
  0 ≤ shr_m mrs →
  shr_m (Nat.iter k shr_1 mrs) = shr_m mrs / 2 ^ Z.of_nat k.
Proof.
  intros Hm. induction k as [|k IH].
  - simpl. by rewrite Z.div_1_r.
  - rewrite Nat.iter_succ, shr_1_m, IH.
    + rewrite Nat2Z.inj_succ, Z.pow_succ_r, Z.div_div by lia. f_equal. lia.
    + rewrite IH. apply Z.div_pos; lia.
Qed.

Lemma shr_iter_r k mrs :
  0 ≤ shr_m mrs →
  shr_r (Nat.iter (S k) shr_1 mrs) = Z.odd (shr_m mrs / 2 ^ Z.of_nat k).
Proof.
  intros Hm. rewrite Nat.iter_succ, shr_1_r, shr_iter_m; [done..|].
  rewrite shr_iter_m by done. apply Z.div_pos; lia.
Qed.

(** [shr] by [n] bits: the quotient, and the last bit shifted out. *)
Lemma shr_spec mrs e n :
  0 ≤ shr_m mrs → 0 < n →
  (shr mrs e n).2 = e + n ∧
  shr_m (shr mrs e n).1 = shr_m mrs / 2 ^ n ∧
  shr_r (shr mrs e n).1 = Z.odd (shr_m mrs / 2 ^ (n - 1)).
Proof.
  intros Hm Hn. destruct n as [|p|p]; try lia. simpl.
  rewrite iter_pos_nat. split; [done|]. split.
  - rewrite shr_iter_m by done. by rewrite positive_nat_Z.
  - destruct (Pos.to_nat p) as [|k] eqn:Hk; [lia|].
    rewrite shr_iter_r by done. do 3 f_equal. lia.
Qed.

Lemma round_nearest_even_range mrs :
  let m' := round_nearest_even (shr_m mrs) (loc_of_shr_record mrs) in
  m' = shr_m mrs ∨ m' = shr_m mrs + 1 ∧ shr_r mrs = true.
Proof.
  destruct mrs as [m [] []]; simpl; auto.
  destruct (Z.even m); auto.
Qed.

Lemma fexp_normal x : -1021 ≤ x → fexp 53 1024 x = x - 53.
Proof. unfold fexp, emin. lia. Qed.

Lemma shr_m_of_loc m l : shr_m (shr_record_of_loc m l) = m.
Proof. by destruct l as [|[]]. Qed.

Lemma loc_of_shr_record_of_loc m l :
  loc_of_shr_record (shr_record_of_loc m l) = l.
Proof. by destruct l as [|[]]. Qed.

Lemma round_nearest_even_loc m l :
  round_nearest_even m l = m ∨ round_nearest_even m l = m + 1 ∧ l ≠ loc_Exact.
Proof. destruct l as [|[]]; simpl; auto. destruct (Z.even m); auto. Qed.

(** Rounding a mantissa of at least 53 bits, away from the subnormal and
    the overflow range: the result is [m1 * 2 ^ (e + n)] where [n] is the
    number of bits dropped and [m1] the quotient or its successor, the
    successor only when the bits dropped are at least half a unit. *)
Lemma binary_round_aux_spec M e l :
  let d := Zdigits2 (Z.pos M) in
  let n := d - 53 in
  0 ≤ n → -1021 ≤ d + e ≤ 1023 →
  ∃ mf ef,
    binary_round_aux 53 1024 false (Z.pos M) e l = S754_finite false mf ef ∧
    e + n ≤ ef ≤ e + n + 1 ∧
    2 ^ 52 ≤ Z.pos mf < 2 ^ 53 ∧
    let m1 := Z.pos mf * 2 ^ (ef - (e + n)) in
    m1 = Z.pos M / 2 ^ n ∨
    m1 = Z.pos M / 2 ^ n + 1 ∧
    (n = 0 ∧ l ≠ loc_Exact ∨ 0 < n ∧ Z.odd (Z.pos M / 2 ^ (n - 1)) = true).
Proof.
  intros d n Hn He.
  pose proof (Zdigits2_bounds M) as HM. fold d in HM.
  assert (2 ^ 52 ≤ Z.pos M / 2 ^ n < 2 ^ 53) as Hq.
  { assert (0 < 2 ^ n) by (apply Z.pow_pos_nonneg; lia).
    assert (2 ^ (d - 1) = 2 ^ n * 2 ^ 52) as Hlo
      by (rewrite <-Z.pow_add_r by lia; f_equal; lia).
    assert (2 ^ d = 2 ^ n * 2 ^ 53) as Hhi
      by (rewrite <-Z.pow_add_r by lia; f_equal; lia).
    rewrite Hlo, Hhi in HM. split.
    - apply Z.div_le_lower_bound; lia.
    - apply Z.div_lt_upper_bound; lia. }
  unfold binary_round_aux, shr_fexp. fold d.
  rewrite fexp_normal by lia. replace (d + e - 53 - e) with n by lia.
  destruct (shr (shr_record_of_loc (Z.pos M) l) e n) as [mrs' e'] eqn:Hshr.
  set (m1 := round_nearest_even (shr_m mrs') (loc_of_shr_record mrs')).
  assert (e' = e + n ∧
          (m1 = Z.pos M / 2 ^ n ∨
           m1 = Z.pos M / 2 ^ n + 1 ∧
           (n = 0 ∧ l ≠ loc_Exact ∨
            0 < n ∧ Z.odd (Z.pos M / 2 ^ (n - 1)) = true))) as [-> Hm1].
  { destruct (decide (n = 0)) as [Hn0|Hn0].
    - rewrite Hn0 in Hshr |- *. simpl in Hshr. injection Hshr as <- <-.
      split; [lia|]. subst m1.
      rewrite shr_m_of_loc, loc_of_shr_record_of_loc, Z.div_1_r.
      destruct (round_nearest_even_loc (Z.pos M) l) as [->|[-> ?]]; auto.
    - pose proof (shr_spec (shr_record_of_loc (Z.pos M) l) e n) as Hs.
      rewrite Hshr, shr_m_of_loc in Hs. simpl in Hs.
      destruct Hs as (-> & Hm & Hr); [lia..|]. split; [done|].
      subst m1. destruct (round_nearest_even_range mrs') as [->|[-> Hr']].
      + left. done.
      + right. rewrite Hm. split; [done|]. right. split; [lia|]. congruence. }
  clearbody m1.
  assert (m1 < 2 ^ 53 ∨ m1 = 2 ^ 53) as [Hlt| ->] by lia.
  - assert (Zdigits2 m1 = 53) as Hd1.
    { apply Zdigits2_unique; [|lia]. change (53 - 1) with 52. lia. }
    rewrite Hd1, fexp_normal by lia.
    replace (53 + (e + n) - 53 - (e + n)) with 0 by lia. simpl.
    destruct m1 as [|mf|mf]; try lia.
    destruct (Z.leb_spec (e + n) (1024 - 53)); [|lia].
    exists mf, (e + n). split; [done|]. split; [lia|]. split; [lia|].
    replace (e + n - (e + n)) with 0 by lia. simpl. rewrite Z.mul_1_r. done.
  - change (Zdigits2 (2 ^ 53)) with 54.
    rewrite fexp_normal by lia.
    replace (54 + (e + n) - 53 - (e + n)) with 1 by lia. simpl.
    destruct (Z.leb_spec (e + n + 1) (1024 - 53)); [|lia].
    eexists _, (e + n + 1). split; [done|]. split; [lia|]. split; [done|].
    replace (e + n + 1 - (e + n)) with 1 by lia.
    change (Z.pos 4503599627370496 * 2 ^ 1) with (2 ^ 53). done.
Qed.

Lemma Pos_iter_xO p k : Z.pos (Pos.iter xO p k) = Z.pos p * 2 ^ Z.pos k.
Proof.
  induction k as [|k IH] using Pos.peano_ind.
  - simpl. lia.
  - rewrite Pos.iter_succ, Pos2Z.inj_xO, IH, Pos2Z.inj_succ, Z.pow_succ_r; lia.
Qed.

Lemma shl_align_spec m e e' :
  e' ≤ e →
  (shl_align m e e').2 = e' ∧
  Z.pos (shl_align m e e').1 = Z.pos m * 2 ^ (e - e').
Proof.
  intros He. unfold shl_align.
  destruct (e' - e) as [|k|k] eqn:Hk; simpl; try lia.
  - replace (e - e') with 0 by lia. split; lia.
  - rewrite Pos_iter_xO. split; [done|]. do 2 f_equal. lia.
Qed.

(** [float64(x)] is exact for an integer of at most 53 bits. *)
Lemma float64_of_int_pos x :
  0 < x < 2 ^ 53 →
  ∃ m, float64_of_int x = S754_finite false m (Zdigits2 x - 53) ∧
       Z.pos m = x * 2 ^ (53 - Zdigits2 x).
Proof.
  intros Hx. destruct x as [|p|p]; try lia.
  pose proof (Zdigits2_bounds p) as Hp.
  set (d := Zdigits2 (Z.pos p)) in *.
  assert (1 ≤ d ≤ 53) as Hd.
  { split; [unfold d; simpl; lia|].
    destruct (Z.lt_ge_cases 53 d) as [Hlt|?]; [|done].
    assert (2 ^ 53 ≤ 2 ^ (d - 1)) by (apply Z.pow_le_mono_r; lia). lia. }
  unfold float64_of_int, binary_normalize, binary_round.
  change (Z.pos (digits2_pos p)) with d.
  rewrite fexp_normal by lia.
  destruct (shl_align_spec p 0 (d + 0 - 53)) as [He Hm]; [lia|].
  destruct (shl_align p 0 (d + 0 - 53)) as [mz ez]. simpl in He, Hm. subst ez.
  replace (0 - (d + 0 - 53)) with (53 - d) in Hm by lia.
  assert (2 ^ 52 ≤ Z.pos mz < 2 ^ 53) as Hmz.
  { rewrite Hm.
    assert (2 ^ 52 = 2 ^ (d - 1) * 2 ^ (53 - d)) as ->
      by (rewrite <-Z.pow_add_r by lia; f_equal; lia).
    assert (2 ^ 53 = 2 ^ d * 2 ^ (53 - d)) as ->
      by (rewrite <-Z.pow_add_r by lia; f_equal; lia).
    assert (0 < 2 ^ (53 - d)) by (apply Z.pow_pos_nonneg; lia). nia. }
  assert (Zdigits2 (Z.pos mz) = 53) as Hdz
    by (apply Zdigits2_unique; [change (53 - 1) with 52|]; lia).
  destruct (binary_round_aux_spec mz (d + 0 - 53) loc_Exact)
    as (mf & ef & -> & Hef & Hmf & Hm1); rewrite ?Hdz; [lia..|].
  cbv zeta in Hm1. rewrite Hdz in Hm1, Hef.
  replace (53 - 53) with 0 in Hm1, Hef by lia.
  rewrite Z.div_1_r in Hm1.
  destruct Hm1 as [Hm1|[_ [[_ ?]|[? _]]]]; [|done|lia].
  assert (ef = d + 0 - 53 ∨ ef = d + 0 - 53 + 1) as [->| ->] by lia.
  - replace (d + 0 - 53 - (d + 0 - 53 + 0)) with 0 in Hm1 by lia.
    exists mf. split; [f_equal; lia|]. lia.
  - replace (d + 0 - 53 + 1 - (d + 0 - 53 + 0)) with 1 in Hm1 by lia.
    change (2 ^ 1) with 2 in Hm1. lia.
Qed.

Lemma Zdigits2_le x b : 0 < x < 2 ^ b → 0 ≤ b → 1 ≤ Zdigits2 x ≤ b.
Proof.
  intros Hx Hb. destruct x as [|p|p]; try lia.
  pose proof (Zdigits2_bounds p) as Hp.
  set (d := Zdigits2 (Z.pos p)) in *.
  split; [unfold d; simpl; lia|].
  destruct (Z.lt_ge_cases b d) as [Hlt|?]; [|done].
  assert (2 ^ b ≤ 2 ^ (d - 1)) by (apply Z.pow_le_mono_r; lia). lia.
Qed.

(** [float64(nsec)/1e9] for a positive [nsec] below [1e9]: a float below
    [1 - 2^-30]. *)
Lemma float64_div_nsec n :
  0 < n < Second →
  ∃ m e,
    float64_div (float64_of_int n) (float64_of_int 1000000000)
      = S754_finite false m e ∧
    e ≤ -53 ∧ Z.pos m * 2 ^ 30 < (2 ^ 30 - 1) * 2 ^ (- e).
Proof.
  unfold Second. intros Hn.
  destruct (Zdigits2_le n 30) as [Hd1 Hd30]; [lia..|].
  destruct (float64_of_int_pos n) as (m1 & -> & Hm1); [lia|].
  pose proof (Zdigits2_bounds m1) as _.
  set (dn := Zdigits2 n) in *.
  assert (2 ^ (dn - 1) ≤ n < 2 ^ dn) as Hnb.
  { destruct n as [|p|p]; try lia. apply Zdigits2_bounds. }
  set (T := 2 ^ (53 - dn)) in *.
  assert (2 ^ 23 ≤ T) as HT by (apply Z.pow_le_mono_r; lia).
  assert (2 ^ 52 ≤ Z.pos m1 < 2 ^ 53) as Hm1b.
  { rewrite Hm1.
    assert (2 ^ 52 = 2 ^ (dn - 1) * T) as ->
      by (unfold T; rewrite <-Z.pow_add_r by lia; f_equal; lia).
    assert (2 ^ 53 = 2 ^ dn * T) as ->
      by (unfold T; rewrite <-Z.pow_add_r by lia; f_equal; lia).
    nia. }
  assert (Zdigits2 (Z.pos m1) = 53) as Hdm1
    by (apply Zdigits2_unique; [change (53 - 1) with 52|]; lia).
  change (float64_of_int 1000000000)
    with (S754_finite false 8388608000000000 (-23)).
  unfold float64_div, SFdiv, SFdiv_core_binary. rewrite Hdm1.
  change (Zdigits2 (Z.pos 8388608000000000)) with 53.
  rewrite fexp_normal by lia.
  replace (Z.min (53 + (dn - 53) - (53 + -23) - 53) (dn - 53 - -23))
    with (dn - 83) by lia.
  replace (dn - 53 - -23 - (dn - 83)) with 53 by lia.
  rewrite Z.shiftl_mul_pow2 by lia.
  set (m2 := Z.pos 8388608000000000).
  destruct (Z.div_eucl (Z.pos m1 * 2 ^ 53) m2) as [q r] eqn:Hqr.
  assert (q = Z.pos m1 * 2 ^ 53 / m2) as Hq by (unfold Z.div; by rewrite Hqr).
  assert (2 ^ 52 ≤ q < 2 ^ 54) as Hqb.
  { rewrite Hq. split.
    - apply Z.div_le_lower_bound; [done|]. unfold m2. lia.
    - apply Z.div_lt_upper_bound; [done|]. unfold m2. lia. }
  assert (q * 1000000000 ≤ n * 2 ^ 30 * T) as Hqn.
  { pose proof (Z.mul_div_le (Z.pos m1 * 2 ^ 53) m2) as Hle.
    rewrite <-Hq, Hm1 in Hle. unfold m2 in Hle. lia. }
  destruct q as [|M|M]; try lia. simpl xorb.
  destruct (Zdigits2_le (Z.pos M) 54) as [_ HdM]; [lia..|].
  assert (53 ≤ Zdigits2 (Z.pos M)) as HdM'.
  { pose proof (Zdigits2_bounds M) as HM.
    destruct (Z.lt_ge_cases (Zdigits2 (Z.pos M)) 53) as [Hlt|?]; [|lia].
    assert (2 ^ Zdigits2 (Z.pos M) ≤ 2 ^ 52)
      by (apply Z.pow_le_mono_r; lia). lia. }
  destruct (binary_round_aux_spec M (dn - 83) (new_location m2 r))
    as (mf & ef & -> & Hef & Hmf & Hr); [lia..|].
  cbv zeta in Hr. set (k := Zdigits2 (Z.pos M) - 53) in *.
  exists mf, ef. split; [done|].
  set (c := 2 ^ (ef - (dn - 83 + k))) in *.
  assert (0 < c) as Hc by (apply Z.pow_pos_nonneg; lia).
  assert (Z.pos mf * c * 2 ^ k ≤ Z.pos M + 2) as Hval.
  { assert (Z.pos M / 2 ^ k * 2 ^ k ≤ Z.pos M) as Hfloor.
    { rewrite Z.mul_comm. apply Z.mul_div_le. apply Z.pow_pos_nonneg; lia. }
    assert (Z.pos mf * c ≤ Z.pos M / 2 ^ k + 1) as Hup
      by (destruct Hr as [->|[-> _]]; lia).
    assert (2 ^ k = 1 ∨ 2 ^ k = 2) as [Hk|Hk]
      by (assert (k = 0 ∨ k = 1) as [-> | ->] by lia; auto);
      rewrite Hk in Hfloor, Hup |- *; lia. }
  assert (2 ^ (- ef) * (c * 2 ^ k) = 2 ^ 30 * T) as Hpow.
  { unfold c, T. rewrite <-!Z.pow_add_r by lia. f_equal. lia. }
  assert (0 < 2 ^ k) by (apply Z.pow_pos_nonneg; lia).
  assert (Z.pos mf * 2 ^ 30 < (2 ^ 30 - 1) * 2 ^ (- ef)) as Hlt.
  { apply (Z.mul_lt_mono_pos_r (c * 2 ^ k)); [lia|].
    assert (n * T ≤ 999999999 * T) by (apply Z.mul_le_mono_nonneg_r; lia).
    lia. }
  split; [|done].
  destruct (Z.lt_ge_cases (-53) ef) as [Hbig|?]; [|done].
  assert (2 ^ (- ef) ≤ 2 ^ 52) by (apply Z.pow_le_mono_r; lia). lia.
Qed.

(** [float64(sec) + q] for a positive [sec] below [2^24] and a float [q]
    below [1 - 2^-30]: the sum rounds to a float below [sec + 1]. *)
Lemma float64_add_sec sec mq eq2 :
  0 < sec < 2 ^ 24 →
  eq2 ≤ -53 → Z.pos mq * 2 ^ 30 < (2 ^ 30 - 1) * 2 ^ (- eq2) →
  int64_of_float64 (float64_add (float64_of_int sec) (S754_finite false mq eq2))
    = sec.
Proof.
  intros Hsec Heq Hq.
  destruct (Zdigits2_le sec 24) as [Hd1 Hd24]; [lia..|].
  destruct (float64_of_int_pos sec) as (ma & -> & Hma); [lia|].
  set (ds := Zdigits2 sec) in *.
  assert (2 ^ (ds - 1) ≤ sec < 2 ^ ds) as Hsb.
  { destruct sec as [|p|p]; try lia. apply Zdigits2_bounds. }
  set (n := ds - eq2 - 53).
  set (P := 2 ^ (53 - ds)) in *. set (E := 2 ^ (- eq2)) in *.
  set (U := 2 ^ n). set (Hf := 2 ^ (n - 1)).
  assert (0 < P) by (apply Z.pow_pos_nonneg; lia).
  assert (0 < Hf) by (apply Z.pow_pos_nonneg; lia).
  assert (U = 2 * Hf) as HU.
  { unfold U, Hf. rewrite <-Z.pow_succ_r by lia. f_equal. lia. }
  assert (E = P * U) as HE.
  { unfold E, P, U. rewrite <-Z.pow_add_r by lia. f_equal. lia. }
  assert (2 ^ 30 * Hf ≤ E) as HEH.
  { assert (E = 2 ^ (54 - ds) * Hf) as ->.
    { unfold E, Hf. rewrite <-Z.pow_add_r by lia. f_equal. lia. }
    assert (2 ^ 30 ≤ 2 ^ (54 - ds)) by (apply Z.pow_le_mono_r; lia). nia. }
  unfold float64_add, SFadd. rewrite Z.min_r by lia. simpl cond_Zopp.
  destruct (shl_align_spec ma (ds - 53) eq2) as [_ Ha]; [lia|].
  destruct (shl_align_spec mq eq2 eq2) as [_ Hb]; [lia|].
  replace (ds - 53 - eq2) with n in Ha by lia. fold U in Ha.
  rewrite Z.sub_diag, Z.mul_1_r in Hb.
  set (a := fst (shl_align ma (ds - 53) eq2)) in *.
  set (b := fst (shl_align mq eq2 eq2)) in *.
  change (Z.pos a + Z.pos b) with (Z.pos (a + b)).
  assert (Z.pos (a + b) = sec * E + Z.pos mq) as HM
    by (rewrite Pos2Z.inj_add, Ha, Hb, Hma, HE; lia).
  set (M := (a + b)%positive) in *.
  assert (sec * E ≤ Z.pos M < (sec + 1) * E - Hf) as HMb by lia.
  assert (Zdigits2 (Z.pos M) = ds - eq2) as HdM.
  { apply Zdigits2_unique; [|lia].
    assert (2 ^ (ds - eq2 - 1) = 2 ^ (ds - 1) * E) as ->
      by (unfold E; rewrite <-Z.pow_add_r by lia; f_equal; lia).
    assert (2 ^ (ds - eq2) = 2 ^ ds * E) as ->
      by (unfold E; rewrite <-Z.pow_add_r by lia; f_equal; lia).
    nia. }
  unfold binary_normalize, binary_round.
  change (Z.pos (digits2_pos M)) with (Zdigits2 (Z.pos M)).
  rewrite HdM, fexp_normal by lia.
  assert (shl_align M eq2 (ds - eq2 + eq2 - 53) = (M, eq2)) as ->.
  { unfold shl_align. destruct (ds - eq2 + eq2 - 53 - eq2) eqn:?; try done. lia. }
  destruct (binary_round_aux_spec M eq2 loc_Exact)
    as (mf & ef & -> & Hef & Hmf & Hr); rewrite ?HdM; [lia..|].
  cbv zeta in Hr. rewrite HdM in Hr, Hef. fold n in Hr, Hef.
  fold U Hf in Hr.
  set (c := 2 ^ (ef - (eq2 + n))) in *.
  assert (0 < c) as Hc by (apply Z.pow_pos_nonneg; lia).
  assert (P = c * 2 ^ (- ef)) as HP.
  { unfold P, c. rewrite <-Z.pow_add_r by lia. f_equal. lia. }
  assert (0 < 2 ^ (- ef)) by (apply Z.pow_pos_nonneg; lia).
  set (Q := Z.pos M / U) in *.
  assert (U * Q ≤ Z.pos M < U * Q + U) as HQ.
  { split; [apply Z.mul_div_le; lia|].
    pose proof (Z.mul_succ_div_gt (Z.pos M) U). lia. }
  assert (0 < U) by lia.
  assert (sec * P ≤ Q) as Hlo.
  { apply Z.lt_succ_r, (Z.mul_lt_mono_pos_r U); [done|].
    rewrite HE in HMb. lia. }
  assert (Q < (sec + 1) * P) as Hhi.
  { apply (Z.mul_lt_mono_pos_r U); [done|]. rewrite HE in HMb. lia. }
  assert (sec * P ≤ Z.pos mf * c < (sec + 1) * P) as Hm1.
  { destruct Hr as [->|[-> [[? _]|[_ Hodd]]]]; [lia|lia|].
    set (R := Z.pos M / Hf) in *.
    assert (Hf * R ≤ Z.pos M) by (apply Z.mul_div_le; lia).
    assert (R / 2 = Q) as HRQ.
    { unfold R, Q. rewrite Z.div_div, HU by lia. f_equal. lia. }
    pose proof (Z.div2_odd R) as HR. rewrite Hodd, Z.div2_div, HRQ in HR.
    simpl Z.b2z in HR. split; [lia|].
    assert (2 * Q + 2 < 2 * ((sec + 1) * P)); [|lia].
    apply (Z.mul_lt_mono_pos_r Hf); [done|].
    rewrite HE, HU in HMb. rewrite HR in *. lia. }
  unfold int64_of_float64. destruct (Z.leb_spec 0 ef); [lia|].
  rewrite Z.shiftr_div_pow2 by lia.
  symmetry.
  apply (Z.div_unique _ _ _ (Z.pos mf - sec * 2 ^ (- ef))); [|lia].
  left. rewrite HP in Hm1. destruct Hm1 as [Hm1 Hm2].
  assert (sec * 2 ^ (- ef) ≤ Z.pos mf)
    by (apply (Z.mul_le_mono_pos_r _ _ c); lia).
  assert (Z.pos mf < (sec + 1) * 2 ^ (- ef))
    by (apply (Z.mul_lt_mono_pos_r c); lia).
  lia.
Qed.

(** Rounding to nearest is symmetric. *)
Lemma binary_round_aux_opp m e l :
  binary_round_aux 53 1024 true m e l
  = SFopp (binary_round_aux 53 1024 false m e l).
Proof.
  unfold binary_round_aux. destruct (shr_fexp 53 1024 m e l) as [mrs' e'].
  destruct (shr_fexp 53 1024 _ e' loc_Exact) as [mrs'' e''].
  destruct (shr_m mrs'') as [|p|p]; [done| |done].
  by destruct (e'' <=? 1024 - 53).
Qed.

Lemma float64_of_int_opp x :
  0 < x → float64_of_int (- x) = SFopp (float64_of_int x).
Proof.
  intros Hx. destruct x as [|p|p]; try lia.
  unfold float64_of_int. change (- Z.pos p) with (Z.neg p).
  unfold binary_normalize, binary_round.
  destruct (shl_align p 0 _) as [mz ez]. apply binary_round_aux_opp.
Qed.

Lemma float64_div_opp mx ex my ey :
  float64_div (S754_finite true mx ex) (S754_finite false my ey)
  = SFopp (float64_div (S754_finite false mx ex) (S754_finite false my ey)).
Proof.
  unfold float64_div, SFdiv.
  destruct (SFdiv_core_binary 53 1024 _ ex _ ey) as [[mz ez] lz].
  apply binary_round_aux_opp.
Qed.

Lemma float64_add_opp mx ex my ey :
  float64_add (S754_finite true mx ex) (S754_finite true my ey)
  = SFopp (float64_add (S754_finite false mx ex) (S754_finite false my ey)).
Proof.
  unfold float64_add, SFadd. simpl cond_Zopp.
  set (a := fst (shl_align mx ex _)). set (b := fst (shl_align my ey _)).
  change (- Z.pos a + - Z.pos b) with (Z.neg (a + b)).
  change (Z.pos a + Z.pos b) with (Z.pos (a + b)).
  unfold binary_normalize, binary_round.
  destruct (shl_align (a + b) _ _) as [mz ez]. apply binary_round_aux_opp.
Qed.

Lemma int64_of_float64_opp f :
  int64_of_float64 (SFopp f) = - int64_of_float64 f.
Proof.
  destruct f as [| | |[] m e]; simpl; try done.
  destruct (0 <=? e); lia.
Qed.

Lemma int64_of_float64_below_one m e :
  e ≤ -53 → Z.pos m * 2 ^ 30 < (2 ^ 30 - 1) * 2 ^ (- e) →
  int64_of_float64 (S754_finite false m e) = 0.
Proof.
  intros He Hm. unfold int64_of_float64.
  destruct (Z.leb_spec 0 e); [lia|].
  rewrite Z.shiftr_div_pow2 by lia. apply Z.div_small.
  assert (0 < 2 ^ (- e)) by (apply Z.pow_pos_nonneg; lia). lia.
Qed.

Lemma int64_of_float64_of_int x :
  0 < x < 2 ^ 53 → int64_of_float64 (float64_of_int x) = x.
Proof.
  intros Hx. destruct (Zdigits2_le x 53) as [Hd1 Hd53]; [lia..|].
  destruct (float64_of_int_pos x) as (m & -> & Hm); [done|].
  unfold int64_of_float64.
  destruct (Z.leb_spec 0 (Zdigits2 x - 53)).
  - replace (Zdigits2 x - 53) with 0 by lia.
    replace (53 - Zdigits2 x) with 0 in Hm by lia.
    rewrite Z.shiftl_0_r. lia.
  - rewrite Z.shiftr_div_pow2 by lia.
    replace (- (Zdigits2 x - 53)) with (53 - Zdigits2 x) by lia.
    rewrite Hm. apply Z.div_mul.
    apply Z.pow_nonzero; lia.
Qed.

(** The seconds of a non-negative duration shorter than [2^24] seconds
    convert to the whole seconds of the duration. *)
Lemma Seconds_truncates_nonneg d :
  0 ≤ d < 2 ^ 24 * Second →
  int64_of_float64 (Seconds d) = d `quot` Second.
Proof.
  intros Hd. unfold Seconds.
  rewrite Z.quot_div_nonneg, Z.rem_mod_nonneg by (unfold Second; lia).
  pose proof (Z.mod_pos_bound d Second) as Hns.
  assert (0 ≤ d / Second < 2 ^ 24) as Hs.
  { split; [apply Z.div_pos; unfold Second; lia|].
    apply Z.div_lt_upper_bound; unfold Second in *; lia. }
  set (sec := d / Second) in *. set (nsec := d `mod` Second) in *.
  assert (nsec = 0 ∨ 0 < nsec < Second) as [-> |Hpos]
    by (unfold Second in *; lia).
  - change (float64_div (float64_of_int 0) (float64_of_int 1000000000))
      with (S754_zero false).
    assert (sec = 0 ∨ 0 < sec) as [-> |Hsec] by lia; [done|].
    destruct (float64_of_int_pos sec) as (m & Hf & _); [lia|].
    rewrite <-(int64_of_float64_of_int sec) at 2 by lia.
    by rewrite Hf.
  - destruct (float64_div_nsec nsec Hpos) as (mq & eq2 & -> & Heq & Hq).
    assert (sec = 0 ∨ 0 < sec) as [-> |Hsec] by lia.
    + change (float64_of_int 0) with (S754_zero false). simpl.
      by apply int64_of_float64_below_one.
    + apply float64_add_sec; [lia|done..].
Qed.

(** The same for a negative duration: Go's [/] and [%] truncate toward
    zero and the float operations are symmetric. *)
Lemma Seconds_truncates d :
  - (2 ^ 24 * Second) < d < 2 ^ 24 * Second →
  int64_of_float64 (Seconds d) = d `quot` Second.
Proof.
  intros Hd. destruct (Z.le_gt_cases 0 d) as [?|Hneg].
  { apply Seconds_truncates_nonneg. lia. }
  pose proof (Seconds_truncates_nonneg (- d)) as Hpos.
  unfold Seconds in *.
  replace d with (- - d) by lia. set (d' := - d) in *.
  rewrite Z.quot_opp_l, Z.rem_opp_l by done.
  rewrite Z.quot_div_nonneg, Z.rem_mod_nonneg in * by (unfold Second; lia).
  pose proof (Z.mod_pos_bound d' Second) as Hns.
  assert (0 ≤ d' / Second < 2 ^ 24) as Hs.
  { split; [apply Z.div_pos; unfold Second; lia|].
    apply Z.div_lt_upper_bound; unfold Second in *; lia. }
  set (sec := d' / Second) in *. set (nsec := d' `mod` Second) in *.
  transitivity
    (- int64_of_float64
         (float64_add (float64_of_int sec)
            (float64_div (float64_of_int nsec) (float64_of_int 1000000000))));
    [|by rewrite Hpos by lia].
  clear Hpos.
  assert (nsec = 0 ∨ 0 < nsec < Second) as [-> |Hnsec]
    by (unfold Second in *; lia);
    (assert (sec = 0 ∨ 0 < sec) as [-> |Hsec] by lia); try done.
  - rewrite (float64_of_int_opp sec) by done.
    destruct (float64_of_int_pos sec) as (m & -> & _); [lia|].
    change (float64_div (float64_of_int (- 0)) (float64_of_int 1000000000))
      with (S754_zero false).
    change (float64_div (float64_of_int 0) (float64_of_int 1000000000))
      with (S754_zero false).
    simpl. destruct (0 <=? Zdigits2 sec - 53); lia.
  - rewrite (float64_of_int_opp nsec) by lia.
    destruct (float64_of_int_pos nsec) as (m & -> & _);
      [unfold Second in *; lia|].
    change (float64_of_int 1000000000)
      with (S754_finite false 8388608000000000 (-23)).
    simpl SFopp. rewrite float64_div_opp.
    change (float64_of_int (- 0)) with (S754_zero false).
    change (float64_of_int 0) with (S754_zero false).
    destruct (float64_div _ _) as [[]|[]| |[] mq eq2]; simpl; try done;
      destruct (0 <=? eq2); lia.
  - rewrite !float64_of_int_opp by lia.
    destruct (float64_of_int_pos sec) as (ma & -> & _); [lia|].
    destruct (float64_of_int_pos nsec) as (mn & Hfn & _);
      [unfold Second in *; lia|].
    destruct (float64_div_nsec nsec Hnsec) as (mq & eq2 & Hdiv & _).
    rewrite Hfn in Hdiv |- *.
    change (float64_of_int 1000000000)
      with (S754_finite false 8388608000000000 (-23)) in *.
    simpl SFopp. rewrite float64_div_opp, Hdiv. simpl SFopp.
    rewrite float64_add_opp. apply int64_of_float64_opp.
Qed.

(** ** The snapshot *)

Lemma hexDigit_inj n m : (n < 16)%N → (m < 16)%N → hexDigit n = hexDigit m → n = m.
Proof.
  intros Hn Hm. rewrite <-(N2Nat.id n), <-(N2Nat.id m).
  assert (Hkn : (N.to_nat n < 16)%nat) by lia.
  assert (Hkm : (N.to_nat m < 16)%nat) by lia.
  revert Hkn Hkm. generalize (N.to_nat n) (N.to_nat m). clear. intros kn km Hkn Hkm.
  do 16 (destruct kn as [|kn];
    [do 16 (destruct km as [|km]; [by (intros; vm_compute in *)|]); lia|]).
  lia.
Qed.

Lemma hex_byte_inj c1 c2 :
  let n1 := N_of_ascii c1 in
  let n2 := N_of_ascii c2 in
  hexDigit (n1 / 16) = hexDigit (n2 / 16) →
  hexDigit (n1 `mod` 16) = hexDigit (n2 `mod` 16) →
  c1 = c2.
Proof.
  intros n1 n2 Hhi Hlo.
  assert (n1 < 256)%N by apply N_ascii_bounded.
  assert (n2 < 256)%N by apply N_ascii_bounded.
  apply hexDigit_inj in Hhi; [|apply N.Div0.div_lt_upper_bound; lia..].
  apply hexDigit_inj in Hlo; [|apply N.mod_lt; lia..].
  rewrite <-(ascii_N_embedding c1), <-(ascii_N_embedding c2). f_equal.
  fold n1 n2. rewrite (N.div_mod n1 16), (N.div_mod n2 16) by lia. congruence.
Qed.

Global Instance hex_EncodeToString_inj : Inj (=) (=) hex_EncodeToString.
Proof.
  intros s1. induction s1 as [|c1 s1 IH]; intros [|c2 s2] Heq; simpl in Heq; try done.
  injection Heq as Hhi Hlo Hrest. f_equal; [by apply hex_byte_inj|by apply IH].
Qed.

Lemma strings_Compare_lt a b : strings_Compare a b < 0 ↔ String.compare a b = Lt.
Proof. unfold strings_Compare. destruct (String.compare a b); split; (done || lia). Qed.

Lemma String_compare_refl s : String.compare s s = Eq.
Proof.
  induction s as [|c s IH]; simpl; [done|].
  unfold Ascii.compare. by rewrite N.compare_refl.
Qed.

(** [less] of the snapshot's sort is the strict lexicographic order of the
    keys, and what the sort keeps in order is the order [String.le]. *)
Lemma notAfter_lessHexPublicKey a b :
  notAfter lessHexPublicKey a b ↔ String.le a.(HexPublicKey) b.(HexPublicKey).
Proof.
  unfold notAfter, lessHexPublicKey, String.le, String.leb.
  rewrite bool_decide_eq_false, strings_Compare_lt, String.compare_antisym.
  destruct (String.compare _ _); simpl; split; try done.
Qed.

#[local] Instance notAfter_lessHexPublicKey_trans : Transitive (notAfter lessHexPublicKey).
Proof.
  intros a b c. rewrite !notAfter_lessHexPublicKey. apply transitivity.
Qed.

#[local] Instance notAfter_lessHexPublicKey_total : Total (notAfter lessHexPublicKey).
Proof.
  intros a b. rewrite !notAfter_lessHexPublicKey. apply total, _.
Qed.

Lemma ascendingHex_spec a b :
  ascendingHex a b ↔
  notAfter lessHexPublicKey a b ∧ a.(HexPublicKey) ≠ b.(HexPublicKey).
Proof.
  unfold ascendingHex. rewrite notAfter_lessHexPublicKey, strings_Compare_lt.
  unfold String.le, String.leb. split.
  - intros Hlt. rewrite Hlt. split; [done|]. intros Heq. rewrite Heq in Hlt.
    by rewrite String_compare_refl in Hlt.
  - intros [Hle Hne]. destruct (String.compare _ _) eqn:Hcmp; [|done..].
    by apply String.compare_eq_iff in Hcmp.
Qed.

Lemma ascendingHex_asymmetric a b : ascendingHex a b → ascendingHex b a → False.
Proof.
  unfold ascendingHex. rewrite !strings_Compare_lt. intros Hab.
  rewrite String.compare_antisym, Hab. done.
Qed.

Lemma StronglySorted_strict (l : list PubKeyHeartbeat) :
  NoDup (HexPublicKey <$> l) →
  StronglySorted (notAfter lessHexPublicKey) l →
  StronglySorted ascendingHex l.
Proof.
  induction l as [|a l IH]; intros Hnodup Hsorted; [constructor|].
  apply NoDup_cons in Hnodup as [Ha Hnodup].
  apply StronglySorted_inv in Hsorted as [Hsorted Hall].
  constructor; [by apply IH|].
  rewrite Forall_forall in Hall |- *. intros b Hb.
  apply ascendingHex_spec. split; [by apply Hall|].
  intros Heq. apply Ha. rewrite Heq. by apply list_elem_of_fmap_2.
Qed.

Lemma GetHeartbeats_unfold order1 order2 w :
  let w1 := (computeAllHeartbeatMessages order1 w).2 in
  GetHeartbeats order1 order2 w =
  (sort_Slice lessHexPublicKey
     ((λ kv, toPubKeyHeartbeat kv.1 kv.2) <$> range w1.(mon).(heartbeatMessages) order2),
   w1).
Proof.
  unfold GetHeartbeats. unfold_M.
  by destruct (computeAllHeartbeatMessages order1 w) as [[] w1].
Qed.

Lemma NoDup_hex_entries (m : gmap string heartbeatMessageInfo) :
  NoDup (HexPublicKey <$> ((λ kv, toPubKeyHeartbeat kv.1 kv.2) <$> map_to_list m)).
Proof.
  assert (HexPublicKey <$> ((λ kv, toPubKeyHeartbeat kv.1 kv.2) <$> map_to_list m)
          = hex_EncodeToString <$> (map_to_list m).*1) as ->.
  { rewrite <-!list_fmap_compose. apply list_fmap_ext. by intros i [k v] _. }
  apply (NoDup_fmap_2 _), NoDup_fst_map_to_list.
Qed.

Lemma NoDup_fmap_eq {A B} (f : A → B) (l : list A) x y :
  NoDup (f <$> l) → x ∈ l → y ∈ l → f x = f y → x = y.
Proof.
  induction l as [|a l IH]; simpl; intros Hnodup Hx Hy Heq; [by apply elem_of_nil in Hx|].
  apply NoDup_cons in Hnodup as [Ha Hnodup].
  apply elem_of_cons in Hx as [->|Hx], Hy as [->|Hy]; [done| | |by apply IH].
  - contradict Ha. rewrite Heq. by apply list_elem_of_fmap_2.
  - contradict Ha. rewrite <-Heq. by apply list_elem_of_fmap_2.
Qed.

(** C5 (as amended).  [GetHeartbeats] first runs a full aggregation pass
    and changes nothing after it; whatever the orders in which the two
    ranges visit the map, it returns one entry for every record and no
    other, with the hex-encoded public key and with the up and down times
    in seconds as [int64(d.Seconds())], the [float64] number of seconds
    with its fraction discarded: the whole seconds of the duration,
    truncated toward zero, for every duration shorter than [2^24] seconds
    either way; the list is strictly ascending in the hex-encoded public
    key, and it is the only list of these entries that is. *)
Theorem C5_snapshot_one_entry_per_record_sorted w order1 order2 :
  iteration_order w.(mon).(heartbeatMessages) order1 →
  let w1 := (computeAllHeartbeatMessages order1 w).2 in
  let records := w1.(mon).(heartbeatMessages) in
  iteration_order records order2 →
  let r := GetHeartbeats order1 order2 w in
  r.2 = w1 ∧
  r.1 ≡ₚ (λ kv, toPubKeyHeartbeat kv.1 kv.2) <$> map_to_list records ∧
  length r.1 = size records ∧
  (∀ k v, records !! k = Some v →
     ∃ entry, entry ∈ r.1 ∧
       entry.(HexPublicKey) = hex_EncodeToString k ∧
       entry.(pkh_TotalUpTime) = int64_of_float64 (Seconds v.(totalUpTime)) ∧
       entry.(pkh_TotalDownTime) = int64_of_float64 (Seconds v.(totalDownTime)) ∧
       (- (2 ^ 24 * Second) < v.(totalUpTime) < 2 ^ 24 * Second →
        entry.(pkh_TotalUpTime) = v.(totalUpTime) `quot` Second) ∧
       (- (2 ^ 24 * Second) < v.(totalDownTime) < 2 ^ 24 * Second →
        entry.(pkh_TotalDownTime) = v.(totalDownTime) `quot` Second) ∧
       ∀ entry', entry' ∈ r.1 →
                 entry'.(HexPublicKey) = hex_EncodeToString k → entry' = entry) ∧
  StronglySorted ascendingHex r.1 ∧
  (∀ out, out ≡ₚ r.1 → StronglySorted ascendingHex out → out = r.1).
Proof.
  intros Horder1 w1 records Horder2 r. subst r. rewrite GetHeartbeats_unfold.
  fold w1. fold records. simpl.
  set (entries := (λ kv, toPubKeyHeartbeat kv.1 kv.2) <$> map_to_list records).
  set (out := sort_Slice _ _).
  assert (Hperm : out ≡ₚ entries).
  { unfold out, sort_Slice. rewrite merge_sort_Permutation.
    unfold entries. by rewrite (range_iteration_order records order2). }
  assert (Hnodup : NoDup (HexPublicKey <$> out)).
  { rewrite Hperm. apply NoDup_hex_entries. }
  assert (Hsorted : StronglySorted ascendingHex out).
  { apply StronglySorted_strict; [done|]. apply (StronglySorted_merge_sort _). }
  split_and!; [done|done| | |done|].
  - rewrite Hperm. unfold entries. by rewrite length_fmap, length_map_to_list.
  - intros k v Hk. exists (toPubKeyHeartbeat k v).
    split_and!; [|done..|apply Seconds_truncates|apply Seconds_truncates|].
    + rewrite Hperm. apply list_elem_of_fmap. exists (k, v). split; [done|].
      by apply elem_of_map_to_list.
    + intros entry' Hin Hhex. apply (NoDup_fmap_eq HexPublicKey out); [done..| |done].
      rewrite Hperm. apply list_elem_of_fmap. exists (k, v). split; [done|].
      by apply elem_of_map_to_list.
  - intros out' Hperm' Hsorted'.
    apply (StronglySorted_unique_strong ascendingHex); [|done..].
    intros x1 x2 _ _ H12 H21. destruct (ascendingHex_asymmetric _ _ H12 H21).
Qed.

(** ** What the operations change

    Every operation is followed through the fields the invariants speak
    of: the keys of the records, the slice of known peers, the trace, the
    pool and the configuration. *)

Lemma computePeerTypeAndShardID_frame pubkey w :
  ∃ e, (computePeerTypeAndShardID pubkey w).2 = set_ext e w.
Proof.
  unfold computePeerTypeAndShardID. unfold_M.
  destruct (ComputeForPubKey _ _ _) as [[err|[peerType shardID]] e]; simpl; by eexists.
Qed.

Lemma insert_is_Some {V} (m : gmap string V) k v k' :
  is_Some (<[k := v]> m !! k') ↔ k' = k ∨ is_Some (m !! k').
Proof.
  destruct (decide (k' = k)) as [->|Hne].
  - rewrite lookup_insert_eq. split; [by left|by eexists].
  - rewrite lookup_insert_ne by done. split; [by right|]. by intros [?|?].
Qed.

Lemma insert_existing_is_Some {V} (m : gmap string V) k v k' :
  is_Some (m !! k) → is_Some (<[k := v]> m !! k') ↔ is_Some (m !! k').
Proof.
  intros Hk. rewrite insert_is_Some. split; [|by right]. by intros [->|?].
Qed.

(** The first lock scope of [addHeartbeatMessageToMap]. *)
Lemma addHeartbeatMessageToMap_lookup_effect hb w :
  let r := addHeartbeatMessageToMap_lookup hb w in
  let m := w.(mon).(heartbeatMessages) in
  let m' := r.2.(mon).(heartbeatMessages) in
  r.2.(mon) = set_heartbeatMessages m' w.(mon) ∧
  r.2.(pool) = w.(pool) ∧
  r.2.(trace) = w.(trace) ++ [EvHeartbeat hb.(Pubkey)] ∧
  (∀ k, is_Some (m !! k) → is_Some (m' !! k)) ∧
  (∀ k, is_Some (m' !! k) → k = hb.(Pubkey) ∨ is_Some (m !! k)) ∧
  (r.1 = true ↔ is_Some (m' !! hb.(Pubkey))) ∧
  ((∀ peerType, checkNewHeartbeatMessageInfo w.(mon).(mon_maxDurationPeerUnresponsive)
                  peerType w.(mon).(mon_genesisTime) = None) →
   r.1 = true).
Proof.
  unfold addHeartbeatMessageToMap_lookup. unfold_M.
  destruct (heartbeatMessages (mon w) !! Pubkey hb) as [v|] eqn:Hv; simpl.
  { rewrite Hv. split_and!; try done; [by destruct (mon w)|by right]. }
  destruct (computePeerTypeAndShardID_frame (Pubkey hb)
             (set_trace (trace w ++ [EvHeartbeat (Pubkey hb)]) w)) as [e He].
  destruct (computePeerTypeAndShardID _ _) as [ps w1]. simpl in He. subst w1.
  unfold newHeartbeatMessageInfo.
  destruct (checkNewHeartbeatMessageInfo _ _ _) as [err|] eqn:Hcheck; simpl.
  - rewrite Hv. split_and!; try done; [by destruct (mon w)|by right|].
    intros Hok. by rewrite Hok in Hcheck.
  - rewrite lookup_insert_eq. split_and!; try done.
    + intros k Hk. apply insert_is_Some. by right.
    + intros k Hk. by apply insert_is_Some in Hk.
Qed.

Lemma sameConfiguration_refl m : sameConfiguration m m.
Proof. by repeat split. Qed.

(** A step that only replaces records of keys that have one, and adds the
    events [evs], none of which is a load, a heartbeat or a save of the
    known peers. *)
Lemma stepEffect_records w w' evs :
  w'.(mon) = set_heartbeatMessages w'.(mon).(heartbeatMessages) w.(mon) →
  (∀ k, is_Some (w'.(mon).(heartbeatMessages) !! k) ↔
        is_Some (w.(mon).(heartbeatMessages) !! k)) →
  w'.(trace) = w.(trace) ++ evs →
  Forall (λ ev, match ev with
                | EvSavePubkeyData _ _ | EvSetUInt64Value _ _ => True
                | _ => False
                end) evs →
  stepEffect w w' evs.
Proof.
  intros Hmon Hkeys Htrace Hevs. rewrite Forall_forall in Hevs.
  unfold stepEffect. split_and!.
  - rewrite Hmon. by repeat split.
  - done.
  - apply Forall_forall. intros ev Hev%Hevs. destruct ev; simpl in *; tauto.
  - intros k. apply Hkeys.
  - intros k Hk. left. by apply Hkeys.
  - intros _ k Hev%Hevs. done.
  - left. split; [by rewrite Hmon|]. intros ks Hev%Hevs. done.
Qed.

Lemma stepEffect_quiet w w' :
  w'.(mon) = w.(mon) → w'.(trace) = w.(trace) → stepEffect w w' [].
Proof.
  intros Hmon Htrace. apply stepEffect_records.
  - rewrite Hmon. by destruct (mon w).
  - by rewrite Hmon.
  - by rewrite app_nil_r.
  - constructor.
Qed.

Lemma ProcessReceivedMessage_frame message fromConnectedPeer w :
  let r := ProcessReceivedMessage message fromConnectedPeer w in
  r.2.(mon) = w.(mon) ∧ r.2.(trace) = w.(trace).
Proof.
  unfold ProcessReceivedMessage. destruct message as [message|]; [|done].
  destruct (Data message); [|done]. unfold_M.
  destruct (CanProcessMessage _ _ _ _) as [[err|] e1]; [done|]. simpl.
  destruct (CanProcessMessageOnTopic _ _ _ _) as [[err|] e2]; [done|]. simpl.
  by destruct (CreateHeartbeatFromP2PMessage _ _ _) as [[err|hb] e3].
Qed.

Lemma SetAppStatusHandler_effect ash w :
  stepEffect w (SetAppStatusHandler ash w).2 [].
Proof.
  destruct ash as [ash|]; simpl; [|by apply stepEffect_quiet].
  unfold stepEffect. simpl. rewrite app_nil_r.
  split_and!; try done; [by left|by intros _ k ?%elem_of_nil|].
  left. split; [done|]. by intros ks ?%elem_of_nil.
Qed.

Lemma computeAllLoop_same_keys order acc w k :
  is_Some ((computeAllLoop order acc w).2.(mon).(heartbeatMessages) !! k)
  ↔ is_Some (w.(mon).(heartbeatMessages) !! k).
Proof.
  revert acc w. induction order as [|key order IH]; intros acc w; [done|].
  rewrite computeAllLoop_cons.
  destruct (heartbeatMessages (mon w) !! key) as [v|] eqn:Hv; [|apply IH].
  simpl. rewrite IH. simpl. apply insert_existing_is_Some. by rewrite Hv.
Qed.

Lemma computeAllHeartbeatMessages_effect order w :
  ∃ evs, stepEffect w (computeAllHeartbeatMessages order w).2 evs.
Proof.
  destruct (computeAllHeartbeatMessages_unfold order w)
    as (Hmon & Hmon' & _ & Htrace & _).
  eexists. apply stepEffect_records; [done| |exact Htrace|].
  - intros k. rewrite Hmon. apply computeAllLoop_same_keys.
  - by repeat constructor.
Qed.

Lemma SaveMultipleHeartbeatMessageInfos_effect order w :
  ∃ evs, stepEffect w (SaveMultipleHeartbeatMessageInfos order w).2 evs.
Proof.
  destruct (SaveMultipleHeartbeatMessageInfos_saves order w)
    as (Hmon & _ & evs & Htrace & Hevs & _).
  exists evs. apply stepEffect_records; [|by rewrite Hmon|done|].
  - rewrite Hmon. by destruct (mon w).
  - eapply Forall_impl; [exact Hevs|]. by intros [].
Qed.

(** The second lock scope of [addHeartbeatMessageToMap]. *)
Lemma addHeartbeatMessageToMap_update_effect hb w :
  ∃ evs, stepEffect w (addHeartbeatMessageToMap_update hb w).2 evs.
Proof.
  unfold addHeartbeatMessageToMap_update, callHeartbeatReceived. unfold_M.
  destruct (computePeerTypeAndShardID_frame (Pubkey hb) w) as [e He].
  destruct (computePeerTypeAndShardID _ _) as [ps w1]. simpl in He. subst w1. simpl.
  destruct (heartbeatMessages (mon w) !! Pubkey hb) as [hbmi|] eqn:Hkey; simpl.
  - destruct (default _ _ e) as [now e1]. simpl. rewrite lookup_insert_eq.
    destruct (SavePubkeyData _ _ _ _) as [err e2]. simpl.
    eexists. apply stepEffect_records; simpl; [done| |done|by repeat constructor].
    intros k. apply insert_existing_is_Some. by rewrite Hkey.
  - rewrite Hkey. simpl. exists []. by apply stepEffect_quiet.
Qed.

Lemma isPeerInSlice_elem_of peers pubKey :
  isPeerInSlice peers pubKey = true ↔ pubKey ∈ peers.
Proof.
  induction peers as [|peer peers IH]; simpl.
  - split; [done|by intros ?%elem_of_nil].
  - rewrite elem_of_cons. case_bool_decide as Heq.
    + split; [by left|done].
    + rewrite IH. split; [by right|]. by intros [?|?].
Qed.

(** The third lock scope: [addPeerToFullPeersSlice]. *)
Lemma addPeerToFullPeersSlice_effect pubKey w :
  ∃ evs, stepEffect w (addPeerToFullPeersSlice pubKey w).2 evs.
Proof.
  unfold addPeerToFullPeersSlice, isPeerInFullPeersSlice. unfold_M.
  destruct (isPeerInSlice _ _) eqn:Hin; simpl.
  { exists []. by apply stepEffect_quiet. }
  destruct (SaveKeys _ _ _) as [err e]. simpl.
  exists [EvSaveKeys (fullPeersSlice (mon w) ++ [pubKey])].
  unfold stepEffect. simpl. split_and!; try done.
  - repeat constructor. by intros [].
  - by left.
  - intros _ k [[=]|[]%elem_of_nil]%elem_of_cons.
  - right. exists pubKey. split_and!; [|done|].
    + rewrite <-isPeerInSlice_elem_of. by rewrite Hin.
    + exists []. split; [done|]. by intros ks ?%elem_of_nil.
Qed.

Lemma addHeartbeatMessageToMap_lookup_stepEffect hb w :
  stepEffect w (addHeartbeatMessageToMap_lookup hb w).2 [EvHeartbeat hb.(Pubkey)].
Proof.
  destruct (addHeartbeatMessageToMap_lookup_effect hb w)
    as (Hmon & _ & Htrace & Hkeep & Hnew & Hfound & Haccepts).
  unfold stepEffect. split_and!; try done.
  - rewrite Hmon. by repeat split.
  - repeat constructor. by intros [].
  - intros k [->|?]%Hnew; [right; left|by left].
  - intros Hok k [[= ->]|[]%elem_of_nil]%elem_of_cons. by apply Hfound, Haccepts.
  - left. split; [by rewrite Hmon|].
    by intros ks [[=]|[]%elem_of_nil]%elem_of_cons.
Qed.

(** The effect of a step is about the monitor and the trace only. *)
Lemma stepEffect_ext w1 w1' w2 w2' evs :
  w2.(mon) = w1.(mon) → w2.(trace) = w1.(trace) →
  w2'.(mon) = w1'.(mon) → w2'.(trace) = w1'.(trace) →
  stepEffect w1 w1' evs → stepEffect w2 w2' evs.
Proof. unfold stepEffect. by intros -> -> -> ->. Qed.

Lemma runTask_effect t order w :
  ∃ evs, stepEffect w (runTask t order w).2 evs.
Proof.
  destruct t as [hb|hb|pubKey| |pubKeysToSave]; simpl.
  - exists [EvHeartbeat hb.(Pubkey)]. unfold_M.
    pose proof (addHeartbeatMessageToMap_lookup_stepEffect hb w) as Heff.
    destruct (addHeartbeatMessageToMap_lookup hb w) as [[] w1]; simpl in *; [|done].
    by eapply stepEffect_ext; [..|exact Heff].
  - unfold_M. destruct (addHeartbeatMessageToMap_update_effect hb w) as [evs Heff].
    exists evs. destruct (addHeartbeatMessageToMap_update hb w) as [[] w1]; simpl in *.
    by eapply stepEffect_ext; [..|exact Heff].
  - apply addPeerToFullPeersSlice_effect.
  - apply computeAllHeartbeatMessages_effect.
  - apply SaveMultipleHeartbeatMessageInfos_effect.
Qed.

(** Every step of the monitor has one of these effects. *)
Lemma step_stepEffect w w' : step w w' → ∃ evs, stepEffect w w' evs.
Proof.
  intros [w0 message fromConnectedPeer|w0 order1 order2 _ _|w0 ash|w0 i t order _ _|w0 e].
  - exists []. by apply stepEffect_quiet; apply ProcessReceivedMessage_frame.
  - rewrite GetHeartbeats_unfold. simpl. apply computeAllHeartbeatMessages_effect.
  - eexists. apply SetAppStatusHandler_effect.
  - destruct (runTask_effect t order (set_pool (delete i (pool w0)) w0)) as [evs Heff].
    exists evs. by eapply stepEffect_ext; [..|exact Heff].
  - exists []. by apply stepEffect_quiet.
Qed.

(** ** Construction and recovery *)

Lemma initializeHeartBeatForPK_effect pubkey shardId pubKeysToSave pubKeysMapCopy w :
  let r := initializeHeartBeatForPK pubkey shardId pubKeysToSave pubKeysMapCopy w in
  let m := w.(mon).(heartbeatMessages) in
  let m' := r.2.(mon).(heartbeatMessages) in
  r.2.(mon) = set_heartbeatMessages m' w.(mon) ∧
  r.2.(pool) = w.(pool) ∧
  (∃ found, r.2.(trace) = w.(trace) ++ [EvLoadHbmiDTO pubkey found]) ∧
  (r.1.1.1 = None → ∀ k, is_Some (m' !! k) ↔ k = pubkey ∨ is_Some (m !! k)).
Proof.
  unfold initializeHeartBeatForPK. unfold_M.
  pose proof (loadHbmiFromStorer_frame pubkey w) as (Hmon & Hpool & Htrace).
  destruct (loadHbmiFromStorer pubkey w) as [[err|hbmi] w1]; simpl in *.
  - destruct (computePeerTypeAndShardID_frame pubkey w1) as [e He].
    destruct (computePeerTypeAndShardID pubkey w1) as [ps w2]. simpl in He. subst w2.
    simpl.
    destruct (newHeartbeatMessageInfo _ _ _ _) as [err'|hbmi]; simpl;
      rewrite ?Hmon, ?Hpool, ?Htrace.
    + split_and!; [by destruct (mon w)|done|by eexists|done].
    + split_and!; [done|done|by eexists|]. intros _ k. apply insert_is_Some.
  - rewrite ?Hmon, ?Hpool, ?Htrace. split_and!; [done|done|by eexists|].
    intros _ k. apply insert_is_Some.
Qed.

Lemma initializeLoop_effect l pubKeysToSave pubKeysMapCopy w :
  let r := initializeLoop l pubKeysToSave pubKeysMapCopy w in
  let m := w.(mon).(heartbeatMessages) in
  let m' := r.2.(mon).(heartbeatMessages) in
  r.2.(mon) = set_heartbeatMessages m' w.(mon) ∧
  r.2.(pool) = w.(pool) ∧
  (∃ evs, r.2.(trace) = w.(trace) ++ evs ∧
          Forall (λ ev, ∃ k found, ev = EvLoadHbmiDTO k found ∧ k ∈ l.*2) evs) ∧
  (r.1.1.1 = None → ∀ k, is_Some (m' !! k) ↔ k ∈ l.*2 ∨ is_Some (m !! k)).
Proof.
  revert pubKeysToSave pubKeysMapCopy w.
  induction l as [|[shardId pubkey] l IH]; intros pubKeysToSave pubKeysMapCopy w.
  - simpl. split_and!; [by destruct (mon w)|done| |].
    + exists []. by rewrite app_nil_r.
    + intros _ k. split; [by right|]. by intros [?%elem_of_nil|?].
  - simpl. unfold_M.
    pose proof (initializeHeartBeatForPK_effect pubkey shardId pubKeysToSave pubKeysMapCopy w)
      as (Hmon & Hpool & [found Htrace] & Hkeys).
    destruct (initializeHeartBeatForPK _ _ _ _ w) as [[[[err|] toSave] copy] w1];
      simpl in *.
    + split_and!; [done|done| |done]. exists [EvLoadHbmiDTO pubkey found].
      split; [done|]. repeat constructor. exists pubkey, found. split; [done|]. left.
    + specialize (IH toSave copy w1). simpl in IH.
      destruct (initializeLoop l toSave copy w1) as [r w2]. simpl in *.
      destruct IH as (IHmon & IHpool & (evs & IHtrace & IHevs) & IHkeys).
      split_and!.
      * rewrite IHmon, Hmon. done.
      * by rewrite IHpool.
      * exists (EvLoadHbmiDTO pubkey found :: evs). split.
        -- by rewrite IHtrace, Htrace, <-app_assoc.
        -- constructor; [exists pubkey, found; split; [done|left]|].
           eapply Forall_impl; [exact IHevs|]. intros ev (k & b & -> & Hk).
           exists k, b. split; [done|]. by right.
      * intros Hok k. rewrite (IHkeys Hok), (Hkeys eq_refl), elem_of_cons. tauto.
Qed.

Lemma elem_of_shardKeyPairs pubKeysMap order k :
  iteration_order pubKeysMap order →
  k ∈ (shardKeyPairs pubKeysMap order).*2 ↔ inInitialAssignment pubKeysMap k.
Proof.
  intros Horder. unfold shardKeyPairs, inInitialAssignment.
  rewrite list_elem_of_fmap. setoid_rewrite list_elem_of_bind.
  setoid_rewrite (range_iteration_order pubKeysMap order Horder). split.
  - intros ([shardId k'] & -> & [shardId' pubKeys] & Hin & Hmap). simpl.
    apply list_elem_of_fmap in Hin as (k'' & Heq & Hk). simplify_eq.
    apply elem_of_map_to_list in Hmap. by eexists _, pubKeys.
  - intros (shardId & pubKeys & Hmap & Hk). exists (shardId, k). split; [done|].
    exists (shardId, pubKeys). split; [by apply list_elem_of_fmap_2|].
    by apply elem_of_map_to_list.
Qed.

Lemma initializeHeartbeatMessagesInfo_effect pubKeysMap order w :
  let r := initializeHeartbeatMessagesInfo pubKeysMap order w in
  let m := w.(mon).(heartbeatMessages) in
  let m' := r.2.(mon).(heartbeatMessages) in
  let l := shardKeyPairs pubKeysMap order in
  r.1 = None →
  (∃ copy, r.2.(mon) = set_pubKeysMap copy (set_heartbeatMessages m' w.(mon))) ∧
  (∃ evs, r.2.(trace) = w.(trace) ++ evs ∧
          Forall (λ ev, ∃ k found, ev = EvLoadHbmiDTO k found ∧ k ∈ l.*2) evs) ∧
  (∀ k, is_Some (m' !! k) ↔ k ∈ l.*2 ∨ is_Some (m !! k)).
Proof.
  unfold initializeHeartbeatMessagesInfo. unfold_M.
  pose proof (initializeLoop_effect (shardKeyPairs pubKeysMap order) ∅ ∅ w)
    as (Hmon & _ & Htrace & Hkeys).
  destruct (initializeLoop _ _ _ w) as [[[[err|] toSave] copy] w1]; simpl in *; [done|].
  intros _. split_and!; [|done|by apply Hkeys].
  exists copy. by rewrite Hmon.
Qed.

(** The loop of [loadRestOfPubKeysFromStorage] over the persisted keys. *)
Lemma loadRest_loop_effect (peersSlice : list string) w :
  let r := forEach peersSlice (λ pubKey,
             m <- getMon ;;
             match m.(heartbeatMessages) !! pubKey with
             | Some _ => ret tt
             | None =>
                 r <- loadHbmiFromStorer pubKey ;;
                 match r with
                 | inl _ => ret tt
                 | inr hbmi =>
                     updMon (λ m, set_heartbeatMessages
                                    (<[pubKey := hbmi]> m.(heartbeatMessages)) m)
                 end
             end) w in
  let m := w.(mon).(heartbeatMessages) in
  let m' := r.2.(mon).(heartbeatMessages) in
  r.2.(mon) = set_heartbeatMessages m' w.(mon) ∧
  r.2.(pool) = w.(pool) ∧
  ∃ evs, r.2.(trace) = w.(trace) ++ evs ∧
    Forall (λ ev, ∃ k found, ev = EvLoadHbmiDTO k found ∧ k ∈ peersSlice) evs ∧
    ∀ k, is_Some (m' !! k) ↔ is_Some (m !! k) ∨ EvLoadHbmiDTO k true ∈ evs.
Proof.
  revert w. induction peersSlice as [|pubKey peersSlice IH]; intros w.
  - simpl. split_and!; [by destruct (mon w)|done|].
    exists []. rewrite app_nil_r. split_and!; [done|constructor|].
    intros k. split; [by left|]. by intros [?|?%elem_of_nil].
  - simpl. unfold_M. destruct (heartbeatMessages (mon w) !! pubKey) as [v|] eqn:Hv.
    + specialize (IH w). simpl in IH.
      match goal with |- context [forEach peersSlice ?b w] =>
        destruct (forEach peersSlice b w) as [u w2] end.
      simpl in *. destruct IH as (IHmon & IHpool & evs & IHtrace & IHevs & IHkeys).
      split_and!; [done..|]. exists evs. split_and!; [done| |done].
      eapply Forall_impl; [exact IHevs|]. intros ev (k & b & -> & Hk).
      exists k, b. split; [done|]. by right.
    + pose proof (loadHbmiFromStorer_frame pubKey w) as (Hmon & Hpool & Htrace).
      destruct (loadHbmiFromStorer pubKey w) as [[err|hbmi] w1]; simpl in *.
      * specialize (IH w1). simpl in IH.
        match goal with |- context [forEach peersSlice ?b w1] =>
          destruct (forEach peersSlice b w1) as [u w2] end.
        simpl in *. destruct IH as (IHmon & IHpool & evs & IHtrace & IHevs & IHkeys).
        rewrite Hmon in IHmon, IHkeys. rewrite Hpool in IHpool. rewrite Htrace in IHtrace.
        split_and!; [done..|]. exists (EvLoadHbmiDTO pubKey false :: evs). split_and!.
        -- by rewrite IHtrace, <-app_assoc.
        -- constructor; [exists pubKey, false; split; [done|left]|].
           eapply Forall_impl; [exact IHevs|]. intros ev (k & b & -> & Hk).
           exists k, b. split; [done|]. by right.
        -- intros k. rewrite IHkeys, elem_of_cons. split; [tauto|].
           intros [?|[[=]|?]]; tauto.
      * match goal with |- context [forEach peersSlice ?b ?w2] =>
          specialize (IH w2); simpl in IH; destruct (forEach peersSlice b w2) as [u w3] end.
        simpl in *. destruct IH as (IHmon & IHpool & evs & IHtrace & IHevs & IHkeys).
        rewrite Hmon in IHmon, IHkeys. rewrite Hpool in IHpool. rewrite Htrace in IHtrace.
        split_and!; [done..|]. exists (EvLoadHbmiDTO pubKey true :: evs). split_and!.
        -- by rewrite IHtrace, <-app_assoc.
        -- constructor; [exists pubKey, true; split; [done|left]|].
           eapply Forall_impl; [exact IHevs|]. intros ev (k & b & -> & Hk).
           exists k, b. split; [done|]. by right.
        -- intros k. rewrite IHkeys, insert_is_Some, elem_of_cons. split.
           ++ intros [[->|?]|?]; [right; by left|by left|right; by right].
           ++ intros [?|[[= ->]|?]]; [left; by right|left; by left|by right].
Qed.

Lemma loadRestOfPubKeysFromStorage_effect w :
  let r := loadRestOfPubKeysFromStorage w in
  let m := w.(mon).(heartbeatMessages) in
  let m' := r.2.(mon).(heartbeatMessages) in
  r.2.(mon) = set_heartbeatMessages m' w.(mon) ∧
  r.2.(pool) = w.(pool) ∧
  ∃ keys evs, r.2.(trace) = w.(trace) ++ EvLoadKeys keys :: evs ∧
    Forall (λ ev, ∃ k found peersSlice,
                    ev = EvLoadHbmiDTO k found ∧ keys = Some peersSlice ∧ k ∈ peersSlice) evs ∧
    ∀ k, is_Some (m' !! k) ↔ is_Some (m !! k) ∨ EvLoadHbmiDTO k true ∈ evs.
Proof.
  unfold loadRestOfPubKeysFromStorage. unfold_M.
  destruct (LoadKeys _ _) as [[err|peersSlice] e]; simpl.
  - split_and!; [by destruct (mon w)|done|]. exists None, []. split_and!; [done|constructor|].
    intros k. split; [by left|]. by intros [?|?%elem_of_nil].
  - match goal with |- context [forEach peersSlice ?b ?w1] =>
      pose proof (loadRest_loop_effect peersSlice w1) as Hloop; simpl in Hloop;
      unfold_M; destruct (forEach peersSlice b w1) as [u w2] end.
    simpl in *. destruct Hloop as (Hmon & Hpool & evs & Htrace & Hevs & Hkeys).
    split_and!; [done..|]. exists (Some peersSlice), evs. split_and!.
    + by rewrite Htrace, <-app_assoc.
    + eapply Forall_impl; [exact Hevs|]. intros ev (k & b & -> & Hk).
      by exists k, b, peersSlice.
    + done.
Qed.

(** The monitor that [NewMonitor] returns: configured as asked, with no
    known peers yet, and with a record for exactly the keys of the role
    assignment and the keys found in storage; no heartbeat has been
    taken in. *)
Lemma NewMonitor_constructed
    marshalizer maxDurationPeerUnresponsive pubKeysMap genesisTime
    messageHandler storer peerTypeProvider timer antifloodHandler order e m e' tr pl :
  iteration_order pubKeysMap order →
  NewMonitor marshalizer maxDurationPeerUnresponsive pubKeysMap genesisTime
    messageHandler storer peerTypeProvider timer antifloodHandler order e
  = (Some m, None, (e', tr, pl)) →
  m.(mon_maxDurationPeerUnresponsive) = maxDurationPeerUnresponsive ∧
  m.(mon_genesisTime) = genesisTime ∧
  m.(fullPeersSlice) = [] ∧
  (∀ k, ¬ heartbeatReceived tr k) ∧
  (∀ peersSlice, EvSaveKeys peersSlice ∉ tr) ∧
  (∀ k, is_Some (m.(heartbeatMessages) !! k) ↔
        inInitialAssignment pubKeysMap k ∨ foundInStorage tr k).
Proof.
  intros Horder. unfold NewMonitor.
  destruct marshalizer as [marshalizer|]; [|done].
  destruct peerTypeProvider as [peerTypeProvider|]; [|done].
  case_bool_decide; [done|].
  destruct messageHandler as [messageHandler|]; [|done].
  destruct storer as [storer|]; [|done].
  destruct timer as [timer|]; [|done].
  destruct antifloodHandler as [antifloodHandler|]; [|done].
  unfold_M. destruct (UpdateGenesisTime _ _ _) as [[err|] e1]; simpl; [done|].
  match goal with |- context [initializeHeartbeatMessagesInfo pubKeysMap order ?w1] =>
    pose proof (initializeHeartbeatMessagesInfo_effect pubKeysMap order w1) as Hinit;
    simpl in Hinit;
    destruct (initializeHeartbeatMessagesInfo pubKeysMap order w1) as [[err|] w2] end;
    simpl in *; [done|].
  destruct (Hinit eq_refl) as ([copy Hmon2] & (evs1 & Htrace2 & Hevs1) & Hkeys2).
  pose proof (loadRestOfPubKeysFromStorage_effect w2)
    as (Hmon3 & _ & keys & evs2 & Htrace3 & Hevs2 & Hkeys3).
  destruct (loadRestOfPubKeysFromStorage w2) as [u w3]. simpl in *.
  intros [= <- <- <- <-]. rewrite Hmon3, Hmon2. simpl.
  rewrite Forall_forall in Hevs1, Hevs2.
  assert (Htr : ∀ ev, ev ∈ trace w3 ↔
            ev = EvUpdateGenesisTime genesisTime ∨ ev ∈ evs1 ∨ ev = EvLoadKeys keys ∨ ev ∈ evs2).
  { intros ev. rewrite Htrace3, Htrace2. rewrite !elem_of_app, !elem_of_cons. tauto. }
  split_and!; [done..| | |].
  - intros k. unfold heartbeatReceived. rewrite Htr.
    intros [?|[(? & ? & ? & _)%Hevs1|[?|(? & ? & ? & ? & _)%Hevs2]]]; done.
  - intros ks. rewrite Htr.
    intros [?|[(? & ? & ? & _)%Hevs1|[?|(? & ? & ? & ? & _)%Hevs2]]]; done.
  - intros k. rewrite Hkeys3, Hkeys2, (elem_of_shardKeyPairs _ _ _ Horder).
    rewrite lookup_empty. unfold foundInStorage. split.
    + intros [[?|[? [=]]]|Hev]; [by left|]. right.
      destruct (Hevs2 _ Hev) as (k' & b & peersSlice & [= <- <-] & -> & Hk).
      split; [apply Htr; tauto|]. exists peersSlice. split; [apply Htr; tauto|done].
    + intros [?|[Hload _]]; [left; by left|]. apply Htr in Hload.
      destruct Hload as [?|[Hev|[?|?]]]; [done| |done|by right].
      destruct (Hevs1 _ Hev) as (k' & b & [= <- <-] & Hk).
      left. left. by apply (elem_of_shardKeyPairs _ _ _ Horder).
Qed.

Lemma NewMonitor_settings
    marshalizer maxDurationPeerUnresponsive pubKeysMap genesisTime
    messageHandler storer peerTypeProvider timer antifloodHandler order e m e' tr pl :
  NewMonitor marshalizer maxDurationPeerUnresponsive pubKeysMap genesisTime
    messageHandler storer peerTypeProvider timer antifloodHandler order e
  = (Some m, None, (e', tr, pl)) →
  m.(fullPeersSlice) = [].
Proof.
  unfold NewMonitor.
  destruct marshalizer as [marshalizer|]; [|done].
  destruct peerTypeProvider as [peerTypeProvider|]; [|done].
  case_bool_decide; [done|].
  destruct messageHandler as [messageHandler|]; [|done].
  destruct storer as [storer|]; [|done].
  destruct timer as [timer|]; [|done].
  destruct antifloodHandler as [antifloodHandler|]; [|done].
  unfold_M. destruct (UpdateGenesisTime _ _ _) as [[err|] e1]; simpl; [done|].
  match goal with |- context [initializeHeartbeatMessagesInfo pubKeysMap order ?w1] =>
    pose proof (initializeHeartbeatMessagesInfo_effect pubKeysMap order w1) as Hinit;
    simpl in Hinit;
    destruct (initializeHeartbeatMessagesInfo pubKeysMap order w1) as [[err|] w2] end;
    simpl in *; [done|].
  destruct (Hinit eq_refl) as ([copy Hmon2] & _).
  pose proof (loadRestOfPubKeysFromStorage_effect w2) as (Hmon3 & _).
  destruct (loadRestOfPubKeysFromStorage w2) as [u w3]. simpl in *.
  intros [= <- <- <- <-]. by rewrite Hmon3, Hmon2.
Qed.

(** ** The invariants of the running monitor *)

(** What any number of steps adds up to. *)
Lemma reachable_effect w0 w :
  reachable w0 w →
  let m0 := w0.(mon).(heartbeatMessages) in
  let m := w.(mon).(heartbeatMessages) in
  sameConfiguration w0.(mon) w.(mon) ∧
  (∀ k, is_Some (m0 !! k) → is_Some (m !! k)) ∧
  w0.(mon).(fullPeersSlice) `prefix_of` w.(mon).(fullPeersSlice) ∧
  (NoDup w0.(mon).(fullPeersSlice) → NoDup w.(mon).(fullPeersSlice)) ∧
  ∃ evs, w.(trace) = w0.(trace) ++ evs ∧
    Forall (λ ev, ¬ isLoad ev) evs ∧
    (∀ k, is_Some (m !! k) → is_Some (m0 !! k) ∨ EvHeartbeat k ∈ evs) ∧
    (constructorAccepts w0.(mon) → ∀ k, EvHeartbeat k ∈ evs → is_Some (m !! k)).
Proof.
  unfold reachable. revert w. apply rtc_ind_r; [|intros w w' Hreach Hstep IH]; simpl.
  - split_and!; [apply sameConfiguration_refl|done|done|done|].
    exists []. rewrite app_nil_r. split_and!; [done|constructor|by left|].
    by intros _ k ?%elem_of_nil.
  - simpl in IH. destruct IH as (Hconf & Hkeep & Hprefix & Hnodup & evs & Htrace & Hevs & Hnew & Hhb).
    destruct (step_stepEffect _ _ Hstep)
      as (evs' & Hconf' & Htrace' & Hevs' & Hkeep' & Hnew' & Hhb' & Hpeers).
    assert (Haccepts : constructorAccepts (mon w0) → constructorAccepts (mon w)).
    { destruct Hconf as (Hdur & Hgen & _). unfold constructorAccepts.
      by rewrite Hdur, Hgen. }
    split_and!.
    + unfold sameConfiguration in *. destruct_and!. split_and!; congruence.
    + intros k Hk. by apply Hkeep', Hkeep.
    + destruct Hpeers as [[-> _]|(pubKey & _ & -> & _)]; [done|].
      etrans; [exact Hprefix|]. by apply prefix_app_r.
    + intros Hnd. specialize (Hnodup Hnd).
      destruct Hpeers as [[-> _]|(pubKey & Hnotin & -> & _)]; [done|].
      apply NoDup_app. split_and!; [done| |apply NoDup_singleton].
      intros x Hx ->%list_elem_of_singleton. done.
    + exists (evs ++ evs'). split_and!.
      * by rewrite Htrace', Htrace, <-app_assoc.
      * by apply Forall_app.
      * intros k [Hk|Hk]%Hnew'.
        -- destruct (Hnew k Hk) as [?|?]; [by left|]. right. apply elem_of_app. by left.
        -- right. apply elem_of_app. by right.
      * intros Hok k [Hk|Hk]%elem_of_app.
        -- by apply Hkeep', Hhb.
        -- by apply Hhb'; [apply Haccepts|].
Qed.



(** C9.  In every state that a monitor returned by [NewMonitor] goes
    through, no public key occurs twice in the slice of known peers; a
    step either leaves the slice as it is, and then saves no list of keys,
    or appends one key that was not in it, and then ends with the call
    that saves the whole new slice; and the slice of an earlier state is
    a prefix of the slice of every later one. *)
Theorem C9_known_peers_append_only
    marshalizer maxDurationPeerUnresponsive pubKeysMap genesisTime
    messageHandler storer peerTypeProvider timer antifloodHandler order e m e' tr pl w :
  NewMonitor marshalizer maxDurationPeerUnresponsive pubKeysMap genesisTime
    messageHandler storer peerTypeProvider timer antifloodHandler order e
  = (Some m, None, (e', tr, pl)) →
  reachable {| mon := m; ext := e'; trace := tr; pool := pl |} w →
  let peers := w.(mon).(fullPeersSlice) in
  NoDup peers ∧
  (∀ w', step w w' →
     let peers' := w'.(mon).(fullPeersSlice) in
     ∃ evs, w'.(trace) = w.(trace) ++ evs ∧
       ((peers' = peers ∧ ∀ peersSlice, EvSaveKeys peersSlice ∉ evs) ∨
        (∃ pubKey, (pubKey ∉ peers) ∧ peers' = peers ++ [pubKey] ∧
           ∃ evs0, evs = evs0 ++ [EvSaveKeys peers'] ∧
                   ∀ peersSlice, EvSaveKeys peersSlice ∉ evs0))) ∧
  (∀ w', reachable w w' → peers `prefix_of` w'.(mon).(fullPeersSlice)).
Proof.
  intros Hnew Hreach peers. subst peers.
  pose proof (NewMonitor_settings _ _ _ _ _ _ _ _ _ _ _ _ _ _ _ Hnew) as Hempty.
  destruct (reachable_effect _ _ Hreach) as (_ & _ & _ & Hnodup & _).
  simpl in *. split_and!.
  - apply Hnodup. rewrite Hempty. constructor.
  - intros w' Hstep.
    destruct (step_stepEffect _ _ Hstep) as (evs & _ & Htrace & _ & _ & _ & _ & Hpeers).
    by exists evs.
  - intros w' Hreach'. by destruct (reachable_effect _ _ Hreach') as (_ & _ & ? & _).
Qed.

(** * Further properties of the monitor *)

(** ** The persisted layout, from storage and back *)

(** X1.  A persisted record that is imported with
    [convertFromExportedStruct] and exported again with
    [convertToExportedStruct] is the persisted record it was, in every
    field and whatever threshold the import was given: instants that come
    from an [int64] of Unix nanoseconds always go back into one. *)
Theorem X1_import_then_export_is_identity (hbDTO : HeartbeatDTO) (maxDuration : Duration) :
  in_int64 hbDTO.(dto_TimeStamp) →
  in_int64 hbDTO.(dto_LastUptimeDowntime) →
  in_int64 hbDTO.(dto_GenesisTime) →
  convertToExportedStruct (convertFromExportedStruct hbDTO maxDuration) = hbDTO.
Proof.
  intros Hts Hlast Hgen. destruct hbDTO. unfold convertToExportedStruct. simpl in *.
  unfold UnixNano, Nanoseconds. rewrite !time_Unix_0, !wrap64_in_int64 by done.
  done.
Qed.

(** ** [NewMonitor]: the argument checks *)

(** X2.  [NewMonitor] checks its arguments in a fixed order and answers
    the first check that fails with that check's own error: the
    marshalizer, the peer type provider, the map of public keys, the
    message handler, the storer, the timer, the antiflood handler.  No
    collaborator has been called by then and no goroutine started. *)
Theorem X2_NewMonitor_first_failed_check
    marshalizer maxDurationPeerUnresponsive pubKeysMap genesisTime
    messageHandler storer peerTypeProvider timer antifloodHandler order e :
  let r := NewMonitor marshalizer maxDurationPeerUnresponsive pubKeysMap genesisTime
             messageHandler storer peerTypeProvider timer antifloodHandler order e in
  let rejected (err : Error) := r = (None, Some err, (e, [], [])) in
  (marshalizer = None → rejected ErrNilMarshalizer) ∧
  (is_Some marshalizer → peerTypeProvider = None → rejected ErrNilPeerTypeProvider) ∧
  (is_Some marshalizer → is_Some peerTypeProvider → pubKeysMap = ∅ →
     rejected ErrEmptyPublicKeysMap) ∧
  (is_Some marshalizer → is_Some peerTypeProvider → pubKeysMap ≠ ∅ →
     messageHandler = None → rejected ErrNilMessageHandler) ∧
  (is_Some marshalizer → is_Some peerTypeProvider → pubKeysMap ≠ ∅ →
     is_Some messageHandler → storer = None → rejected ErrNilHeartbeatStorer) ∧
  (is_Some marshalizer → is_Some peerTypeProvider → pubKeysMap ≠ ∅ →
     is_Some messageHandler → is_Some storer → timer = None → rejected ErrNilTimer) ∧
  (is_Some marshalizer → is_Some peerTypeProvider → pubKeysMap ≠ ∅ →
     is_Some messageHandler → is_Some storer → is_Some timer →
     antifloodHandler = None → rejected ErrNilAntifloodHandler).
Proof.
  intros r rejected. subst r rejected. unfold NewMonitor.
  assert (Hsize : pubKeysMap ≠ ∅ → bool_decide (size pubKeysMap = 0%nat) = false).
  { intros Hne. apply bool_decide_eq_false. by rewrite map_size_empty_iff. }
  split_and!.
  - by intros ->.
  - by intros [? ->] ->.
  - intros [? ->] [? ->] ->. by rewrite map_size_empty.
  - intros [? ->] [? ->] Hne ->. by rewrite Hsize.
  - intros [? ->] [? ->] Hne [? ->] ->. by rewrite Hsize.
  - intros [? ->] [? ->] Hne [? ->] [? ->] ->. by rewrite Hsize.
  - intros [? ->] [? ->] Hne [? ->] [? ->] [? ->] ->. by rewrite Hsize.
Qed.

(** ** Construction, step by step *)

(** The copy of the role assignment that [initializeHeartBeatForPK]
    builds, one key after the other. *)
Lemma initializeHeartBeatForPK_result pubkey shardId pubKeysToSave pubKeysMapCopy w :
  let r := initializeHeartBeatForPK pubkey shardId pubKeysToSave pubKeysMapCopy w in
  ∃ found,
    r.2.(trace) = w.(trace) ++ [EvLoadHbmiDTO pubkey found] ∧
    (r.1.1.1 = None →
       r.1.1.2 = (if found : bool then pubKeysToSave else pubKeysToSave ∪ {[pubkey]}) ∧
       r.1.2 = appendKey pubKeysMapCopy (shardId, pubkey)) ∧
    (is_Some r.1.1.1 → found = false ∧ r.2.(mon) = w.(mon)).
Proof.
  unfold initializeHeartBeatForPK. unfold_M.
  pose proof (loadHbmiFromStorer_frame pubkey w) as (Hmon & Hpool & Htrace).
  destruct (loadHbmiFromStorer pubkey w) as [[err|hbmi] w1]; simpl in *.
  - destruct (computePeerTypeAndShardID_frame pubkey w1) as [e He].
    destruct (computePeerTypeAndShardID pubkey w1) as [ps w2]. simpl in He. subst w2.
    simpl. exists false.
    destruct (newHeartbeatMessageInfo _ _ _ _) as [err'|hbmi]; simpl;
      rewrite ?Hmon, ?Htrace.
    + split_and!; [done|done|]. intros _. split; [done|]. by destruct (mon w).
    + split_and!; [done|done|]. by intros [? [=]].
  - exists true. rewrite ?Htrace. split_and!; [done|done|]. by intros [? [=]].
Qed.

Lemma initializeLoop_result l pubKeysToSave pubKeysMapCopy w :
  let r := initializeLoop l pubKeysToSave pubKeysMapCopy w in
  r.2.(pool) = w.(pool) ∧
  ∃ evs, r.2.(trace) = w.(trace) ++ evs ∧
    Forall (λ ev, ∃ k found, ev = EvLoadHbmiDTO k found ∧ k ∈ l.*2) evs ∧
    (r.1.1.1 = None →
       (∀ k, k ∈ r.1.1.2 ↔ k ∈ pubKeysToSave ∨ EvLoadHbmiDTO k false ∈ evs) ∧
       r.1.2 = foldl appendKey pubKeysMapCopy l).
Proof.
  revert pubKeysToSave pubKeysMapCopy w.
  induction l as [|[shardId pubkey] l IH]; intros pubKeysToSave pubKeysMapCopy w.
  - simpl. split; [done|]. exists []. rewrite app_nil_r. split_and!; [done|constructor|].
    intros _. split; [|done]. intros k. split; [by left|]. by intros [?|?%elem_of_nil].
  - simpl. unfold_M.
    pose proof (initializeHeartBeatForPK_result pubkey shardId pubKeysToSave pubKeysMapCopy w)
      as (found & Htrace & Hok & Herr).
    pose proof (initializeHeartBeatForPK_effect pubkey shardId pubKeysToSave pubKeysMapCopy w)
      as (_ & Hpool & _).
    destruct (initializeHeartBeatForPK _ _ _ _ w) as [[[[err|] toSave] copy] w1];
      simpl in *.
    + split; [done|]. exists [EvLoadHbmiDTO pubkey found]. split_and!; [done| |done].
      repeat constructor. exists pubkey, found. split; [done|]. left.
    + destruct (Hok eq_refl) as [-> ->].
      match goal with |- context [initializeLoop l ?a ?b w1] =>
        specialize (IH a b w1); simpl in IH; destruct (initializeLoop l a b w1) as [r w2] end.
      simpl in *. destruct IH as (IHpool & evs & IHtrace & IHevs & IHok).
      split; [by rewrite IHpool|].
      exists (EvLoadHbmiDTO pubkey found :: evs). split_and!.
      * by rewrite IHtrace, Htrace, <-app_assoc.
      * constructor; [exists pubkey, found; split; [done|left]|].
        eapply Forall_impl; [exact IHevs|]. intros ev (k & b & -> & Hk).
        exists k, b. split; [done|]. by right.
      * intros Hnone. destruct (IHok Hnone) as [Hsave Hcopy]. split; [|done].
        intros k. rewrite Hsave, elem_of_cons. destruct found.
        -- split; [tauto|]. intros [?|[[=]|?]]; tauto.
        -- rewrite elem_of_union, elem_of_singleton. split.
           ++ intros [[?| ->]|?]; [by left|right; by left|right; by right].
           ++ intros [?|[[= ->]|?]]; [left; by left|left; by right|by right].
Qed.

(** The loop of [loadRestOfPubKeysFromStorage] goes to storage only for the
    keys that have no record, and leaves the records there are as they
    are. *)
Lemma loadRest_loop_keeps (peersSlice : list string) w :
  let r := forEach peersSlice (λ pubKey,
             m <- getMon ;;
             match m.(heartbeatMessages) !! pubKey with
             | Some _ => ret tt
             | None =>
                 r <- loadHbmiFromStorer pubKey ;;
                 match r with
                 | inl _ => ret tt
                 | inr hbmi =>
                     updMon (λ m, set_heartbeatMessages
                                    (<[pubKey := hbmi]> m.(heartbeatMessages)) m)
                 end
             end) w in
  let m := w.(mon).(heartbeatMessages) in
  let m' := r.2.(mon).(heartbeatMessages) in
  m ⊆ m' ∧
  ∃ evs, r.2.(trace) = w.(trace) ++ evs ∧
    Forall (λ ev, ∃ k found, ev = EvLoadHbmiDTO k found ∧ m !! k = None) evs.
Proof.
  revert w. induction peersSlice as [|pubKey peersSlice IH]; intros w.
  - simpl. split; [done|]. exists []. rewrite app_nil_r. split; [done|constructor].
  - simpl. unfold_M. destruct (heartbeatMessages (mon w) !! pubKey) as [v|] eqn:Hv.
    + specialize (IH w). simpl in IH.
      match goal with |- context [forEach peersSlice ?b w] =>
        destruct (forEach peersSlice b w) as [u w2] end.
      done.
    + pose proof (loadHbmiFromStorer_frame pubKey w) as (Hmon & Hpool & Htrace).
      destruct (loadHbmiFromStorer pubKey w) as [[err|hbmi] w1]; simpl in *.
      * specialize (IH w1). simpl in IH.
        match goal with |- context [forEach peersSlice ?b w1] =>
          destruct (forEach peersSlice b w1) as [u w2] end.
        simpl in *. destruct IH as (IHsub & evs & IHtrace & IHevs).
        rewrite Hmon in IHsub, IHevs. rewrite Htrace in IHtrace.
        split; [done|]. exists (EvLoadHbmiDTO pubKey false :: evs). split.
        -- by rewrite IHtrace, <-app_assoc.
        -- constructor; [by exists pubKey, false|done].
      * match goal with |- context [forEach peersSlice ?b ?w2] =>
          specialize (IH w2); simpl in IH; destruct (forEach peersSlice b w2) as [u w3] end.
        simpl in *. destruct IH as (IHsub & evs & IHtrace & IHevs).
        rewrite Hmon in IHsub, IHevs. rewrite Htrace in IHtrace.
        split.
        -- etrans; [|exact IHsub]. by apply insert_subseteq.
        -- exists (EvLoadHbmiDTO pubKey true :: evs). split.
           ++ by rewrite IHtrace, <-app_assoc.
           ++ constructor; [by exists pubKey, true|].
              eapply Forall_impl; [exact IHevs|]. intros ev (k & b & -> & Hk).
              exists k, b. split; [done|].
              apply lookup_insert_None in Hk. tauto.
Qed.

Lemma initializeHeartbeatMessagesInfo_result keysMap order w :
  let r := initializeHeartbeatMessagesInfo keysMap order w in
  let l := shardKeyPairs keysMap order in
  ∃ evs, r.2.(trace) = w.(trace) ++ evs ∧
    Forall (λ ev, ∃ k found, ev = EvLoadHbmiDTO k found ∧ k ∈ l.*2) evs ∧
    (is_Some r.1 → r.2.(pool) = w.(pool)) ∧
    (r.1 = None →
       r.2.(mon).(pubKeysMap) = foldl appendKey ∅ l ∧
       ∃ pubKeysToSave,
         r.2.(pool) = w.(pool) ++ [GoSaveMultipleHeartbeatMessageInfos pubKeysToSave] ∧
         ∀ k, k ∈ pubKeysToSave ↔ EvLoadHbmiDTO k false ∈ evs).
Proof.
  unfold initializeHeartbeatMessagesInfo. unfold_M.
  pose proof (initializeLoop_result (shardKeyPairs keysMap order) ∅ ∅ w)
    as (Hpool & evs & Htrace & Hevs & Hok).
  destruct (initializeLoop _ _ _ w) as [[[[err|] toSave] copy] w1]; simpl in *.
  - exists evs. split_and!; [done..|]. done.
  - destruct (Hok eq_refl) as [Hsave ->].
    exists evs. split_and!; [done|done|by intros [? [=]]|]. intros _. split; [done|].
    exists toSave. split; [by rewrite Hpool|]. intros k. rewrite Hsave.
    split; [|by right]. by intros [?%elem_of_empty|?].
Qed.

(** [loadRestOfPubKeysFromStorage]: what it loads and what it leaves. *)
Lemma loadRestOfPubKeysFromStorage_keeps w :
  let r := loadRestOfPubKeysFromStorage w in
  let m := w.(mon).(heartbeatMessages) in
  let m' := r.2.(mon).(heartbeatMessages) in
  m ⊆ m' ∧
  ∃ keys evs, r.2.(trace) = w.(trace) ++ EvLoadKeys keys :: evs ∧
    Forall (λ ev, ∃ k found, ev = EvLoadHbmiDTO k found ∧ m !! k = None) evs ∧
    (keys = None → evs = [] ∧ r.2.(mon) = w.(mon)) ∧
    (∀ err e1, w.(mon).(storer).(LoadKeys) w.(ext) = (inl err, e1) →
               r.1 = Some err ∧ keys = None ∧ r.2.(ext) = e1) ∧
    (∀ peersSlice e1, w.(mon).(storer).(LoadKeys) w.(ext) = (inr peersSlice, e1) →
               r.1 = None ∧ keys = Some peersSlice).
Proof.
  unfold loadRestOfPubKeysFromStorage. unfold_M.
  destruct (LoadKeys _ _) as [[err|peersSlice] e] eqn:Hload; simpl.
  - split; [done|]. exists None, []. split_and!; [done|constructor|done| |done].
    by intros ? ? [= <- <-].
  - match goal with |- context [forEach peersSlice ?b ?w1] =>
      pose proof (loadRest_loop_keeps peersSlice w1) as Hloop; simpl in Hloop;
      unfold_M; destruct (forEach peersSlice b w1) as [u w2] end.
    simpl in *. destruct Hloop as (Hsub & evs & Htrace & Hevs).
    split; [done|]. exists (Some peersSlice), evs. split_and!; [|done|done|done|].
    + by rewrite Htrace, <-app_assoc.
    + by intros ? ? [= <- <-].
Qed.

(** A call of [NewMonitor] that gets past the checks of its arguments. *)
Lemma NewMonitor_checked
    marshalizer maxDurationPeerUnresponsive keysMap genesisTime
    messageHandler storer peerTypeProvider timer antifloodHandler order e r :
  NewMonitor marshalizer maxDurationPeerUnresponsive keysMap genesisTime
    messageHandler storer peerTypeProvider timer antifloodHandler order e = r →
  r.2.2 ≠ [] ∨ r.2.1.2 ≠ [] ∨ is_Some r.1.1 →
  ∃ marshalizer' messageHandler' storer' peerTypeProvider' timer' antifloodHandler',
    marshalizer = Some marshalizer' ∧ messageHandler = Some messageHandler' ∧
    storer = Some storer' ∧ peerTypeProvider = Some peerTypeProvider' ∧
    timer = Some timer' ∧ antifloodHandler = Some antifloodHandler' ∧
    keysMap ≠ ∅.
Proof.
  intros <-. unfold NewMonitor.
  assert (Hno : ∀ (err : Error),
            let r := (@None Monitor, Some err, (e, @nil Event, @nil Task)) in
            ¬ (r.2.2 ≠ [] ∨ r.2.1.2 ≠ [] ∨ is_Some r.1.1)).
  { intros err. simpl. intros [?|[?|[? [=]]]]; done. }
  destruct marshalizer as [marshalizer|]; [|by intros ?%Hno].
  destruct peerTypeProvider as [peerTypeProvider|]; [|by intros ?%Hno].
  case_bool_decide as Hsize; [by intros ?%Hno|].
  rewrite map_size_empty_iff in Hsize.
  destruct messageHandler as [messageHandler|]; [|by intros ?%Hno].
  destruct storer as [storer|]; [|by intros ?%Hno].
  destruct timer as [timer|]; [|by intros ?%Hno].
  destruct antifloodHandler as [antifloodHandler|]; [|by intros ?%Hno].
  intros _. by eexists _, _, _, _, _, _.
Qed.

(** The run of [NewMonitor] after the checks: the genesis time goes to
    storage, the keys of the role assignment are initialized, the rest of
    the known keys is loaded. *)
Lemma NewMonitor_run
    marshalizer maxDurationPeerUnresponsive keysMap genesisTime
    messageHandler storer peerTypeProvider timer antifloodHandler order e :
  iteration_order keysMap order →
  keysMap ≠ ∅ →
  let r := NewMonitor (Some marshalizer) maxDurationPeerUnresponsive keysMap genesisTime
             (Some messageHandler) (Some storer) (Some peerTypeProvider) (Some timer)
             (Some antifloodHandler) order e in
  let tr := r.2.1.2 in
  let pl := r.2.2 in
  (∀ err e1, storer.(UpdateGenesisTime) genesisTime e = (Some err, e1) →
     r = (None, Some err, (e1, [EvUpdateGenesisTime genesisTime], []))) ∧
  ∃ evs1, 
    Forall (λ ev, ∃ k found, ev = EvLoadHbmiDTO k found ∧ inInitialAssignment keysMap k)
      evs1 ∧
    ((is_Some r.1.2 ∧ r.1.1 = None ∧ pl = [] ∧
      (tr = [EvUpdateGenesisTime genesisTime] ∨
       tr = EvUpdateGenesisTime genesisTime :: evs1)) ∨
     (∃ m keys evs2 pubKeysToSave,
        r.1 = (Some m, None) ∧
        tr = EvUpdateGenesisTime genesisTime :: evs1 ++ EvLoadKeys keys :: evs2 ∧
        pl = [GoSaveMultipleHeartbeatMessageInfos pubKeysToSave] ∧
        Forall (λ ev, ∃ k found, ev = EvLoadHbmiDTO k found ∧
                                 ¬ inInitialAssignment keysMap k) evs2 ∧
        (keys = None → evs2 = []) ∧
        (∀ k, k ∈ pubKeysToSave ↔ EvLoadHbmiDTO k false ∈ evs1) ∧
        m.(pubKeysMap) = foldl appendKey ∅ (shardKeyPairs keysMap order))).
Proof.
  intros Horder Hne r tr pl. subst r tr pl. unfold NewMonitor.
  rewrite bool_decide_eq_false_2 by (by rewrite map_size_empty_iff).
  unfold_M.
  destruct (UpdateGenesisTime _ _ _) as [[err|] e1] eqn:Hgen; simpl.
  { split; [by intros ? ? [= <- <-]|]. exists []. split; [constructor|]. left.
    split_and!; [by eexists|done|done|by left]. }
  split; [done|].
  match goal with |- context [initializeHeartbeatMessagesInfo keysMap order ?w1] =>
    pose proof (initializeHeartbeatMessagesInfo_result keysMap order w1) as Hinit;
    pose proof (initializeHeartbeatMessagesInfo_effect keysMap order w1) as Heff;
    simpl in Hinit, Heff;
    destruct (initializeHeartbeatMessagesInfo keysMap order w1) as [[err|] w2] end;
    simpl in *.
  - destruct Hinit as (evs1 & Htrace & Hevs1 & Hpool & _). exists evs1. split.
    { eapply Forall_impl; [exact Hevs1|]. intros ev (k & b & -> & Hk).
      exists k, b. split; [done|]. by apply (elem_of_shardKeyPairs _ order). }
    left. rewrite Htrace, Hpool by (by eexists). split_and!; [by eexists|done|done|by right].
  - destruct Hinit as (evs1 & Htrace & Hevs1 & _ & Hok).
    destruct (Hok eq_refl) as (Hcopy & toSave & Hpool & Hsave).
    destruct (Heff eq_refl) as (_ & _ & Hkeys).
    pose proof (loadRestOfPubKeysFromStorage_keeps w2)
      as (Hsub & keys & evs2 & Htrace3 & Hevs2 & Hnone & _).
    pose proof (loadRestOfPubKeysFromStorage_effect w2) as (Hmon3 & Hpool3 & _).
    destruct (loadRestOfPubKeysFromStorage w2) as [u w3]. simpl in *.
    exists evs1. split.
    { eapply Forall_impl; [exact Hevs1|]. intros ev (k & b & -> & Hk).
      exists k, b. split; [done|]. by apply (elem_of_shardKeyPairs _ order). }
    right. exists (mon w3), keys, evs2, toSave. split_and!; [done| | | | |done|].
    + by rewrite Htrace3, Htrace.
    + by rewrite Hpool3, Hpool.
    + eapply Forall_impl; [exact Hevs2|]. intros ev (k & b & -> & Hk).
      exists k, b. split; [done|]. intros Hin.
      apply (elem_of_shardKeyPairs _ order) in Hin; [|done].
      assert (is_Some (heartbeatMessages (mon w2) !! k)) as [? Hsome]
        by (apply Hkeys; by left).
      congruence.
    + by intros [-> _]%Hnone.
    + by rewrite Hmon3.
Qed.

Lemma foldl_appendKey_keys (c : gmap Z (list string)) s keys :
  foldl appendKey c ((s,.) <$> keys) =
  match keys with [] => c | _ => <[s := default [] (c !! s) ++ keys]> c end.
Proof.
  revert c. induction keys as [|k keys IH]; intros c; [done|].
  simpl. rewrite IH. unfold appendKey. simpl. destruct keys as [|k' keys]; [done|].
  rewrite lookup_insert_eq, insert_insert_eq. simpl. by rewrite <-app_assoc.
Qed.

Lemma foldl_appendKey_shards (L : list (Z * list string)) (c : gmap Z (list string)) :
  NoDup L.*1 → (∀ s, s ∈ L.*1 → c !! s = None) →
  let c' := foldl appendKey c (L ≫= λ sk, (sk.1,.) <$> sk.2) in
  ∀ s, (s ∉ L.*1 → c' !! s = c !! s) ∧
       (∀ keys, (s, keys) ∈ L →
                c' !! s = match keys with [] => None | _ => Some keys end).
Proof.
  revert c. induction L as [|[s1 keys1] L IH]; intros c Hnodup Hfresh c' s; subst c'.
  - simpl. split; [done|]. by intros keys ?%elem_of_nil.
  - rewrite fmap_cons in Hnodup, Hfresh. rewrite fmap_cons, bind_cons.
    cbn [fst snd] in *. apply NoDup_cons in Hnodup as [Hs1 Hnodup].
    rewrite foldl_app, foldl_appendKey_keys.
    rewrite (Hfresh s1) by left. simpl.
    set (c1 := match keys1 with [] => c | _ => <[s1 := keys1]> c end).
    assert (Hc1 : ∀ s', s' ≠ s1 → c1 !! s' = c !! s').
    { intros s' Hne. subst c1. destruct keys1; [done|]. by rewrite lookup_insert_ne. }
    assert (Hc1' : c1 !! s1 = match keys1 with [] => None | _ => Some keys1 end).
    { subst c1. destruct keys1; [apply Hfresh; left|]. by rewrite lookup_insert_eq. }
    destruct (IH c1 Hnodup) with (s := s) as [IHout IHin].
    { intros s' Hs'. rewrite Hc1; [apply Hfresh; by right|]. by intros ->. }
    split.
    + intros Hnot. rewrite not_elem_of_cons in Hnot. destruct Hnot as [Hne Hnot].
      by rewrite IHout, Hc1.
    + intros keys [[= -> ->]|Hin]%elem_of_cons.
      * by rewrite IHout.
      * by apply IHin.
Qed.

Lemma shardKeyPairs_bind (keysMap : gmap Z (list string)) order :
  shardKeyPairs keysMap order = range keysMap order ≫= λ sk, (sk.1,.) <$> sk.2.
Proof.
  unfold shardKeyPairs. apply list_bind_ext; [|done]. by intros [s keys].
Qed.

Lemma range_fst {K V} `{Countable K} (m : gmap K V) order :
  iteration_order m order → (range m order).*1 = order.
Proof.
  intros Horder. unfold range.
  assert (Hall : ∀ k, k ∈ order → is_Some (m !! k))
    by (intros k; by apply iteration_order_elem_of).
  clear Horder. induction order as [|k order IH]; [done|]. simpl.
  destruct (Hall k) as [v ->]; [left|]. simpl. f_equal. apply IH.
  intros k' Hk'. apply Hall. by right.
Qed.

Lemma elem_of_range {K V} `{Countable K} (m : gmap K V) order k v :
  iteration_order m order → (k, v) ∈ range m order ↔ m !! k = Some v.
Proof.
  intros Horder. rewrite (range_iteration_order m order Horder).
  apply elem_of_map_to_list.
Qed.

(** The copy of the role assignment that the loops of
    [initializeHeartbeatMessagesInfo] build. *)
Lemma foldl_appendKey_shardKeyPairs (keysMap : gmap Z (list string)) order s :
  iteration_order keysMap order →
  foldl appendKey ∅ (shardKeyPairs keysMap order) !! s =
  match keysMap !! s with
  | Some (k :: keys) => Some (k :: keys)
  | _ => None
  end.
Proof.
  intros Horder. rewrite shardKeyPairs_bind.
  destruct (foldl_appendKey_shards (range keysMap order) ∅) with (s := s) as [Hout Hin].
  { rewrite range_fst by done. by eapply iteration_order_NoDup. }
  { intros s' _. apply lookup_empty. }
  destruct (keysMap !! s) as [keys|] eqn:Hs.
  - rewrite (Hin keys) by (by apply elem_of_range). by destruct keys.
  - rewrite Hout, lookup_empty; [done|]. rewrite range_fst by done.
    intros Hin'%(iteration_order_elem_of keysMap); [|done]. rewrite Hs in Hin'.
    by destruct Hin'.
Qed.

(** ** [NewMonitor]: what a call leaves behind *)


(** X4.  A failure of the storer's [LoadKeys] does not make [NewMonitor]
    fail: once the list of known keys has been asked for, the call returns
    a monitor; and when the list could not be loaded, the monitor has a
    record for the keys of the role assignment and for no other. *)
Theorem X4_NewMonitor_tolerates_LoadKeys_failure
    marshalizer maxDurationPeerUnresponsive keysMap genesisTime
    messageHandler storer peerTypeProvider timer antifloodHandler order e :
  iteration_order keysMap order →
  keysMap ≠ ∅ →
  let r := NewMonitor (Some marshalizer) maxDurationPeerUnresponsive keysMap genesisTime
             (Some messageHandler) (Some storer) (Some peerTypeProvider) (Some timer)
             (Some antifloodHandler) order e in
  (∀ keys, EvLoadKeys keys ∈ r.2.1.2 → is_Some r.1.1 ∧ r.1.2 = None) ∧
  (EvLoadKeys None ∈ r.2.1.2 →
     ∃ m, r.1.1 = Some m ∧
       ∀ k, is_Some (m.(heartbeatMessages) !! k) ↔ inInitialAssignment keysMap k).
Proof.
  intros Horder Hne.
  destruct (NewMonitor_run marshalizer maxDurationPeerUnresponsive keysMap genesisTime
              messageHandler storer peerTypeProvider timer antifloodHandler order e
              Horder Hne) as (_ & evs1 & Hevs1 & Hrun).
  cbv zeta.
  destruct (NewMonitor _ _ _ _ _ _ _ _ _ _ _) as [[om oerr] [[e' tr] pl]] eqn:Hreq.
  cbn [fst snd] in *. rewrite Forall_forall in Hevs1.
  destruct Hrun as [(_ & _ & _ & Htrace)
                   |(m & keys & evs2 & toSave & [= -> ->] & Htrace & _ & Hevs2 & Hnone & _)].
  - assert (Hno : ∀ keys, EvLoadKeys keys ∉ tr).
    { intros keys. destruct Htrace as [-> | ->].
      - by intros [[=]|[]%elem_of_nil]%elem_of_cons.
      - intros [[=]|Hin]%elem_of_cons. by destruct (Hevs1 _ Hin) as (? & ? & ? & _). }
    split; [by intros keys ?%Hno|]. by intros ?%Hno.
  - rewrite Forall_forall in Hevs2.
    split; [intros ? _; by eauto|].
    intros Hin. exists m. split; [done|].
    assert (keys = None) as ->.
    { rewrite Htrace in Hin. apply elem_of_cons in Hin as [[=]|Hin].
      apply elem_of_app in Hin as [Hin|Hin].
      - by destruct (Hevs1 _ Hin) as (? & ? & ? & _).
      - apply elem_of_cons in Hin as [[= <-]|Hin]; [done|].
        by destruct (Hevs2 _ Hin) as (? & ? & ? & _). }
    rewrite (Hnone eq_refl) in Htrace.
    destruct (NewMonitor_constructed _ _ _ _ _ _ _ _ _ _ _ _ _ _ _ Horder Hreq)
      as (_ & _ & _ & _ & _ & Hkeys).
    intros k. rewrite Hkeys. split; [|by left]. intros [?|[_ (ps & Hps & _)]]; [done|].
    rewrite Htrace in Hps. apply elem_of_cons in Hps as [[=]|Hps].
    apply elem_of_app in Hps as [Hps|Hps].
    + by destruct (Hevs1 _ Hps) as (? & ? & ? & _).
    + by apply elem_of_cons in Hps as [[=]|?%elem_of_nil].
Qed.

(** X5.  The monitor that [NewMonitor] returns holds its own copy of the
    role assignment: every shard that was given at least one key has the
    keys it was given, in the order given, and a shard that was given no
    key is not in the copy. *)
Theorem X5_NewMonitor_copies_the_role_assignment
    marshalizer maxDurationPeerUnresponsive keysMap genesisTime
    messageHandler storer peerTypeProvider timer antifloodHandler order e m e' tr pl :
  iteration_order keysMap order →
  NewMonitor marshalizer maxDurationPeerUnresponsive keysMap genesisTime
    messageHandler storer peerTypeProvider timer antifloodHandler order e
  = (Some m, None, (e', tr, pl)) →
  ∀ shardId,
    m.(pubKeysMap) !! shardId =
    match keysMap !! shardId with
    | Some (pubkey :: pubKeys) => Some (pubkey :: pubKeys)
    | _ => None
    end.
Proof.
  intros Horder Hnew shardId.
  destruct (NewMonitor_checked _ _ _ _ _ _ _ _ _ _ _ _ Hnew)
    as (? & ? & ? & ? & ? & ? & -> & -> & -> & -> & -> & -> & Hne).
  { right. right. by eexists. }
  match type of Hnew with NewMonitor (Some ?a) _ _ _ (Some ?b) (Some ?c) (Some ?d) (Some ?f)
                            (Some ?g) _ _ = _ =>
    destruct (NewMonitor_run a maxDurationPeerUnresponsive keysMap genesisTime
                b c d f g order e Horder Hne) as (_ & evs1 & _ & Hrun) end.
  rewrite Hnew in Hrun. simpl in Hrun.
  destruct Hrun as [([? [=]] & _)|(m' & ? & ? & ? & [= <-] & _ & _ & _ & _ & _ & ->)].
  by apply foldl_appendKey_shardKeyPairs.
Qed.

(** X6.  The goroutine that [NewMonitor] starts for
    [SaveMultipleHeartbeatMessageInfos] is the only one it starts, and it
    receives the records of exactly the keys of the role assignment that
    were not found in storage: the records created fresh. *)
Theorem X6_NewMonitor_saves_the_fresh_records
    marshalizer maxDurationPeerUnresponsive keysMap genesisTime
    messageHandler storer peerTypeProvider timer antifloodHandler order e m e' tr pl :
  iteration_order keysMap order →
  NewMonitor marshalizer maxDurationPeerUnresponsive keysMap genesisTime
    messageHandler storer peerTypeProvider timer antifloodHandler order e
  = (Some m, None, (e', tr, pl)) →
  ∃ pubKeysToSave,
    pl = [GoSaveMultipleHeartbeatMessageInfos pubKeysToSave] ∧
    (∀ k, k ∈ pubKeysToSave ↔
          inInitialAssignment keysMap k ∧ EvLoadHbmiDTO k false ∈ tr) ∧
    (∀ k, k ∈ pubKeysToSave → is_Some (m.(heartbeatMessages) !! k)) ∧
    (∀ k hbDTO, EvSavePubkeyData k hbDTO ∉ tr).
Proof.
  intros Horder Hnew.
  destruct (NewMonitor_checked _ _ _ _ _ _ _ _ _ _ _ _ Hnew)
    as (? & ? & ? & ? & ? & ? & -> & -> & -> & -> & -> & -> & Hne).
  { right. right. by eexists. }
  match type of Hnew with NewMonitor (Some ?a) _ _ _ (Some ?b) (Some ?c) (Some ?d) (Some ?f)
                            (Some ?g) _ _ = _ =>
    destruct (NewMonitor_run a maxDurationPeerUnresponsive keysMap genesisTime
                b c d f g order e Horder Hne) as (_ & evs1 & Hevs1 & Hrun) end.
  destruct (NewMonitor_constructed _ _ _ _ _ _ _ _ _ _ _ _ _ _ _ Horder Hnew)
    as (_ & _ & _ & _ & _ & Hkeys).
  rewrite Hnew in Hrun. simpl in Hrun. rewrite Forall_forall in Hevs1.
  destruct Hrun as [([? [=]] & _)
                   |(m' & keys & evs2 & toSave & [= <-] & -> & -> & Hevs2 & _ & Hsave & _)].
  rewrite Forall_forall in Hevs2.
  exists toSave. split_and!; [done| | |].
  - intros k. rewrite Hsave. split.
    + intros Hin. destruct (Hevs1 _ Hin) as (k' & b & [= <- <-] & Hk).
      split; [done|]. right. apply elem_of_app. by left.
    + intros [Hk [[=]|Hin]%elem_of_cons].
      apply elem_of_app in Hin as [Hin|Hin]; [done|].
      apply elem_of_cons in Hin as [[=]|Hin].
      by destruct (Hevs2 _ Hin) as (k' & b & [= <- <-] & ?).
  - intros k Hk%Hsave. apply Hkeys. left.
    by destruct (Hevs1 _ Hk) as (k' & b & [= <- <-] & ?).
  - intros k hbDTO [[=]|Hin]%elem_of_cons.
    apply elem_of_app in Hin as [Hin|Hin].
    + by destruct (Hevs1 _ Hin) as (? & ? & ? & _).
    + apply elem_of_cons in Hin as [[=]|Hin].
      by destruct (Hevs2 _ Hin) as (? & ? & ? & _).
Qed.

(** ** Loading from storage *)

(** X7.  A record that loads from storage keeps the shard ids, the version
    and the display name it was persisted with; its threshold, its clock
    and its genesis time are the monitor's, not the persisted ones; and
    its role is resolved anew, for the persisted computed shard, and is
    the observer role when the resolution fails.  The monitor itself is
    not changed by the load. *)
Theorem X7_reload_keeps_identity_and_resolves_role w pubKey hbmiDTO e1 t1 e2 :
  w.(mon).(storer).(LoadHbmiDTO) pubKey w.(ext) = (inr hbmiDTO, e1) →
  w.(mon).(timer).(Now) e1 = (t1, e2) →
  let resolved :=
    w.(mon).(peerTypeProvider).(ComputeForPubKeyInShard) pubKey
      hbmiDTO.(dto_ComputedShardID) e2 in
  let res := loadHbmiFromStorer pubKey w in
  ∃ r, res.1 = inr r ∧
    r.(receivedShardID) = hbmiDTO.(dto_ReceivedShardID) ∧
    r.(computedShardID) = hbmiDTO.(dto_ComputedShardID) ∧
    r.(versionNumber) = hbmiDTO.(dto_VersionNumber) ∧
    r.(nodeDisplayName) = hbmiDTO.(dto_NodeDisplayName) ∧
    r.(maxDurationPeerUnresponsive) = w.(mon).(mon_maxDurationPeerUnresponsive) ∧
    r.(getTimeHandler) = Some w.(mon).(timer).(Now) ∧
    r.(genesisTime) = w.(mon).(mon_genesisTime) ∧
    r.(peerType) = match resolved.1 with
                   | inl _ => ObserverList
                   | inr peerType => peerType
                   end ∧
    res.2.(ext) = resolved.2 ∧
    res.2.(mon) = w.(mon).
Proof.
  intros Hload Hnow resolved res. subst resolved res.
  unfold loadHbmiFromStorer, computePeerType. unfold_M.
  rewrite Hload; simpl. rewrite Hnow; simpl.
  destruct (dto_IsActive hbmiDTO); simpl;
    destruct (ComputeForPubKeyInShard _ _ _ _) as [[err|peerType] e3]; simpl;
    (eexists; split; [reflexivity|]); by split_and!.
Qed.

(** X8.  A key of the role assignment that storage does not have, when
    [newHeartbeatMessageInfo] accepts the configuration: the key gets a
    fresh record whose genesis time is the monitor's and whose computed
    shard is the one the peer type provider resolves for the key (shard 0
    when the resolution fails), not the shard under which the role
    assignment lists the key; that shard is where the key goes in the copy
    of the role assignment.  The record is put among those to save.  When
    [newHeartbeatMessageInfo] refuses, its error is returned and the
    monitor is as it was. *)
Theorem X8_fresh_record_at_construction
    pubkey shardId pubKeysToSave pubKeysMapCopy w err e1 resolved e2 :
  w.(mon).(storer).(LoadHbmiDTO) pubkey w.(ext) = (inl err, e1) →
  w.(mon).(peerTypeProvider).(ComputeForPubKey) pubkey e1 = (resolved, e2) →
  let peerType := match resolved with inl _ => ObserverList | inr ps => ps.1 end in
  let shard := match resolved with inl _ => 0 | inr ps => ps.2 end in
  let check := checkNewHeartbeatMessageInfo w.(mon).(mon_maxDurationPeerUnresponsive)
                 peerType w.(mon).(mon_genesisTime) in
  let r := initializeHeartBeatForPK pubkey shardId pubKeysToSave pubKeysMapCopy w in
  (check = None →
     r.1 = (None, pubKeysToSave ∪ {[pubkey]}, appendKey pubKeysMapCopy (shardId, pubkey)) ∧
     ∃ hbmi, r.2.(mon).(heartbeatMessages) = <[pubkey := hbmi]> w.(mon).(heartbeatMessages) ∧
       hbmi.(genesisTime) = w.(mon).(mon_genesisTime) ∧
       hbmi.(computedShardID) = shard) ∧
  (∀ err', check = Some err' →
     r.1 = (Some err', pubKeysToSave, pubKeysMapCopy) ∧ r.2.(mon) = w.(mon)).
Proof.
  intros Hload Hresolve peerType shard check r. subst peerType shard check r.
  unfold initializeHeartBeatForPK, loadHbmiFromStorer, computePeerTypeAndShardID,
    newHeartbeatMessageInfo.
  unfold_M. rewrite Hload. simpl. rewrite Hresolve. simpl.
  destruct resolved as [err0|[peerType shard]]; simpl;
    destruct (checkNewHeartbeatMessageInfo _ _ _) as [err'|]; simpl; split.
  all: try (by intros [=]).
  all: try (by intros ? [=]).
  all: try (intros ? [= <-]; split; [done|by destruct (mon w)]).
  all: intros _; split; [done|by eexists].
Qed.

(** X9.  [loadRestOfPubKeysFromStorage] never replaces a record: the
    records there are stay as they are, and storage is asked only for the
    keys of the persisted list that have no record yet.  When the list of
    keys itself does not load, the storer's error is returned and the
    monitor is as it was.  No goroutine is started. *)
Theorem X9_loadRest_never_overwrites w :
  let r := loadRestOfPubKeysFromStorage w in
  let m := w.(mon).(heartbeatMessages) in
  let m' := r.2.(mon).(heartbeatMessages) in
  (∀ k v, m !! k = Some v → m' !! k = Some v) ∧
  r.2.(pool) = w.(pool) ∧
  (∃ keys evs, r.2.(trace) = w.(trace) ++ EvLoadKeys keys :: evs ∧
     Forall (λ ev, ∃ k found, ev = EvLoadHbmiDTO k found ∧ m !! k = None ∧
                              ∃ peersSlice, keys = Some peersSlice ∧ k ∈ peersSlice) evs) ∧
  (∀ err e1, w.(mon).(storer).(LoadKeys) w.(ext) = (inl err, e1) →
     r.1 = Some err ∧ r.2.(mon) = w.(mon) ∧ r.2.(ext) = e1) ∧
  (∀ peersSlice e1, w.(mon).(storer).(LoadKeys) w.(ext) = (inr peersSlice, e1) →
     r.1 = None).
Proof.
  intros r m m'. subst r m m'.
  destruct (loadRestOfPubKeysFromStorage_keeps w)
    as (Hsub & keys & evs & Htrace & Hevs & Hnone & Herr & Hok).
  destruct (loadRestOfPubKeysFromStorage_effect w)
    as (_ & Hpool & keys' & evs' & Htrace' & Hevs' & _).
  rewrite Htrace in Htrace'. apply app_inv_head in Htrace'.
  injection Htrace' as <- <-.
  split_and!; [|done| | |].
  - intros k v Hk. by eapply lookup_weaken.
  - exists keys, evs. split; [done|]. rewrite Forall_forall in Hevs, Hevs'.
    apply Forall_forall. intros ev Hev.
    destruct (Hevs _ Hev) as (k & found & -> & Hk).
    destruct (Hevs' _ Hev) as (k' & found' & peersSlice & [= <- <-] & -> & Hin).
    exists k, found. split_and!; [done..|]. by exists peersSlice.
  - intros err e1 Hload. destruct (Herr _ _ Hload) as (-> & -> & ->).
    by destruct (Hnone eq_refl) as [_ ->].
  - intros peersSlice e1 Hload. by destruct (Hok _ _ Hload) as [-> _].
Qed.

(** ** Taking in a heartbeat *)

(** The second lock scope of [addHeartbeatMessageToMap], on a key that has
    a record: the record is replaced by its update, whose exported form is
    saved. *)
Lemma addHeartbeatMessageToMap_update_exact hb w v :
  w.(mon).(heartbeatMessages) !! hb.(Pubkey) = Some v →
  let w' := (addHeartbeatMessageToMap_update hb w).2 in
  ∃ v', w'.(mon) = set_heartbeatMessages (<[hb.(Pubkey) := v']> w.(mon).(heartbeatMessages))
                     w.(mon) ∧
        w'.(trace) = w.(trace) ++
          [EvSavePubkeyData hb.(Pubkey) (convertToExportedStruct v')] ∧
        w'.(pool) = w.(pool).
Proof.
  intros Hv. unfold addHeartbeatMessageToMap_update, callHeartbeatReceived. unfold_M.
  destruct (computePeerTypeAndShardID_frame (Pubkey hb) w) as [e He].
  destruct (computePeerTypeAndShardID _ _) as [ps w1]. simpl in He. subst w1. simpl.
  rewrite Hv. simpl. destruct (default _ _ e) as [now e1]. simpl.
  rewrite lookup_insert_eq. destruct (SavePubkeyData _ _ _ _) as [err e2]. simpl.
  by eexists.
Qed.

(** [addPeerToFullPeersSlice], exactly. *)
Lemma addPeerToFullPeersSlice_exact pubKey w :
  let w' := (addPeerToFullPeersSlice pubKey w).2 in
  let peers := w.(mon).(fullPeersSlice) in
  (pubKey ∈ peers → w' = w) ∧
  (pubKey ∉ peers →
     w'.(mon) = set_fullPeersSlice (peers ++ [pubKey]) w.(mon) ∧
     w'.(trace) = w.(trace) ++ [EvSaveKeys (peers ++ [pubKey])] ∧
     w'.(pool) = w.(pool) ∧
     w'.(ext) = (w.(mon).(storer).(SaveKeys) (peers ++ [pubKey]) w.(ext)).2).
Proof.
  unfold addPeerToFullPeersSlice, isPeerInFullPeersSlice. unfold_M.
  destruct (isPeerInSlice _ _) eqn:Hin; simpl.
  - split; [done|]. intros Hnot. contradict Hnot. by apply isPeerInSlice_elem_of.
  - split.
    + intros Hyes%isPeerInSlice_elem_of. congruence.
    + intros _. by destruct (SaveKeys _ _ _) as [err e].
Qed.

(** X10.  A heartbeat whose sender has a record, or can be given one: when
    [addHeartbeatMessageToMap] has run, the sender has a record, the
    records of all other keys are as they were, what was saved for the
    sender is the exported form of the record as it now is in the map,
    and the sender is among the known peers; the list of known peers was
    saved if and only if the sender was not yet in it. *)
Theorem X10_heartbeat_is_recorded_saved_and_known hb w :
  let pubKey := hb.(Pubkey) in
  let records := w.(mon).(heartbeatMessages) in
  let peers := w.(mon).(fullPeersSlice) in
  is_Some (records !! pubKey) ∨
  (∀ peerType,
     checkNewHeartbeatMessageInfo w.(mon).(mon_maxDurationPeerUnresponsive) peerType
       w.(mon).(mon_genesisTime) = None) →
  let w' := (addHeartbeatMessageToMap hb w).2 in
  ∃ v',
    w'.(mon).(heartbeatMessages) !! pubKey = Some v' ∧
    (∀ k, k ≠ pubKey → w'.(mon).(heartbeatMessages) !! k = records !! k) ∧
    w'.(mon).(fullPeersSlice) = (if decide (pubKey ∈ peers) then peers else peers ++ [pubKey]) ∧
    w'.(trace) = w.(trace) ++
      [EvHeartbeat pubKey; EvSavePubkeyData pubKey (convertToExportedStruct v')] ++
      (if decide (pubKey ∈ peers) then [] else [EvSaveKeys (peers ++ [pubKey])]) ∧
    w'.(pool) = w.(pool) ∧
    sameConfiguration w.(mon) w'.(mon).
Proof.
  intros pubKey records peers Hcan w'. subst w'. unfold addHeartbeatMessageToMap. unfold_M.
  pose proof (addHeartbeatMessageToMap_lookup_effect hb w)
    as (Hmon1 & Hpool1 & Htrace1 & Hkeep1 & Hnew1 & Hfound1 & Haccepts1).
  assert (Hothers1 : ∀ k, k ≠ pubKey →
            (addHeartbeatMessageToMap_lookup hb w).2.(mon).(heartbeatMessages) !! k
            = records !! k).
  { intros k Hne. unfold addHeartbeatMessageToMap_lookup. unfold_M.
    fold pubKey records. destruct (records !! pubKey); simpl; [done|].
    destruct (computePeerTypeAndShardID_frame pubKey
                (set_trace (trace w ++ [EvHeartbeat pubKey]) w)) as [e He].
    destruct (computePeerTypeAndShardID _ _) as [ps w1]. simpl in He. subst w1.
    destruct (newHeartbeatMessageInfo _ _ _ _); simpl; [done|].
    by rewrite lookup_insert_ne. }
  destruct (addHeartbeatMessageToMap_lookup hb w) as [found w1]. simpl in *.
  assert (found = true) as ->.
  { destruct Hcan as [Hsome|Hok]; [|by apply Haccepts1].
    apply Hfound1, Hkeep1, Hsome. }
  destruct (proj1 Hfound1 eq_refl) as [v1 Hv1].
  pose proof (addHeartbeatMessageToMap_update_exact hb w1 v1 Hv1)
    as (v' & Hmon2 & Htrace2 & Hpool2).
  destruct (addHeartbeatMessageToMap_update hb w1) as [[] w2]. simpl in *.
  pose proof (addPeerToFullPeersSlice_exact (Pubkey hb) w2) as [Hin3 Hnot3].
  set (w3 := (addPeerToFullPeersSlice (Pubkey hb) w2).2) in *. clearbody w3.
  fold pubKey in Hin3, Hnot3.
  assert (Hpeers2 : fullPeersSlice (mon w2) = peers) by (by rewrite Hmon2, Hmon1).
  rewrite Hpeers2 in Hin3, Hnot3.
  assert (Hrec2 : heartbeatMessages (mon w2) = <[pubKey := v']> (heartbeatMessages (mon w1)))
    by (by rewrite Hmon2).
  assert (Hconf2 : sameConfiguration (mon w) (mon w2)).
  { rewrite Hmon2, Hmon1. by repeat split. }
  exists v'. destruct (decide (pubKey ∈ peers)) as [Hin|Hnot].
  - rewrite (Hin3 Hin). rewrite Hrec2, Htrace2, Htrace1, Hpool2, Hpool1.
    split_and!; [by rewrite lookup_insert_eq| |done|by rewrite <-app_assoc|done|done].
    intros k Hne. rewrite lookup_insert_ne by done. by apply Hothers1.
  - destruct (Hnot3 Hnot) as (-> & -> & -> & _). simpl.
    rewrite Hrec2, Htrace2, Htrace1, Hpool2, Hpool1.
    split_and!; [by rewrite lookup_insert_eq| |done|by rewrite <-!app_assoc|done|].
    + intros k Hne. rewrite lookup_insert_ne by done. by apply Hothers1.
    + unfold sameConfiguration in *. simpl. done.
Qed.

(** X11.  A heartbeat of a sender that has no record and for which
    [newHeartbeatMessageInfo] fails is dropped: [addHeartbeatMessageToMap]
    returns with the monitor as it was, records and known peers included,
    and with nothing saved. *)
Theorem X11_heartbeat_is_dropped_when_no_record_can_be_made hb w :
  w.(mon).(heartbeatMessages) !! hb.(Pubkey) = None →
  (∀ peerType,
     is_Some (checkNewHeartbeatMessageInfo w.(mon).(mon_maxDurationPeerUnresponsive)
                peerType w.(mon).(mon_genesisTime))) →
  let w' := (addHeartbeatMessageToMap hb w).2 in
  w'.(mon) = w.(mon) ∧
  w'.(trace) = w.(trace) ++ [EvHeartbeat hb.(Pubkey)] ∧
  w'.(pool) = w.(pool).
Proof.
  intros Hnone Hrejects. unfold addHeartbeatMessageToMap, addHeartbeatMessageToMap_lookup.
  unfold_M. rewrite Hnone. simpl.
  destruct (computePeerTypeAndShardID_frame (Pubkey hb)
              (set_trace (trace w ++ [EvHeartbeat (Pubkey hb)]) w)) as [e He].
  destruct (computePeerTypeAndShardID _ _) as [ps w1]. simpl in He. subst w1.
  unfold newHeartbeatMessageInfo. simpl.
  by destruct (Hrejects ps.1) as [err ->].
Qed.

(** X12.  After [addPeerToFullPeersSlice] a key is among the known peers
    if and only if it is the key added or was among them before; a key
    that is already known changes nothing at all, so that adding a key a
    second time is without effect; a new key goes to the end of the slice
    and the whole new slice is saved. *)
Theorem X12_addPeerToFullPeersSlice_is_idempotent pubKey w :
  let w' := (addPeerToFullPeersSlice pubKey w).2 in
  (∀ k, isPeerInFullPeersSlice w'.(mon) k =
        bool_decide (k = pubKey) || isPeerInFullPeersSlice w.(mon) k) ∧
  (isPeerInFullPeersSlice w.(mon) pubKey = true → w' = w) ∧
  (addPeerToFullPeersSlice pubKey w').2 = w' ∧
  (isPeerInFullPeersSlice w.(mon) pubKey = false →
     w'.(mon).(fullPeersSlice) = w.(mon).(fullPeersSlice) ++ [pubKey] ∧
     w'.(trace) = w.(trace) ++ [EvSaveKeys w'.(mon).(fullPeersSlice)]).
Proof.
  intros w'. subst w'.
  pose proof (addPeerToFullPeersSlice_exact pubKey w) as [Hin Hnot].
  unfold isPeerInFullPeersSlice in *.
  destruct (isPeerInSlice (fullPeersSlice (mon w)) pubKey) eqn:Hknown.
  - apply isPeerInSlice_elem_of in Hknown as Hknown'. rewrite (Hin Hknown').
    split_and!; [|done|by rewrite (Hin Hknown')|done].
    intros k. case_bool_decide as Hk; [|done]. by subst k.
  - assert (pubKey ∉ fullPeersSlice (mon w)) as Hnot'.
    { rewrite <-isPeerInSlice_elem_of. by rewrite Hknown. }
    destruct (Hnot Hnot') as (Hmon & Htrace & _).
    split_and!; [|done| |].
    + intros k. rewrite Hmon. simpl.
      apply eq_true_iff_eq. rewrite orb_true_iff, bool_decide_eq_true.
      rewrite !isPeerInSlice_elem_of, elem_of_app, list_elem_of_singleton. tauto.
    + pose proof (addPeerToFullPeersSlice_exact pubKey
                    (addPeerToFullPeersSlice pubKey w).2) as [Hin2 _].
      apply Hin2. rewrite Hmon. simpl. apply elem_of_app. right. by left.
    + intros _. by rewrite Htrace, Hmon.
Qed.

(** ** The aggregation pass, further *)

Lemma length_filter_andb {A} (P Q : A → bool) (l : list A) :
  (length (filter (λ x, P x && Q x = true) l) ≤ length (filter (λ x, P x = true) l))%nat.
Proof.
  induction l as [|x l IH]; [done|]. rewrite !filter_cons.
  destruct (P x) eqn:HP, (Q x) eqn:HQ; simpl;
    repeat (first [rewrite decide_True by done|rewrite decide_False by done]);
    simpl; lia.
Qed.

Lemma length_filter_snd {A B} (P : B → bool) (l : list (A * B)) :
  length (filter (λ kv, P kv.2 = true) l) = length (filter (λ v, P v = true) l.*2).
Proof.
  induction l as [|[k v] l IH]; [done|]. rewrite fmap_cons, !filter_cons.
  simpl. destruct (decide (P v = true)); simpl; by rewrite IH.
Qed.

Lemma length_range {K V} `{Countable K} (m : gmap K V) order :
  iteration_order m order → length (range m order) = size m.
Proof.
  intros Horder. rewrite (range_iteration_order m order Horder).
  apply length_map_to_list.
Qed.

(** X13.  The two counters an aggregation pass publishes are never
    negative, the number of live validator nodes is at most the number of
    connected nodes, and that is at most the number of records, which the
    pass does not change. *)
Theorem X13_published_counters_are_bounded w order :
  iteration_order w.(mon).(heartbeatMessages) order →
  let w' := (computeAllHeartbeatMessages order w).2 in
  ∃ liveValidators connected,
    w'.(trace) = w.(trace) ++
      [EvSetUInt64Value MetricLiveValidatorNodes liveValidators;
       EvSetUInt64Value MetricConnectedNodes connected] ∧
    0 ≤ liveValidators ≤ connected ∧
    connected ≤ Z.of_nat (size w'.(mon).(heartbeatMessages)) ∧
    size w'.(mon).(heartbeatMessages) = size w.(mon).(heartbeatMessages).
Proof.
  intros Horder w'. subst w'.
  pose proof (iteration_order_NoDup _ _ Horder) as Hnodup.
  pose proof (computeAllHeartbeatMessages_same_keys order w Hnodup) as Hkeys.
  pose proof (iteration_order_same_keys _ _ _ Hkeys Horder) as Horder'.
  destruct (computeAllHeartbeatMessages_unfold order w) as (Hmon & _ & _ & Htrace & _).
  match type of Hmon with context [computeAllLoop order ?a w] =>
    pose proof (computeAllLoop_tally order a w Hnodup) as (_ & Hcn & Hcv) end.
  simpl in *. rewrite <-Hmon in Hcn, Hcv. rewrite Z.add_0_l in Hcn, Hcv.
  eexists _, _. split; [exact Htrace|]. rewrite Hcn, Hcv.
  pose proof (length_filter_andb GetIsActive GetIsValidator
                (snd <$> range (heartbeatMessages (mon (computeAllHeartbeatMessages order w).2))
                           order)) as Hle.
  set (l := range _ order) in *.
  rewrite (length_filter_snd GetIsActive),
    (length_filter_snd (λ v, GetIsActive v && GetIsValidator v)).
  pose proof (length_filter (λ v, GetIsActive v = true) (snd <$> l)) as Hlen.
  rewrite length_fmap in Hlen. unfold l in Hlen. rewrite length_range in Hlen by done.
  split_and!; [lia|apply Nat2Z.inj_le; exact Hle|apply Nat2Z.inj_le; exact Hlen|].
  rewrite <-!(size_dom (D := gset string)). f_equal. apply set_eq. intros k.
  rewrite !elem_of_dom. apply Hkeys.
Qed.

(** The loop of the pass does not read the status handler. *)
Lemma computeAllLoop_handler ash order acc w :
  let r := computeAllLoop order acc w in
  computeAllLoop order acc (set_mon (set_appStatusHandler ash w.(mon)) w) =
    (r.1, set_mon (set_appStatusHandler ash r.2.(mon)) r.2).
Proof.
  revert acc w. induction order as [|key order IH]; intros acc w; [done|].
  rewrite !computeAllLoop_cons. simpl.
  destruct (heartbeatMessages (mon w) !! key) as [v|]; [|apply IH].
  simpl. match goal with |- context [computeAllLoop order ?a (set_mon ?m ?w0)] =>
    match goal with |- context [computeAllLoop order a ?w1 = _] =>
      specialize (IH a (set_mon (set_heartbeatMessages
                                   (<[key := ComputeActive (Now (timer (mon w)) (ext w)).1 v]>
                                      (heartbeatMessages (mon w))) (mon w))
                          (set_ext (Now (timer (mon w)) (ext w)).2 w))) end end.
  simpl in IH. exact IH.
Qed.

(** X14.  [SetAppStatusHandler] rejects a nil handler with
    [ErrNilAppStatusHandler] and changes nothing; given a handler, it
    replaces the one in use and nothing else.  The pass that follows
    evaluates the records as it would have without the call, and
    publishes its two counters to the new handler. *)
Theorem X14_SetAppStatusHandler_redirects_the_counters w ash order :
  let w1 := (SetAppStatusHandler (Some ash) w).2 in
  let pass := (computeAllHeartbeatMessages order w).2 in
  let pass1 := (computeAllHeartbeatMessages order w1).2 in
  SetAppStatusHandler None w = (Some ErrNilAppStatusHandler, w) ∧
  (SetAppStatusHandler (Some ash) w).1 = None ∧
  w1 = set_mon (set_appStatusHandler ash w.(mon)) w ∧
  pass1.(mon).(heartbeatMessages) = pass.(mon).(heartbeatMessages) ∧
  pass1.(mon).(appStatusHandler) = ash ∧
  pass1.(trace) = pass.(trace) ∧
  pass1.(pool) = pass.(pool) ∧
  ∃ liveValidators connected e,
    pass1.(trace) = w.(trace) ++
      [EvSetUInt64Value MetricLiveValidatorNodes liveValidators;
       EvSetUInt64Value MetricConnectedNodes connected] ∧
    pass1.(ext) =
      ash.(SetUInt64Value) MetricConnectedNodes connected
        (ash.(SetUInt64Value) MetricLiveValidatorNodes liveValidators e).
Proof.
  intros w1 pass pass1. subst w1 pass pass1. simpl.
  destruct (computeAllHeartbeatMessages_unfold order w)
    as (Hmon & _ & Hpool & Htrace & _).
  destruct (computeAllHeartbeatMessages_unfold order
              (set_mon (set_appStatusHandler ash (mon w)) w))
    as (Hmon1 & Hmon1' & Hpool1 & Htrace1 & Hext1).
  rewrite computeAllLoop_handler in Hmon1, Hpool1, Htrace1, Hext1. simpl in *.
  split_and!; [done|done|done| | | | |].
  - by rewrite Hmon1, Hmon.
  - by rewrite Hmon1.
  - by rewrite Htrace1, Htrace.
  - by rewrite Hpool1, Hpool.
  - by eexists _, _, _.
Qed.

(** ** Persisting records *)


(** ** The order of a snapshot *)

Lemma hexDigit_compare n m :
  (n < 16)%N → (m < 16)%N → Ascii.compare (hexDigit n) (hexDigit m) = (n ?= m)%N.
Proof.
  intros Hn Hm. rewrite <-(N2Nat.id n), <-(N2Nat.id m).
  assert (Hkn : (N.to_nat n < 16)%nat) by lia.
  assert (Hkm : (N.to_nat m < 16)%nat) by lia.
  revert Hkn Hkm. generalize (N.to_nat n) (N.to_nat m). clear. intros kn km Hkn Hkm.
  do 16 (destruct kn as [|kn];
    [do 16 (destruct km as [|km]; [by vm_compute|]); lia|]).
  lia.
Qed.

Lemma N_compare_div_mod (n m : N) :
  match (n / 16 ?= m / 16)%N with
  | Eq => (n `mod` 16 ?= m `mod` 16)%N
  | c => c
  end = (n ?= m)%N.
Proof.
  pose proof (N.div_mod n 16 ltac:(done)) as Hn.
  pose proof (N.div_mod m 16 ltac:(done)) as Hm.
  pose proof (N.mod_lt n 16 ltac:(done)). pose proof (N.mod_lt m 16 ltac:(done)).
  set (qn := (n / 16)%N) in *. set (rn := (n `mod` 16)%N) in *.
  set (qm := (m / 16)%N) in *. set (rm := (m `mod` 16)%N) in *.
  clearbody qn rn qm rm.
  destruct (N.compare_spec qn qm) as [Hq|Hq|Hq].
  - destruct (N.compare_spec rn rm);
      symmetry; [apply N.compare_eq_iff|apply N.compare_lt_iff|apply N.compare_gt_iff]; lia.
  - symmetry. apply N.compare_lt_iff. lia.
  - symmetry. apply N.compare_gt_iff. lia.
Qed.

(** [hex.EncodeToString] keeps the order of [strings.Compare]. *)
Lemma strings_Compare_hex a b :
  strings_Compare (hex_EncodeToString a) (hex_EncodeToString b) = strings_Compare a b.
Proof.
  unfold strings_Compare.
  assert (String.compare (hex_EncodeToString a) (hex_EncodeToString b) = String.compare a b)
    as ->; [|done].
  revert b. induction a as [|c1 a IH]; intros [|c2 b]; simpl; try done.
  rewrite IH.
  assert (N_of_ascii c1 < 256)%N by apply N_ascii_bounded.
  assert (N_of_ascii c2 < 256)%N by apply N_ascii_bounded.
  rewrite !hexDigit_compare
    by first [apply N.Div0.div_lt_upper_bound; lia|apply N.mod_lt; lia].
  unfold Ascii.compare. rewrite <-(N_compare_div_mod (N_of_ascii c1) (N_of_ascii c2)).
  destruct (N_of_ascii c1 / 16 ?= N_of_ascii c2 / 16)%N; [|done..].
  by destruct (N_of_ascii c1 `mod` 16 ?= N_of_ascii c2 `mod` 16)%N.
Qed.

Lemma fmap_Permutation_inv {A B} (f : A → B) (l1 : list B) (l2 : list A) :
  l1 ≡ₚ f <$> l2 → ∃ l3, l1 = f <$> l3 ∧ l3 ≡ₚ l2.
Proof.
  intros HP. destruct (Permutation_map_inv f l2 HP) as (l3 & -> & Hl3).
  exists l3. split; [done|]. by symmetry.
Qed.

Lemma StronglySorted_fmap_inv {A B} (f : A → B) (R1 : relation A) (R2 : relation B) l :
  (∀ x y, R2 (f x) (f y) → R1 x y) →
  StronglySorted R2 (f <$> l) → StronglySorted R1 l.
Proof.
  intros HR. induction l as [|x l IH]; intros Hsorted; [constructor|].
  rewrite fmap_cons in Hsorted. apply StronglySorted_inv in Hsorted as [Hsorted Hall].
  constructor; [by apply IH|]. rewrite Forall_fmap in Hall.
  eapply Forall_impl; [exact Hall|]. intros y Hy. by apply HR.
Qed.

(** X16.  The entries of a snapshot are in the ascending order of the
    public keys themselves: the order of the hex-encoded keys, by which
    [GetHeartbeats] sorts, is the order of the keys they encode. *)
Theorem X16_snapshot_is_in_the_order_of_the_keys w order1 order2 :
  iteration_order w.(mon).(heartbeatMessages) order1 →
  let w1 := (computeAllHeartbeatMessages order1 w).2 in
  let records := w1.(mon).(heartbeatMessages) in
  iteration_order records order2 →
  let r := GetHeartbeats order1 order2 w in
  (∀ a b, strings_Compare (hex_EncodeToString a) (hex_EncodeToString b)
          = strings_Compare a b) ∧
  ∃ sorted : list (string * heartbeatMessageInfo),
    sorted ≡ₚ map_to_list records ∧
    StronglySorted ascendingKey sorted ∧
    r.1 = (λ kv, toPubKeyHeartbeat kv.1 kv.2) <$> sorted.
Proof.
  intros Horder1 w1 records Horder2 r. subst r. rewrite GetHeartbeats_unfold.
  fold w1. fold records. simpl. split; [apply strings_Compare_hex|].
  set (entries := (λ kv, toPubKeyHeartbeat kv.1 kv.2) <$> range records order2).
  set (out := sort_Slice _ _).
  assert (Hperm : out ≡ₚ (λ kv, toPubKeyHeartbeat kv.1 kv.2) <$> map_to_list records).
  { unfold out, sort_Slice. rewrite merge_sort_Permutation.
    unfold entries. by rewrite (range_iteration_order records order2). }
  assert (Hnodup : NoDup (HexPublicKey <$> out)).
  { rewrite Hperm. apply NoDup_hex_entries. }
  assert (Hsorted : StronglySorted ascendingHex out).
  { apply StronglySorted_strict; [done|]. apply (StronglySorted_merge_sort _). }
  destruct (fmap_Permutation_inv _ _ _ Hperm) as (sorted & Heq & Hsperm).
  exists sorted. split_and!; [done| |done].
  rewrite Heq in Hsorted. eapply StronglySorted_fmap_inv; [|exact Hsorted].
  intros [k1 v1] [k2 v2]. unfold ascendingHex, ascendingKey. simpl.
  by rewrite strings_Compare_hex.
Qed.

(** ** The running monitor, further *)

(** X17.  A monitor keeps the configuration [NewMonitor] gave it: in every
    state it goes through, the threshold and the genesis time are the
    arguments of [NewMonitor], the copy of the role assignment and the
    collaborators are those of the monitor returned; and after
    [NewMonitor] has returned, no operation loads anything from
    storage. *)
Theorem X17_configuration_is_fixed_and_storage_is_read_only_once
    marshalizer maxDurationPeerUnresponsive keysMap genesisTime
    messageHandler storer peerTypeProvider timer antifloodHandler order e m e' tr pl w :
  iteration_order keysMap order →
  NewMonitor marshalizer maxDurationPeerUnresponsive keysMap genesisTime
    messageHandler storer peerTypeProvider timer antifloodHandler order e
  = (Some m, None, (e', tr, pl)) →
  reachable {| mon := m; ext := e'; trace := tr; pool := pl |} w →
  w.(mon).(mon_maxDurationPeerUnresponsive) = maxDurationPeerUnresponsive ∧
  w.(mon).(mon_genesisTime) = genesisTime ∧
  sameConfiguration m w.(mon) ∧
  ∃ evs, w.(trace) = tr ++ evs ∧ Forall (λ ev, ¬ isLoad ev) evs.
Proof.
  intros Horder Hnew Hreach.
  destruct (NewMonitor_constructed _ _ _ _ _ _ _ _ _ _ _ _ _ _ _ Horder Hnew)
    as (Hdur & Hgen & _).
  destruct (reachable_effect _ _ Hreach) as (Hconf & _ & _ & _ & evs & Htrace & Hevs & _).
  simpl in *. split_and!; [| |done|by exists evs].
  - destruct Hconf as (-> & _). done.
  - destruct Hconf as (_ & -> & _). done.
Qed.

Lemma ProcessReceivedMessage_pool message fromConnectedPeer w :
  let r := ProcessReceivedMessage message fromConnectedPeer w in
  r.2.(pool) = w.(pool) ∨
  ∃ hb, r.2.(pool) = w.(pool) ++ [GoAddHeartbeatMessageToMap hb; GoComputeAllHeartbeatMessages].
Proof.
  unfold ProcessReceivedMessage. destruct message as [message|]; [|by left].
  destruct (Data message); [|by left]. unfold_M.
  destruct (CanProcessMessage _ _ _ _) as [[err|] e1]; [by left|]. simpl.
  destruct (CanProcessMessageOnTopic _ _ _ _) as [[err|] e2]; [by left|]. simpl.
  destruct (CreateHeartbeatFromP2PMessage _ _ _) as [[err|hb] e3]; [by left|]. simpl.
  right. exists hb. by rewrite <-app_assoc.
Qed.

(** The second lock scope of [addHeartbeatMessageToMap] changes records,
    saves a record, and nothing else. *)
Lemma addHeartbeatMessageToMap_update_frame hb w :
  let w' := (addHeartbeatMessageToMap_update hb w).2 in
  w'.(mon).(fullPeersSlice) = w.(mon).(fullPeersSlice) ∧
  w'.(pool) = w.(pool) ∧
  ∃ evs, w'.(trace) = w.(trace) ++ evs ∧ ∀ peersSlice, EvSaveKeys peersSlice ∉ evs.
Proof.
  cbv zeta. destruct (heartbeatMessages (mon w) !! Pubkey hb) as [v|] eqn:Hv.
  - destruct (addHeartbeatMessageToMap_update_exact hb w v Hv) as (v' & -> & -> & ->).
    split_and!; [done..|]. eexists. split; [done|].
    by intros ks [[=]|[]%elem_of_nil]%elem_of_cons.
  - unfold addHeartbeatMessageToMap_update, callHeartbeatReceived. unfold_M.
    destruct (computePeerTypeAndShardID_frame (Pubkey hb) w) as [e He].
    destruct (computePeerTypeAndShardID _ _) as [ps w1]. simpl in He. subst w1. simpl.
    rewrite Hv. simpl. rewrite Hv. simpl. split_and!; [done..|].
    exists []. rewrite app_nil_r. split; [done|]. by intros ks ?%elem_of_nil.
Qed.

Lemma heardBy_app tr evs t : heardBy tr t → heardBy (tr ++ evs) t.
Proof.
  destruct t; simpl; try done; unfold heartbeatReceived; rewrite elem_of_app; by left.
Qed.

(** A step that leaves the slice of known peers alone and saves no list of
    keys. *)
Lemma knownPeersHeard_extend w pool0 w' evs new :
  knownPeersHeard w → Forall (heardBy w.(trace)) pool0 →
  w'.(trace) = w.(trace) ++ evs →
  w'.(pool) = pool0 ++ new →
  Forall (heardBy w'.(trace)) new →
  w'.(mon).(fullPeersSlice) = w.(mon).(fullPeersSlice) →
  (∀ peersSlice, EvSaveKeys peersSlice ∉ evs) →
  knownPeersHeard w'.
Proof.
  intros (Hpool & Hslice & Hsaved) Hsub Htrace Hpool' Hnew Hslice' Hnosave.
  unfold knownPeersHeard. rewrite Hpool', Hslice', Htrace. rewrite Htrace in Hnew.
  split_and!.
  - apply Forall_app. split; [|done].
    eapply Forall_impl; [exact Hsub|]. intros t. apply heardBy_app.
  - intros k Hk. apply elem_of_app. left. by apply Hslice.
  - intros ks k [Hin|Hin]%elem_of_app Hk; [|by destruct (Hnosave ks)].
    apply elem_of_app. left. by eapply Hsaved.
Qed.

Lemma step_knownPeersHeard w w' : knownPeersHeard w → step w w' → knownPeersHeard w'.
Proof.
  assert (Hnil : ∀ ks, EvSaveKeys ks ∉ @nil Event) by (by intros ks ?%elem_of_nil).
  intros Hinv Hstep. revert Hinv.
  destruct Hstep as [w0 message fromConnectedPeer|w0 order1 order2 _ _|w0 ash
                    |w0 i t order Hi _|w0 e];
    intros Hinv; pose proof (proj1 Hinv) as Hpool0.
  - destruct (ProcessReceivedMessage_frame message fromConnectedPeer w0) as [Hmon Htrace].
    destruct (ProcessReceivedMessage_pool message fromConnectedPeer w0) as [Hpool|[hb Hpool]].
    + apply (knownPeersHeard_extend w0 (pool w0) _ [] []);
        [done|done|by rewrite app_nil_r|by rewrite app_nil_r|constructor
        |by rewrite Hmon|done].
    + eapply (knownPeersHeard_extend w0 (pool w0) _ []);
        [done|done|by rewrite app_nil_r|exact Hpool|by repeat constructor
        |by rewrite Hmon|done].
  - rewrite GetHeartbeats_unfold. simpl.
    destruct (computeAllHeartbeatMessages_unfold order1 w0) as (_ & Hmon & Hpool & Htrace & _).
    eapply (knownPeersHeard_extend w0 (pool w0));
      [done|done|exact Htrace|exact Hpool|by repeat constructor|by rewrite Hmon|].
    intros ks [[=]|[[=]|[]%elem_of_nil]%elem_of_cons]%elem_of_cons.
  - apply (knownPeersHeard_extend w0 (pool w0) _ [] []);
      [done|done|destruct ash; simpl; by rewrite app_nil_r
      |destruct ash; simpl; by rewrite app_nil_r|constructor|by destruct ash|done].
  - pose proof (Forall_delete _ _ i Hpool0) as Hsub.
    assert (Ht : heardBy (trace w0) t).
    { rewrite Forall_forall in Hpool0. apply Hpool0. by eapply list_elem_of_lookup_2. }
    set (w1 := set_pool (delete i (pool w0)) w0).
    destruct t as [hb|hb|pubKey| |pubKeysToSave]; simpl.
    + unfold_M.
      pose proof (addHeartbeatMessageToMap_lookup_effect hb w1)
        as (Hmon & Hpool & Htrace & _).
      destruct (addHeartbeatMessageToMap_lookup hb w1) as [[] w2]; simpl in *.
      * eapply (knownPeersHeard_extend w0 (delete i (pool w0)));
          [done|done|exact Htrace|simpl; by rewrite Hpool| |simpl; by rewrite Hmon|].
        -- simpl. repeat constructor. simpl. unfold heartbeatReceived.
           rewrite Htrace. apply elem_of_app. right. left.
        -- by intros ks [[=]|[]%elem_of_nil]%elem_of_cons.
      * eapply (knownPeersHeard_extend w0 (delete i (pool w0)) _ _ []);
          [done|done|exact Htrace|by rewrite app_nil_r|constructor|by rewrite Hmon|].
        by intros ks [[=]|[]%elem_of_nil]%elem_of_cons.
    + unfold_M.
      pose proof (addHeartbeatMessageToMap_update_frame hb w1)
        as (Hslice & Hpool & evs & Htrace & Hnosave).
      destruct (addHeartbeatMessageToMap_update hb w1) as [[] w2]; simpl in *.
      eapply (knownPeersHeard_extend w0 (delete i (pool w0)));
        [done|done|exact Htrace|simpl; by rewrite Hpool| |exact Hslice|exact Hnosave].
      simpl. repeat constructor. simpl. rewrite Htrace. unfold heartbeatReceived.
      apply elem_of_app. by left.
    + pose proof (addPeerToFullPeersSlice_exact pubKey w1) as [Hin Hnot].
      destruct (decide (pubKey ∈ fullPeersSlice (mon w0))) as [Hknown|Hnew].
      * rewrite (Hin Hknown).
        apply (knownPeersHeard_extend w0 (delete i (pool w0)) _ [] []);
          [done|done|simpl; by rewrite app_nil_r|simpl; by rewrite app_nil_r
          |constructor|done|done].
      * destruct (Hnot Hnew) as (Hmon & Htrace & Hpool & _).
        destruct Hinv as (_ & Hslice0 & Hsaved0).
        unfold knownPeersHeard. rewrite Hmon, Htrace, Hpool. simpl.
        assert (Hall : ∀ k, k ∈ fullPeersSlice (mon w0) ++ [pubKey] →
                  heartbeatReceived (trace w0) k).
        { intros k [Hk|Hk]%elem_of_app; [by apply Hslice0|].
          apply list_elem_of_singleton in Hk as ->. done. }
        split_and!.
        -- eapply Forall_impl; [exact Hsub|]. intros t. apply heardBy_app.
        -- intros k Hk. apply elem_of_app. left. by apply Hall.
        -- intros ks k [Hks|Hks]%elem_of_app Hk; apply elem_of_app; left.
           ++ by eapply Hsaved0.
           ++ apply list_elem_of_singleton in Hks. injection Hks as ->. by apply Hall.
    + destruct (computeAllHeartbeatMessages_unfold order w1) as (_ & Hmon & Hpool & Htrace & _).
      eapply (knownPeersHeard_extend w0 (delete i (pool w0)));
        [done|done|exact Htrace|exact Hpool|by repeat constructor|by rewrite Hmon|].
      intros ks [[=]|[[=]|[]%elem_of_nil]%elem_of_cons]%elem_of_cons.
    + destruct (SaveMultipleHeartbeatMessageInfos_saves order w1)
        as (Hmon & Hpool & evs & Htrace & Hevs & _).
      eapply (knownPeersHeard_extend w0 (delete i (pool w0)) _ evs []);
        [done|done|exact Htrace|by rewrite app_nil_r|constructor|by rewrite Hmon|].
      intros ks Hin. rewrite Forall_forall in Hevs. by apply Hevs in Hin.
  - apply (knownPeersHeard_extend w0 (pool w0) _ [] []);
      [done|done|simpl; by rewrite app_nil_r|simpl; by rewrite app_nil_r
      |constructor|done|done].
Qed.

(** X18.  The known peers of a monitor are the peers it has heard from
    since it was constructed: [NewMonitor] returns a monitor with no known
    peer, whatever list of keys storage holds, and from then on a key is
    in the slice of known peers, or in a list of keys that is saved, only
    after a heartbeat of that key has been taken in. *)
Theorem X18_known_peers_were_heard_since_construction
    marshalizer maxDurationPeerUnresponsive keysMap genesisTime
    messageHandler storer peerTypeProvider timer antifloodHandler order e m e' tr pl w :
  iteration_order keysMap order →
  NewMonitor marshalizer maxDurationPeerUnresponsive keysMap genesisTime
    messageHandler storer peerTypeProvider timer antifloodHandler order e
  = (Some m, None, (e', tr, pl)) →
  reachable {| mon := m; ext := e'; trace := tr; pool := pl |} w →
  m.(fullPeersSlice) = [] ∧
  (∀ k, ¬ heartbeatReceived tr k) ∧
  (∀ k, k ∈ w.(mon).(fullPeersSlice) → heartbeatReceived w.(trace) k) ∧
  (∀ peersSlice k, EvSaveKeys peersSlice ∈ w.(trace) → k ∈ peersSlice →
                   heartbeatReceived w.(trace) k).
Proof.
  intros Horder Hnew Hreach.
  destruct (NewMonitor_constructed _ _ _ _ _ _ _ _ _ _ _ _ _ _ _ Horder Hnew)
    as (_ & _ & Hempty & Hnohb & Hnosave & _).
  split; [done|]. split; [done|].
  assert (Hinv : knownPeersHeard w); [|by destruct Hinv as (_ & ? & ?)].
  revert w Hreach. unfold reachable. apply rtc_ind_r.
  - unfold knownPeersHeard. simpl. rewrite Hempty. split_and!.
    + destruct (NewMonitor_checked _ _ _ _ _ _ _ _ _ _ _ _ Hnew)
        as (? & ? & ? & ? & ? & ? & -> & -> & -> & -> & -> & -> & Hne).
      { right. right. by eexists. }
      match type of Hnew with
        NewMonitor (Some ?a) _ _ _ (Some ?b) (Some ?c) (Some ?d) (Some ?f) (Some ?g) _ _ = _ =>
        destruct (NewMonitor_run a maxDurationPeerUnresponsive keysMap genesisTime
                    b c d f g order e Horder Hne) as (_ & evs1 & _ & Hrun) end.
      rewrite Hnew in Hrun. simpl in Hrun.
      destruct Hrun as [([? [=]] & _)|(? & ? & ? & ? & _ & _ & -> & _)].
      by repeat constructor.
    + by intros k ?%elem_of_nil.
    + intros ks k Hks. by destruct (Hnosave ks).
  - intros w1 w2 _ Hstep IH. by eapply step_knownPeersHeard.
Qed.

End Properties.

(** C6: the claim fails for a record whose genesis time is the zero
    [time.Time]: the nanoseconds of the year 1 do not fit an [int64], and
    the record that comes back has its genesis time in the year 1754. *)
Lemma C6_round_trip_fails_at_zero_time :
  ¬ samePersistedFields Demo.recordAtZeroTime
      (convertFromExportedStruct (convertToExportedStruct Demo.recordAtZeroTime)
         Demo.recordAtZeroTime.(maxDurationPeerUnresponsive)).
Proof.
  unfold samePersistedFields. intros (_ & _ & _ & _ & _ & _ & _ & _ & _ & _ & _ & Hgen).
  vm_compute in Hgen. discriminate Hgen.
Qed.

Lemma C6_round_trip_witness :
  samePersistedFields
    (convertFromExportedStruct (H := Demo.outside) Demo.persistedA (10 * Second))
    (convertFromExportedStruct
       (convertToExportedStruct
          (convertFromExportedStruct (H := Demo.outside) Demo.persistedA (10 * Second)))
       (10 * Second)).
Proof.
  apply (C6_round_trip_in_UnixNano_range (H := Demo.outside)
           (convertFromExportedStruct (H := Demo.outside) Demo.persistedA (10 * Second)));
    unfold in_int64, int64_min, int64_max; simpl; vm_compute; split; discriminate.
Defined.


Lemma C10_reload_witness :
  ∃ r, (loadHbmiFromStorer (H := Demo.outside) "A" (Demo.world0 Demo.ext1)).1 = inr r ∧
    r.(timeStamp) = 100 * Second ∧
    GetIsActive (ComputeActive (105 * Second) r) = true.
Proof.
  destruct (C10_reload_resets_timeStamp_of_active (H := Demo.outside)
              (Demo.world0 Demo.ext1) "A" Demo.persistedA Demo.ext1 (100 * Second) Demo.ext1
              eq_refl eq_refl)
    as (r & Hr & Hactive & _).
  destruct (Hactive eq_refl) as [Hts Heval].
  exists r. split; [exact Hr|]. split; [exact Hts|].
  apply Heval.
  generalize (f_equal (λ x, match x with inr r => r.(maxInactiveTime) | inl _ => 0 end) Hr).
  simpl. intros <-. vm_compute. reflexivity.
Defined.

Lemma C1_ProcessReceivedMessage_witness :
  ProcessReceivedMessage (H := Demo.outside) (Some (Demo.message "A")) "flooder"
    (Demo.world0 Demo.ext0)
  = (Some (ErrCollaborator "system busy"), Demo.world0 Demo.ext0).
Proof.
  destruct (C1_ProcessReceivedMessage_outcomes (H := Demo.outside)
              (Demo.world0 Demo.ext0) (Some (Demo.message "A")) "flooder")
    as (_ & _ & Hgates).
  destruct (Hgates (Demo.message "A") eq_refl (ex_intro _ "A" eq_refl)) as (Hgate1 & _).
  apply (Hgate1 (ErrCollaborator "system busy") Demo.ext0 eq_refl).
Defined.

Lemma C3_NewMonitor_witness :
  let r := NewMonitor (H := Demo.outside) (Some tt) (10 * Second) {[ 0 := ["A"] ]} 0
             (Some Demo.demoMessageHandler) (Some Demo.demoStorer)
             (Some Demo.demoPeerTypeProvider) None (Some Demo.demoAntiflood)
             [0] Demo.ext0 in
  r.1.1 = None ∧ is_Some r.1.2.
Proof.
  apply (C3_NewMonitor_checks_its_arguments (H := Demo.outside)).
  right; right; right; right; right; left. reflexivity.
Defined.

(** C5: the up time of 16777216.999999999 s of a record comes out of a
    snapshot as 16777217 s, not as the 16777216 whole seconds it holds:
    the [float64] sum of [Duration.Seconds] rounds up to the next
    integer. *)
Lemma C5_seconds_are_not_always_truncated :
  let r := GetHeartbeats (H := Demo.outside) ["A"] ["A"] (Demo.constructed Demo.ext2) in
  ∃ v entry,
    r.2.(mon).(heartbeatMessages) !! "A" = Some v ∧
    r.1 = [entry] ∧
    entry.(HexPublicKey) = hex_EncodeToString "A" ∧
    v.(totalUpTime) `quot` Second = 16777216 ∧
    entry.(pkh_TotalUpTime) = 16777217.
Proof. vm_compute. eexists _, _. split_and!; reflexivity. Qed.

Lemma C5_snapshot_witness :
  let r := GetHeartbeats (H := Demo.outside) ["C"; "A"] ["C"; "A"] (Demo.constructed Demo.ext1) in
  StronglySorted ascendingHex r.1 ∧ length r.1 = 2%nat.
Proof.
  destruct (C5_snapshot_one_entry_per_record_sorted (H := Demo.outside)
              (Demo.constructed Demo.ext1) ["C"; "A"] ["C"; "A"])
    as (_ & _ & Hlen & _ & Hsorted & _).
  - unfold iteration_order. vm_compute. reflexivity.
  - unfold iteration_order. vm_compute. reflexivity.
  - split; [exact Hsorted|]. rewrite Hlen. vm_compute. reflexivity.
Defined.

Lemma C4_pass_witness :
  ∃ handed : gset string,
    (computeAllHeartbeatMessages (H := Demo.outside) ["C"; "A"] Demo.later).2.(pool)
    = Demo.later.(pool) ++ [GoSaveMultipleHeartbeatMessageInfos handed] ∧
    "A" ∈ handed ∧ "C" ∉ handed.
Proof.
  destruct (C4_pass_persists_the_transitioned_records (H := Demo.outside)
              Demo.later ["C"; "A"])
    as (handed & Hpool & _ & _ & Hhanded & _).
  - unfold iteration_order. vm_compute. reflexivity.
  - exists handed. split; [exact Hpool|]. split.
    + apply Hhanded. eexists _, _. split_and!; vm_compute; reflexivity.
    + intros (v & v' & Hv & _ & Hactive & _)%Hhanded.
      vm_compute in Hv. injection Hv as <-. discriminate Hactive.
Defined.

Lemma C7_pass_witness :
  (computeAllHeartbeatMessages (H := Demo.outside) ["C"; "A"]
     (Demo.constructed Demo.ext1)).2.(trace)
  = (Demo.constructed Demo.ext1).(trace) ++
    [EvSetUInt64Value MetricLiveValidatorNodes 1; EvSetUInt64Value MetricConnectedNodes 1].
Proof.
  destruct (C7_pass_publishes_the_two_counts (H := Demo.outside)
              (Demo.constructed Demo.ext1) ["C"; "A"]) as [Htrace _].
  - unfold iteration_order. vm_compute. reflexivity.
  - rewrite Htrace. vm_compute. reflexivity.
Defined.

(** The run of the instance, step by step. *)
Lemma Demo_run_reachable :
  reachable (H := Demo.outside) (Demo.constructed Demo.ext1) Demo.afterRegister.
Proof.
  unfold reachable.
  eapply rtc_l; [apply (step_ProcessReceivedMessage _ (Some (Demo.message "B")) "peer")|].
  eapply rtc_l; [apply (step_goroutine (H := Demo.outside) Demo.received 1
                          (GoAddHeartbeatMessageToMap Demo.heartbeatB) []);
                 [reflexivity|exact I]|].
  eapply rtc_l; [apply (step_goroutine (H := Demo.outside) Demo.afterLookup 2
                          (GoAddHeartbeatUpdateRecord Demo.heartbeatB) []);
                 [reflexivity|exact I]|].
  eapply rtc_l; [apply (step_goroutine (H := Demo.outside) Demo.afterUpdate 2
                          (GoAddPeerToFullPeersSlice "B") []);
                 [reflexivity|exact I]|].
  apply rtc_refl.
Defined.


Lemma C9_known_peers_witness :
  NoDup Demo.afterRegister.(mon).(fullPeersSlice).
Proof.
  refine (proj1 (C9_known_peers_append_only (H := Demo.outside)
            (Some tt) (10 * Second) {[ 0 := ["A"] ]} 0
            (Some Demo.demoMessageHandler) (Some Demo.demoStorer)
            (Some Demo.demoPeerTypeProvider) (Some Demo.demoTimer) (Some Demo.demoAntiflood)
            [0] Demo.ext1
            (Demo.constructed Demo.ext1).(mon) (Demo.constructed Demo.ext1).(ext)
            (Demo.constructed Demo.ext1).(trace) (Demo.constructed Demo.ext1).(pool)
            Demo.afterRegister _ _)).
  - vm_compute. reflexivity.
  - exact Demo_run_reachable.
Defined.

(** ** The further properties on the instance *)

Lemma X1_import_then_export_witness :
  convertToExportedStruct (H := Demo.outside)
    (convertFromExportedStruct (H := Demo.outside) Demo.persistedA (10 * Second))
  = Demo.persistedA.
Proof.
  apply (X1_import_then_export_is_identity (H := Demo.outside));
    vm_compute; split; discriminate.
Defined.

Lemma X2_NewMonitor_first_failed_check_witness :
  NewMonitor (H := Demo.outside) None (10 * Second) {[ 0 := ["A"] ]} 0
    (Some Demo.demoMessageHandler) None (Some Demo.demoPeerTypeProvider) None
    (Some Demo.demoAntiflood) [0] Demo.ext0
  = (None, Some ErrNilMarshalizer, (Demo.ext0, [], [])).
Proof.
  apply (X2_NewMonitor_first_failed_check (H := Demo.outside)). reflexivity.
Defined.


Lemma X4_NewMonitor_tolerates_LoadKeys_failure_witness :
  ∃ m, (Demo.newDemo Demo.ext0).1.1 = Some m ∧
    ∀ k, is_Some (m.(heartbeatMessages) !! k) ↔ inInitialAssignment {[ 0 := ["A"] ]} k.
Proof.
  apply (X4_NewMonitor_tolerates_LoadKeys_failure (H := Demo.outside)
           tt (10 * Second) {[ 0 := ["A"] ]} 0
           Demo.demoMessageHandler Demo.demoStorer Demo.demoPeerTypeProvider
           Demo.demoTimer Demo.demoAntiflood [0] Demo.ext0).
  - unfold iteration_order. vm_compute. reflexivity.
  - intros Heq. apply (f_equal (λ m : gmap Z (list string), m !! 0)) in Heq.
    vm_compute in Heq. discriminate Heq.
  - vm_compute. do 2 apply list_elem_of_further. apply list_elem_of_here.
Defined.

Lemma X5_NewMonitor_copies_the_role_assignment_witness :
  (Demo.constructed Demo.ext1).(mon).(pubKeysMap) !! 0 = Some ["A"].
Proof.
  refine (eq_trans (X5_NewMonitor_copies_the_role_assignment (H := Demo.outside)
            (Some tt) (10 * Second) {[ 0 := ["A"] ]} 0
            (Some Demo.demoMessageHandler) (Some Demo.demoStorer)
            (Some Demo.demoPeerTypeProvider) (Some Demo.demoTimer) (Some Demo.demoAntiflood)
            [0] Demo.ext1
            (Demo.constructed Demo.ext1).(mon) (Demo.constructed Demo.ext1).(ext)
            (Demo.constructed Demo.ext1).(trace) (Demo.constructed Demo.ext1).(pool)
            _ _ 0) _).
  - unfold iteration_order. vm_compute. reflexivity.
  - vm_compute. reflexivity.
  - vm_compute. reflexivity.
Defined.

Lemma X6_NewMonitor_saves_the_fresh_records_witness :
  ∃ pubKeysToSave,
    (Demo.constructed Demo.ext0).(pool) = [GoSaveMultipleHeartbeatMessageInfos pubKeysToSave] ∧
    "A" ∈ pubKeysToSave.
Proof.
  destruct (X6_NewMonitor_saves_the_fresh_records (H := Demo.outside)
              (Some tt) (10 * Second) {[ 0 := ["A"] ]} 0
              (Some Demo.demoMessageHandler) (Some Demo.demoStorer)
              (Some Demo.demoPeerTypeProvider) (Some Demo.demoTimer) (Some Demo.demoAntiflood)
              [0] Demo.ext0
              (Demo.constructed Demo.ext0).(mon) (Demo.constructed Demo.ext0).(ext)
              (Demo.constructed Demo.ext0).(trace) (Demo.constructed Demo.ext0).(pool))
    as (pubKeysToSave & Hpool & Hfresh & _).
  - unfold iteration_order. vm_compute. reflexivity.
  - vm_compute. reflexivity.
  - exists pubKeysToSave. split; [exact Hpool|]. apply Hfresh. split.
    + exists 0, ["A"]. split; [vm_compute; reflexivity|apply list_elem_of_here].
    + vm_compute. apply list_elem_of_further. apply list_elem_of_here.
Defined.

Lemma X7_reload_witness :
  ∃ r, (loadHbmiFromStorer (H := Demo.outside) "A" (Demo.world0 Demo.ext1)).1 = inr r ∧
    r.(versionNumber) = "v1" ∧ r.(genesisTime) = 0 ∧ r.(peerType) = "eligible".
Proof.
  destruct (X7_reload_keeps_identity_and_resolves_role (H := Demo.outside)
              (Demo.world0 Demo.ext1) "A" Demo.persistedA Demo.ext1 (100 * Second) Demo.ext1
              eq_refl eq_refl)
    as (r & Hr & _ & _ & Hversion & _ & _ & _ & Hgenesis & Hrole & _).
  exists r. split; [exact Hr|]. split; [exact Hversion|]. split; [exact Hgenesis|].
  exact Hrole.
Defined.

Lemma X8_fresh_record_witness :
  (initializeHeartBeatForPK (H := Demo.outside) "A" 0 ∅ ∅ (Demo.world0 Demo.ext0)).1
  = (None, ∅ ∪ {["A"]}, appendKey ∅ (0, "A")).
Proof.
  refine (proj1 (proj1 (X8_fresh_record_at_construction (H := Demo.outside)
            "A" 0 ∅ ∅ (Demo.world0 Demo.ext0)
            (ErrCollaborator "key not found") Demo.ext0 (inr ("eligible", 0)) Demo.ext0
            eq_refl eq_refl) _)).
  reflexivity.
Defined.

Lemma X9_loadRest_never_overwrites_witness :
  (loadRestOfPubKeysFromStorage (H := Demo.outside)
     (Demo.constructed Demo.ext1)).2.(mon).(heartbeatMessages) !! "A"
  = (Demo.constructed Demo.ext1).(mon).(heartbeatMessages) !! "A".
Proof.
  destruct ((Demo.constructed Demo.ext1).(mon).(heartbeatMessages) !! "A") as [v|] eqn:Hv.
  - exact (proj1 (X9_loadRest_never_overwrites (H := Demo.outside)
                    (Demo.constructed Demo.ext1)) "A" v Hv).
  - vm_compute in Hv. discriminate Hv.
Defined.

Lemma X10_heartbeat_witness :
  (addHeartbeatMessageToMap (H := Demo.outside) Demo.heartbeatB
     (Demo.constructed Demo.ext1)).2.(mon).(fullPeersSlice) = ["B"].
Proof.
  destruct (X10_heartbeat_is_recorded_saved_and_known (H := Demo.outside)
              Demo.heartbeatB (Demo.constructed Demo.ext1))
    as (v' & _ & _ & Hpeers & _).
  - right. intros peerType. reflexivity.
  - rewrite Hpeers. vm_compute. reflexivity.
Defined.

Lemma X11_heartbeat_is_dropped_witness :
  (addHeartbeatMessageToMap (H := Demo.outside) Demo.heartbeatB Demo.strict).2.(mon)
  = Demo.strict.(mon).
Proof.
  apply (X11_heartbeat_is_dropped_when_no_record_can_be_made (H := Demo.outside)
           Demo.heartbeatB Demo.strict).
  - vm_compute. reflexivity.
  - intros peerType. vm_compute. eexists. reflexivity.
Defined.

Lemma X12_addPeerToFullPeersSlice_witness :
  (addPeerToFullPeersSlice (H := Demo.outside) "B" Demo.afterRegister).2 = Demo.afterRegister.
Proof.
  refine (proj1 (proj2 (X12_addPeerToFullPeersSlice_is_idempotent (H := Demo.outside)
                          "B" Demo.afterRegister)) _).
  vm_compute. reflexivity.
Defined.

Lemma X13_published_counters_witness :
  ∃ liveValidators connected,
    (computeAllHeartbeatMessages (H := Demo.outside) ["C"; "A"]
       (Demo.constructed Demo.ext1)).2.(trace)
    = (Demo.constructed Demo.ext1).(trace) ++
      [EvSetUInt64Value MetricLiveValidatorNodes liveValidators;
       EvSetUInt64Value MetricConnectedNodes connected] ∧
    0 ≤ liveValidators ≤ connected.
Proof.
  destruct (X13_published_counters_are_bounded (H := Demo.outside)
              (Demo.constructed Demo.ext1) ["C"; "A"])
    as (liveValidators & connected & Htrace & Hbounds & _).
  - unfold iteration_order. vm_compute. reflexivity.
  - exists liveValidators, connected. split; [exact Htrace|exact Hbounds].
Defined.

Lemma X16_snapshot_order_witness :
  let r := GetHeartbeats (H := Demo.outside) ["C"; "A"] ["C"; "A"] (Demo.constructed Demo.ext1) in
  ∃ sorted : list (string * @heartbeatMessageInfo Demo.outside),
    StronglySorted ascendingKey sorted ∧
    r.1 = (λ kv, toPubKeyHeartbeat kv.1 kv.2) <$> sorted.
Proof.
  destruct (X16_snapshot_is_in_the_order_of_the_keys (H := Demo.outside)
              (Demo.constructed Demo.ext1) ["C"; "A"] ["C"; "A"])
    as (_ & sorted & _ & Hsorted & Heq).
  - unfold iteration_order. vm_compute. reflexivity.
  - unfold iteration_order. vm_compute. reflexivity.
  - exists sorted. split; [exact Hsorted|exact Heq].
Defined.

Lemma X17_configuration_witness :
  Demo.afterRegister.(mon).(mon_maxDurationPeerUnresponsive) = 10 * Second.
Proof.
  refine (proj1 (X17_configuration_is_fixed_and_storage_is_read_only_once
            (H := Demo.outside)
            (Some tt) (10 * Second) {[ 0 := ["A"] ]} 0
            (Some Demo.demoMessageHandler) (Some Demo.demoStorer)
            (Some Demo.demoPeerTypeProvider) (Some Demo.demoTimer) (Some Demo.demoAntiflood)
            [0] Demo.ext1
            (Demo.constructed Demo.ext1).(mon) (Demo.constructed Demo.ext1).(ext)
            (Demo.constructed Demo.ext1).(trace) (Demo.constructed Demo.ext1).(pool)
            Demo.afterRegister _ _ _)).
  - unfold iteration_order. vm_compute. reflexivity.
  - vm_compute. reflexivity.
  - exact Demo_run_reachable.
Defined.

Lemma X18_known_peers_witness :
  heartbeatReceived Demo.afterRegister.(trace) "B".
Proof.
  refine (proj1 (proj2 (proj2 (X18_known_peers_were_heard_since_construction
            (H := Demo.outside)
            (Some tt) (10 * Second) {[ 0 := ["A"] ]} 0
            (Some Demo.demoMessageHandler) (Some Demo.demoStorer)
            (Some Demo.demoPeerTypeProvider) (Some Demo.demoTimer) (Some Demo.demoAntiflood)
            [0] Demo.ext1
            (Demo.constructed Demo.ext1).(mon) (Demo.constructed Demo.ext1).(ext)
            (Demo.constructed Demo.ext1).(trace) (Demo.constructed Demo.ext1).(pool)
            Demo.afterRegister _ _ _))) "B" _).
  - unfold iteration_order. vm_compute. reflexivity.
  - vm_compute. reflexivity.
  - exact Demo_run_reachable.
  - vm_compute. apply list_elem_of_here.
Defined.
